(** * Derecho multicast group: ordering and delivery pipeline

    A shallow embedding of [src/derecho/multicast_group.cpp] and of
    [src/derecho/create_state_file.cpp].  The member functions of
    [MulticastGroup] become functions on a record holding the object's
    mutable members; the constant members live in [GroupConfig].  A C++
    exception, a failed [assert] and undefined behaviour are all rendered
    as [None] in the option monad; every externally visible effect
    (SST puts, upcalls, writer requests, notifications) is appended to a
    log carried by the state. *)

From stdpp Require Import base option list functions gmap sorting.
From Stdlib Require Import ZArith Lia.

Local Open Scope Z_scope.

(** ** Basic types *)

Abbreviation node_id_t := nat (only parsing).
Abbreviation subgroup_id_t := nat (only parsing).
Abbreviation pred_handle := nat (only parsing).

Inductive Mode := ORDERED | RAW.

Global Instance Mode_eq_dec : EqDecision Mode.
Proof. solve_decision. Defined.

(** Fixed-width arithmetic of the C++ integer types that can wrap. *)
Definition wrap32 (x : Z) : Z := x mod 2 ^ 32.
Definition wrap64 (x : Z) : Z := x mod 2 ^ 64.
(** Conversion of a 64-bit pattern to [long long int]. *)
Definition to_int64 (x : Z) : Z :=
  let y := wrap64 x in if y <? 2 ^ 63 then y else y - 2 ^ 64.

(** The message header, as laid out at the start of every buffer. *)
Record header := Build_header {
  header_size : Z;
  h_index : Z;
  pause_sending_turns : Z;
  cooked_send : bool
}.

(** A registered buffer: its address and the header its first bytes hold. *)
Record MessageBuffer := Build_MessageBuffer {
  buffer : nat;
  buffer_header : header
}.

(** A pointer into the slot table of the SST: row and slot number. *)
Definition slot_ptr := (nat * nat)%type.

Module RDMCMessage.
Record t := Build {
  sender_id : node_id_t;
  index : Z;
  size : Z;
  message_buffer : option MessageBuffer
}.
End RDMCMessage.

Module SSTMessage.
Record t := Build {
  sender_id : node_id_t;
  index : Z;
  size : Z;
  buf : option slot_ptr
}.
End SSTMessage.

Record Slot := Build_Slot {
  next_seq : Z;
  slot_size : Z;
  slot_buf : header
}.

(** The record handed to and reported back by the file writer. *)
Record persistence_message := Build_persistence_message {
  pm_subgroup_num : subgroup_id_t;
  pm_length : Z;
  pm_view : Z;
  pm_sender : node_id_t;
  pm_index : Z;
  pm_cooked : bool
}.

(** What a registered SST predicate runs when it fires. *)
Inductive Pred :=
| ReceiverPred (subgroup_num : subgroup_id_t)
| StabilityPred (subgroup_num : subgroup_id_t)
| DeliveryPred (subgroup_num : subgroup_id_t)
| SenderPred (subgroup_num : subgroup_id_t)
| RawSenderPred (subgroup_num : subgroup_id_t)
| ForeignPred.

Inductive Column :=
| col_seq_num | col_stable_num | col_delivered_num | col_persisted_num
| col_num_received | col_num_received_sst.

(** Observable effects, in the order the code issues them. *)
Inductive Event :=
| EvPut (dest : option (list nat)) (c : Column) (first count : nat)
| EvPutRow
| EvSyncWithMembers
| EvGlobalStability (subgroup_num : subgroup_id_t) (sender : node_id_t)
    (idx : Z) (len : Z)
| EvRpc (subgroup_num : subgroup_id_t) (sender : node_id_t) (len : Z)
| EvLocalPersistence (subgroup_num : subgroup_id_t) (sender : node_id_t)
    (idx : Z) (len : Z)
| EvWriteMessage (len : Z) (view : Z) (sender : node_id_t) (idx : Z)
    (cooked : bool)
| EvNotifyAll
| EvPredicateRemove (h : pred_handle)
| EvDestroyGroup (group_num : nat)
| EvJoinSenderThread
| EvRdmcSend (subgroup_num : subgroup_id_t) (len : Z)
| EvSstSend (subgroup_num : subgroup_id_t)
| EvPrintTooLarge.

Record DerechoSST := Build_DerechoSST {
  seq_num : nat -> nat -> Z;
  stable_num : nat -> nat -> Z;
  delivered_num : nat -> nat -> Z;
  persisted_num : nat -> nat -> Z;
  num_received : nat -> nat -> Z;
  num_received_sst : nat -> nat -> Z;
  slots : nat -> nat -> Slot;
  vid : nat -> Z;
  predicates : gmap pred_handle Pred
}.

Definition set_seq_num (v : nat -> nat -> Z) (t : DerechoSST) : DerechoSST :=
  Build_DerechoSST
    v (stable_num t) (delivered_num t) (persisted_num t) (num_received t)
    (num_received_sst t) (slots t) (vid t) (predicates t).

Definition set_stable_num (v : nat -> nat -> Z) (t : DerechoSST) : DerechoSST :=
  Build_DerechoSST
    (seq_num t) v (delivered_num t) (persisted_num t) (num_received t)
    (num_received_sst t) (slots t) (vid t) (predicates t).

Definition set_delivered_num (v : nat -> nat -> Z) (t : DerechoSST) : DerechoSST :=
  Build_DerechoSST
    (seq_num t) (stable_num t) v (persisted_num t) (num_received t)
    (num_received_sst t) (slots t) (vid t) (predicates t).

Definition set_persisted_num (v : nat -> nat -> Z) (t : DerechoSST) : DerechoSST :=
  Build_DerechoSST
    (seq_num t) (stable_num t) (delivered_num t) v (num_received t)
    (num_received_sst t) (slots t) (vid t) (predicates t).

Definition set_num_received (v : nat -> nat -> Z) (t : DerechoSST) : DerechoSST :=
  Build_DerechoSST
    (seq_num t) (stable_num t) (delivered_num t) (persisted_num t) v
    (num_received_sst t) (slots t) (vid t) (predicates t).

Definition set_num_received_sst (v : nat -> nat -> Z) (t : DerechoSST) : DerechoSST :=
  Build_DerechoSST
    (seq_num t) (stable_num t) (delivered_num t) (persisted_num t)
    (num_received t) v (slots t) (vid t) (predicates t).

Definition set_slots (v : nat -> nat -> Slot) (t : DerechoSST) : DerechoSST :=
  Build_DerechoSST
    (seq_num t) (stable_num t) (delivered_num t) (persisted_num t)
    (num_received t) (num_received_sst t) v (vid t) (predicates t).

Definition set_vid (v : nat -> Z) (t : DerechoSST) : DerechoSST :=
  Build_DerechoSST
    (seq_num t) (stable_num t) (delivered_num t) (persisted_num t)
    (num_received t) (num_received_sst t) (slots t) v (predicates t).

Definition set_predicates (v : gmap pred_handle Pred) (t : DerechoSST) : DerechoSST :=
  Build_DerechoSST
    (seq_num t) (stable_num t) (delivered_num t) (persisted_num t)
    (num_received t) (num_received_sst t) (slots t) (vid t) v.

(** ** Constant members of the group *)

Record GroupConfig := Build_GroupConfig {
  members : list node_id_t;
  my_node_id : node_id_t;
  max_msg_size : Z;
  window_size : Z;
  total_num_subgroups : nat;
  subgroup_to_shard_and_rank : gmap subgroup_id_t (nat * nat);
  subgroup_to_senders_and_sender_rank : gmap subgroup_id_t (list Z * Z);
  subgroup_to_num_received_offset : gmap subgroup_id_t nat;
  subgroup_to_membership : gmap subgroup_id_t (list node_id_t);
  subgroup_to_mode : gmap subgroup_id_t Mode;
  file_writer : bool;
  sizeof_header : Z;
  num_received_size : nat;
  seq_num_size : nat
}.

Record MulticastGroup := Build_MulticastGroup {
  sst : DerechoSST;
  free_message_buffers : subgroup_id_t -> list (option MessageBuffer);
  locally_stable_rdmc_messages : subgroup_id_t -> gmap Z RDMCMessage.t;
  locally_stable_sst_messages : subgroup_id_t -> gmap Z SSTMessage.t;
  non_persistent_messages : subgroup_id_t -> gmap Z RDMCMessage.t;
  non_persistent_sst_messages : subgroup_id_t -> gmap Z SSTMessage.t;
  current_receives : gmap (subgroup_id_t * Z) RDMCMessage.t;
  current_sends : subgroup_id_t -> option RDMCMessage.t;
  next_sends : subgroup_id_t -> option RDMCMessage.t;
  pending_sends : subgroup_id_t -> list RDMCMessage.t;
  future_message_indices : subgroup_id_t -> Z;
  next_message_to_deliver : subgroup_id_t -> Z;
  last_transfer_medium : subgroup_id_t -> bool;
  thread_shutdown : bool;
  rdmc_sst_groups_created : bool;
  rdmc_group_num_offset : nat;
  sender_pred_handles : list pred_handle;
  receiver_pred_handles : list pred_handle;
  stability_pred_handles : list pred_handle;
  delivery_pred_handles : list pred_handle;
  subgroup_to_send : subgroup_id_t;
  log : list Event
}.

Definition set_sst (v : DerechoSST) (st : MulticastGroup) : MulticastGroup :=
  Build_MulticastGroup
    v (free_message_buffers st) (locally_stable_rdmc_messages st)
    (locally_stable_sst_messages st) (non_persistent_messages st)
    (non_persistent_sst_messages st) (current_receives st) (current_sends st)
    (next_sends st) (pending_sends st) (future_message_indices st)
    (next_message_to_deliver st) (last_transfer_medium st)
    (thread_shutdown st) (rdmc_sst_groups_created st)
    (rdmc_group_num_offset st) (sender_pred_handles st)
    (receiver_pred_handles st) (stability_pred_handles st)
    (delivery_pred_handles st) (subgroup_to_send st) (log st).

Definition set_free_message_buffers (v : subgroup_id_t -> list (option MessageBuffer)) (st : MulticastGroup) : MulticastGroup :=
  Build_MulticastGroup
    (sst st) v (locally_stable_rdmc_messages st)
    (locally_stable_sst_messages st) (non_persistent_messages st)
    (non_persistent_sst_messages st) (current_receives st) (current_sends st)
    (next_sends st) (pending_sends st) (future_message_indices st)
    (next_message_to_deliver st) (last_transfer_medium st)
    (thread_shutdown st) (rdmc_sst_groups_created st)
    (rdmc_group_num_offset st) (sender_pred_handles st)
    (receiver_pred_handles st) (stability_pred_handles st)
    (delivery_pred_handles st) (subgroup_to_send st) (log st).

Definition set_locally_stable_rdmc_messages (v : subgroup_id_t -> gmap Z RDMCMessage.t) (st : MulticastGroup) : MulticastGroup :=
  Build_MulticastGroup
    (sst st) (free_message_buffers st) v (locally_stable_sst_messages st)
    (non_persistent_messages st) (non_persistent_sst_messages st)
    (current_receives st) (current_sends st) (next_sends st)
    (pending_sends st) (future_message_indices st)
    (next_message_to_deliver st) (last_transfer_medium st)
    (thread_shutdown st) (rdmc_sst_groups_created st)
    (rdmc_group_num_offset st) (sender_pred_handles st)
    (receiver_pred_handles st) (stability_pred_handles st)
    (delivery_pred_handles st) (subgroup_to_send st) (log st).

Definition set_locally_stable_sst_messages (v : subgroup_id_t -> gmap Z SSTMessage.t) (st : MulticastGroup) : MulticastGroup :=
  Build_MulticastGroup
    (sst st) (free_message_buffers st) (locally_stable_rdmc_messages st) v
    (non_persistent_messages st) (non_persistent_sst_messages st)
    (current_receives st) (current_sends st) (next_sends st)
    (pending_sends st) (future_message_indices st)
    (next_message_to_deliver st) (last_transfer_medium st)
    (thread_shutdown st) (rdmc_sst_groups_created st)
    (rdmc_group_num_offset st) (sender_pred_handles st)
    (receiver_pred_handles st) (stability_pred_handles st)
    (delivery_pred_handles st) (subgroup_to_send st) (log st).

Definition set_non_persistent_messages (v : subgroup_id_t -> gmap Z RDMCMessage.t) (st : MulticastGroup) : MulticastGroup :=
  Build_MulticastGroup
    (sst st) (free_message_buffers st) (locally_stable_rdmc_messages st)
    (locally_stable_sst_messages st) v (non_persistent_sst_messages st)
    (current_receives st) (current_sends st) (next_sends st)
    (pending_sends st) (future_message_indices st)
    (next_message_to_deliver st) (last_transfer_medium st)
    (thread_shutdown st) (rdmc_sst_groups_created st)
    (rdmc_group_num_offset st) (sender_pred_handles st)
    (receiver_pred_handles st) (stability_pred_handles st)
    (delivery_pred_handles st) (subgroup_to_send st) (log st).

Definition set_non_persistent_sst_messages (v : subgroup_id_t -> gmap Z SSTMessage.t) (st : MulticastGroup) : MulticastGroup :=
  Build_MulticastGroup
    (sst st) (free_message_buffers st) (locally_stable_rdmc_messages st)
    (locally_stable_sst_messages st) (non_persistent_messages st) v
    (current_receives st) (current_sends st) (next_sends st)
    (pending_sends st) (future_message_indices st)
    (next_message_to_deliver st) (last_transfer_medium st)
    (thread_shutdown st) (rdmc_sst_groups_created st)
    (rdmc_group_num_offset st) (sender_pred_handles st)
    (receiver_pred_handles st) (stability_pred_handles st)
    (delivery_pred_handles st) (subgroup_to_send st) (log st).

Definition set_current_receives (v : gmap (subgroup_id_t * Z) RDMCMessage.t) (st : MulticastGroup) : MulticastGroup :=
  Build_MulticastGroup
    (sst st) (free_message_buffers st) (locally_stable_rdmc_messages st)
    (locally_stable_sst_messages st) (non_persistent_messages st)
    (non_persistent_sst_messages st) v (current_sends st) (next_sends st)
    (pending_sends st) (future_message_indices st)
    (next_message_to_deliver st) (last_transfer_medium st)
    (thread_shutdown st) (rdmc_sst_groups_created st)
    (rdmc_group_num_offset st) (sender_pred_handles st)
    (receiver_pred_handles st) (stability_pred_handles st)
    (delivery_pred_handles st) (subgroup_to_send st) (log st).

Definition set_current_sends (v : subgroup_id_t -> option RDMCMessage.t) (st : MulticastGroup) : MulticastGroup :=
  Build_MulticastGroup
    (sst st) (free_message_buffers st) (locally_stable_rdmc_messages st)
    (locally_stable_sst_messages st) (non_persistent_messages st)
    (non_persistent_sst_messages st) (current_receives st) v (next_sends st)
    (pending_sends st) (future_message_indices st)
    (next_message_to_deliver st) (last_transfer_medium st)
    (thread_shutdown st) (rdmc_sst_groups_created st)
    (rdmc_group_num_offset st) (sender_pred_handles st)
    (receiver_pred_handles st) (stability_pred_handles st)
    (delivery_pred_handles st) (subgroup_to_send st) (log st).

Definition set_next_sends (v : subgroup_id_t -> option RDMCMessage.t) (st : MulticastGroup) : MulticastGroup :=
  Build_MulticastGroup
    (sst st) (free_message_buffers st) (locally_stable_rdmc_messages st)
    (locally_stable_sst_messages st) (non_persistent_messages st)
    (non_persistent_sst_messages st) (current_receives st) (current_sends st)
    v (pending_sends st) (future_message_indices st)
    (next_message_to_deliver st) (last_transfer_medium st)
    (thread_shutdown st) (rdmc_sst_groups_created st)
    (rdmc_group_num_offset st) (sender_pred_handles st)
    (receiver_pred_handles st) (stability_pred_handles st)
    (delivery_pred_handles st) (subgroup_to_send st) (log st).

Definition set_pending_sends (v : subgroup_id_t -> list RDMCMessage.t) (st : MulticastGroup) : MulticastGroup :=
  Build_MulticastGroup
    (sst st) (free_message_buffers st) (locally_stable_rdmc_messages st)
    (locally_stable_sst_messages st) (non_persistent_messages st)
    (non_persistent_sst_messages st) (current_receives st) (current_sends st)
    (next_sends st) v (future_message_indices st) (next_message_to_deliver st)
    (last_transfer_medium st) (thread_shutdown st)
    (rdmc_sst_groups_created st) (rdmc_group_num_offset st)
    (sender_pred_handles st) (receiver_pred_handles st)
    (stability_pred_handles st) (delivery_pred_handles st)
    (subgroup_to_send st) (log st).

Definition set_future_message_indices (v : subgroup_id_t -> Z) (st : MulticastGroup) : MulticastGroup :=
  Build_MulticastGroup
    (sst st) (free_message_buffers st) (locally_stable_rdmc_messages st)
    (locally_stable_sst_messages st) (non_persistent_messages st)
    (non_persistent_sst_messages st) (current_receives st) (current_sends st)
    (next_sends st) (pending_sends st) v (next_message_to_deliver st)
    (last_transfer_medium st) (thread_shutdown st)
    (rdmc_sst_groups_created st) (rdmc_group_num_offset st)
    (sender_pred_handles st) (receiver_pred_handles st)
    (stability_pred_handles st) (delivery_pred_handles st)
    (subgroup_to_send st) (log st).

Definition set_next_message_to_deliver (v : subgroup_id_t -> Z) (st : MulticastGroup) : MulticastGroup :=
  Build_MulticastGroup
    (sst st) (free_message_buffers st) (locally_stable_rdmc_messages st)
    (locally_stable_sst_messages st) (non_persistent_messages st)
    (non_persistent_sst_messages st) (current_receives st) (current_sends st)
    (next_sends st) (pending_sends st) (future_message_indices st) v
    (last_transfer_medium st) (thread_shutdown st)
    (rdmc_sst_groups_created st) (rdmc_group_num_offset st)
    (sender_pred_handles st) (receiver_pred_handles st)
    (stability_pred_handles st) (delivery_pred_handles st)
    (subgroup_to_send st) (log st).

Definition set_last_transfer_medium (v : subgroup_id_t -> bool) (st : MulticastGroup) : MulticastGroup :=
  Build_MulticastGroup
    (sst st) (free_message_buffers st) (locally_stable_rdmc_messages st)
    (locally_stable_sst_messages st) (non_persistent_messages st)
    (non_persistent_sst_messages st) (current_receives st) (current_sends st)
    (next_sends st) (pending_sends st) (future_message_indices st)
    (next_message_to_deliver st) v (thread_shutdown st)
    (rdmc_sst_groups_created st) (rdmc_group_num_offset st)
    (sender_pred_handles st) (receiver_pred_handles st)
    (stability_pred_handles st) (delivery_pred_handles st)
    (subgroup_to_send st) (log st).

Definition set_thread_shutdown (v : bool) (st : MulticastGroup) : MulticastGroup :=
  Build_MulticastGroup
    (sst st) (free_message_buffers st) (locally_stable_rdmc_messages st)
    (locally_stable_sst_messages st) (non_persistent_messages st)
    (non_persistent_sst_messages st) (current_receives st) (current_sends st)
    (next_sends st) (pending_sends st) (future_message_indices st)
    (next_message_to_deliver st) (last_transfer_medium st) v
    (rdmc_sst_groups_created st) (rdmc_group_num_offset st)
    (sender_pred_handles st) (receiver_pred_handles st)
    (stability_pred_handles st) (delivery_pred_handles st)
    (subgroup_to_send st) (log st).

Definition set_rdmc_sst_groups_created (v : bool) (st : MulticastGroup) : MulticastGroup :=
  Build_MulticastGroup
    (sst st) (free_message_buffers st) (locally_stable_rdmc_messages st)
    (locally_stable_sst_messages st) (non_persistent_messages st)
    (non_persistent_sst_messages st) (current_receives st) (current_sends st)
    (next_sends st) (pending_sends st) (future_message_indices st)
    (next_message_to_deliver st) (last_transfer_medium st)
    (thread_shutdown st) v (rdmc_group_num_offset st) (sender_pred_handles st)
    (receiver_pred_handles st) (stability_pred_handles st)
    (delivery_pred_handles st) (subgroup_to_send st) (log st).

Definition set_rdmc_group_num_offset (v : nat) (st : MulticastGroup) : MulticastGroup :=
  Build_MulticastGroup
    (sst st) (free_message_buffers st) (locally_stable_rdmc_messages st)
    (locally_stable_sst_messages st) (non_persistent_messages st)
    (non_persistent_sst_messages st) (current_receives st) (current_sends st)
    (next_sends st) (pending_sends st) (future_message_indices st)
    (next_message_to_deliver st) (last_transfer_medium st)
    (thread_shutdown st) (rdmc_sst_groups_created st) v
    (sender_pred_handles st) (receiver_pred_handles st)
    (stability_pred_handles st) (delivery_pred_handles st)
    (subgroup_to_send st) (log st).

Definition set_sender_pred_handles (v : list pred_handle) (st : MulticastGroup) : MulticastGroup :=
  Build_MulticastGroup
    (sst st) (free_message_buffers st) (locally_stable_rdmc_messages st)
    (locally_stable_sst_messages st) (non_persistent_messages st)
    (non_persistent_sst_messages st) (current_receives st) (current_sends st)
    (next_sends st) (pending_sends st) (future_message_indices st)
    (next_message_to_deliver st) (last_transfer_medium st)
    (thread_shutdown st) (rdmc_sst_groups_created st)
    (rdmc_group_num_offset st) v (receiver_pred_handles st)
    (stability_pred_handles st) (delivery_pred_handles st)
    (subgroup_to_send st) (log st).

Definition set_receiver_pred_handles (v : list pred_handle) (st : MulticastGroup) : MulticastGroup :=
  Build_MulticastGroup
    (sst st) (free_message_buffers st) (locally_stable_rdmc_messages st)
    (locally_stable_sst_messages st) (non_persistent_messages st)
    (non_persistent_sst_messages st) (current_receives st) (current_sends st)
    (next_sends st) (pending_sends st) (future_message_indices st)
    (next_message_to_deliver st) (last_transfer_medium st)
    (thread_shutdown st) (rdmc_sst_groups_created st)
    (rdmc_group_num_offset st) (sender_pred_handles st) v
    (stability_pred_handles st) (delivery_pred_handles st)
    (subgroup_to_send st) (log st).

Definition set_stability_pred_handles (v : list pred_handle) (st : MulticastGroup) : MulticastGroup :=
  Build_MulticastGroup
    (sst st) (free_message_buffers st) (locally_stable_rdmc_messages st)
    (locally_stable_sst_messages st) (non_persistent_messages st)
    (non_persistent_sst_messages st) (current_receives st) (current_sends st)
    (next_sends st) (pending_sends st) (future_message_indices st)
    (next_message_to_deliver st) (last_transfer_medium st)
    (thread_shutdown st) (rdmc_sst_groups_created st)
    (rdmc_group_num_offset st) (sender_pred_handles st)
    (receiver_pred_handles st) v (delivery_pred_handles st)
    (subgroup_to_send st) (log st).

Definition set_delivery_pred_handles (v : list pred_handle) (st : MulticastGroup) : MulticastGroup :=
  Build_MulticastGroup
    (sst st) (free_message_buffers st) (locally_stable_rdmc_messages st)
    (locally_stable_sst_messages st) (non_persistent_messages st)
    (non_persistent_sst_messages st) (current_receives st) (current_sends st)
    (next_sends st) (pending_sends st) (future_message_indices st)
    (next_message_to_deliver st) (last_transfer_medium st)
    (thread_shutdown st) (rdmc_sst_groups_created st)
    (rdmc_group_num_offset st) (sender_pred_handles st)
    (receiver_pred_handles st) (stability_pred_handles st) v
    (subgroup_to_send st) (log st).

Definition set_subgroup_to_send (v : subgroup_id_t) (st : MulticastGroup) : MulticastGroup :=
  Build_MulticastGroup
    (sst st) (free_message_buffers st) (locally_stable_rdmc_messages st)
    (locally_stable_sst_messages st) (non_persistent_messages st)
    (non_persistent_sst_messages st) (current_receives st) (current_sends st)
    (next_sends st) (pending_sends st) (future_message_indices st)
    (next_message_to_deliver st) (last_transfer_medium st)
    (thread_shutdown st) (rdmc_sst_groups_created st)
    (rdmc_group_num_offset st) (sender_pred_handles st)
    (receiver_pred_handles st) (stability_pred_handles st)
    (delivery_pred_handles st) v (log st).

Definition set_log (v : list Event) (st : MulticastGroup) : MulticastGroup :=
  Build_MulticastGroup
    (sst st) (free_message_buffers st) (locally_stable_rdmc_messages st)
    (locally_stable_sst_messages st) (non_persistent_messages st)
    (non_persistent_sst_messages st) (current_receives st) (current_sends st)
    (next_sends st) (pending_sends st) (future_message_indices st)
    (next_message_to_deliver st) (last_transfer_medium st)
    (thread_shutdown st) (rdmc_sst_groups_created st)
    (rdmc_group_num_offset st) (sender_pred_handles st)
    (receiver_pred_handles st) (stability_pred_handles st)
    (delivery_pred_handles st) (subgroup_to_send st) v.

(** ** The group's state *)

Definition emit (e : Event) (st : MulticastGroup) : MulticastGroup :=
  set_log (log st ++ [e]) st.

(** [col[i][j] = v] on a two-dimensional SST column. *)
Definition set2 {A} (col : nat -> nat -> A) (i j : nat) (v : A)
  : nat -> nat -> A :=
  <[i := <[j := v]> (col i)]> col.

Definition num_members (cfg : GroupConfig) : nat := length (members cfg).

(** Helper [index_of]: position of the first occurrence, or the size. *)
Fixpoint index_of (container : list node_id_t) (elem : node_id_t) : nat :=
  match container with
  | [] => 0%nat
  | x :: rest => if decide (x = elem) then 0%nat else S (index_of rest elem)
  end.

Definition member_index (cfg : GroupConfig) : nat :=
  index_of (members cfg) (my_node_id cfg).

(** The constructor's loop [node_id_to_sst_index[members[i]] = i]. *)
Fixpoint node_id_to_sst_index_from (i : nat) (ms : list node_id_t)
    (acc : gmap node_id_t nat) : gmap node_id_t nat :=
  match ms with
  | [] => acc
  | m :: rest => node_id_to_sst_index_from (S i) rest (<[m := i]> acc)
  end.

Definition node_id_to_sst_index (cfg : GroupConfig) : gmap node_id_t nat :=
  node_id_to_sst_index_from 0 (members cfg) ∅.

(** Modelled from the spec: [get_num_senders] is declared in the absent
    multicast_group.h; the sender bitmap of a shard has one flag per shard
    member, and the number of shard senders is the number of set flags. *)
Definition get_num_senders (shard_senders : list Z) : Z :=
  Z.of_nat (length (filter (λ b, b ≠ 0) shard_senders)).

(** Modelled from the spec: [resolve_num_received] is declared in the
    absent multicast_group.h.  It takes the maximum of the current value
    and [end], but never skips past a hole: when the indices between the
    current value and [beg] have not all arrived the value stays put. *)
Definition resolve_num_received (beg_index end_index : Z) (current : Z) : Z :=
  if beg_index <=? current + 1 then Z.max current end_index else current.

Definition get_shard_sst_indices (cfg : GroupConfig)
    (subgroup_num : subgroup_id_t) : option (list nat) :=
  shard_members ← subgroup_to_membership cfg !! subgroup_num;
  mapM (λ m, node_id_to_sst_index cfg !! m) shard_members.

(** A loop over the shard members that returns [false] at the first row
    for which [ok] fails; [node_id_to_sst_index.at] throws on an unknown
    member. *)
Fixpoint for_all_shard_rows (idx : gmap node_id_t nat) (ok : nat -> bool)
    (shard_members : list node_id_t) : option bool :=
  match shard_members with
  | [] => Some true
  | m :: rest =>
      r ← idx !! m;
      if ok r then for_all_shard_rows idx ok rest else Some false
  end.

(** The three flow-control tests over the rows of the shard. *)
Definition delivered_gate (cfg : GroupConfig) (subgroup_num : subgroup_id_t)
    (bound : Z) (shard_members : list node_id_t) (st : MulticastGroup)
  : option bool :=
  for_all_shard_rows (node_id_to_sst_index cfg)
    (λ r, negb (delivered_num (sst st) r subgroup_num <? bound)) shard_members.

Definition delivered_persisted_gate (cfg : GroupConfig)
    (subgroup_num : subgroup_id_t) (bound : Z)
    (shard_members : list node_id_t) (st : MulticastGroup) : option bool :=
  for_all_shard_rows (node_id_to_sst_index cfg)
    (λ r, negb ((delivered_num (sst st) r subgroup_num <? bound)
                || (file_writer cfg
                    && (persisted_num (sst st) r subgroup_num <? bound))))
    shard_members.

Definition num_received_gate (cfg : GroupConfig) (subgroup_num : subgroup_id_t)
    (shard_sender_index : Z) (bound : Z) (shard_members : list node_id_t)
    (st : MulticastGroup) : option bool :=
  match shard_members with
  | [] => Some true
  | _ =>
      offset ← subgroup_to_num_received_offset cfg !! subgroup_num;
      for_all_shard_rows (node_id_to_sst_index cfg)
        (λ r, negb (num_received (sst st) r
                      (offset + Z.to_nat shard_sender_index)%nat <? bound))
        shard_members
  end.

(** ** wedge *)

Definition remove_predicates (hs : list pred_handle) (st : MulticastGroup)
  : MulticastGroup :=
  foldl (λ s h, set_sst (set_predicates (delete h (predicates (sst s))) (sst s)) s)
        st hs.

Definition destroy_groups (cfg : GroupConfig) (st : MulticastGroup)
  : MulticastGroup :=
  foldl (λ s i, emit (EvDestroyGroup (i + rdmc_group_num_offset s)%nat) s)
        st (seq 0 (num_members cfg)).

Definition wedge (cfg : GroupConfig) (st : MulticastGroup) : MulticastGroup :=
  if thread_shutdown st then st
  else
    let st := set_thread_shutdown true st in
    let st := set_sender_pred_handles []
                (remove_predicates (sender_pred_handles st) st) in
    let st := set_receiver_pred_handles []
                (remove_predicates (receiver_pred_handles st) st) in
    let st := set_stability_pred_handles []
                (remove_predicates (stability_pred_handles st) st) in
    let st := set_delivery_pred_handles []
                (remove_predicates (delivery_pred_handles st) st) in
    let st := destroy_groups cfg st in
    let st := emit EvNotifyAll st in
    emit EvJoinSenderThread st.

(** ** send *)

Definition send (subgroup_num : subgroup_id_t) (st : MulticastGroup)
  : option (bool * MulticastGroup) :=
  if thread_shutdown st || negb (rdmc_sst_groups_created st) then
    Some (false, st)
  else if last_transfer_medium st subgroup_num then
    msg ← next_sends st subgroup_num;
    let st := set_pending_sends
                (<[subgroup_num := pending_sends st subgroup_num ++ [msg]]>
                   (pending_sends st)) st in
    let st := set_next_sends (<[subgroup_num := None]> (next_sends st)) st in
    Some (true, emit EvNotifyAll st)
  else
    Some (true, emit (EvSstSend subgroup_num) st).

(** ** get_sendbuffer_ptr *)

Inductive sendbuffer_ptr :=
| ptr_bulk (b : nat)
| ptr_slot (p : slot_ptr).

(** The message size computed at the top of [get_sendbuffer_ptr];
    [payload_size] and the sum are [long long unsigned int]. *)
Definition requested_msg_size (cfg : GroupConfig) (payload_size : Z)
    (null_send : bool) : Z :=
  let msg_size := wrap64 (payload_size + sizeof_header cfg) in
  let msg_size := if payload_size =? 0 then max_msg_size cfg else msg_size in
  if null_send then sizeof_header cfg else msg_size.

(** The flow-control bound shared by the send gates. *)
Definition window_bound (cfg : GroupConfig) (idx : Z)
    (num_shard_senders shard_sender_index : Z) : Z :=
  (idx - window_size cfg) * num_shard_senders + shard_sender_index.

Definition fill_header (cfg : GroupConfig) (idx pause : Z) (cooked : bool)
  : header :=
  Build_header (sizeof_header cfg) idx (wrap32 pause) cooked.

Definition get_sendbuffer_ptr (cfg : GroupConfig)
    (subgroup_num : subgroup_id_t) (payload_size : Z)
    (transfer_medium : bool) (pause : Z) (cooked null_send : bool)
    (sst_buffer : option slot_ptr) (st : MulticastGroup)
  : option (option sendbuffer_ptr * MulticastGroup) :=
  if negb (rdmc_sst_groups_created st) then Some (None, st)
  else
    let msg_size := requested_msg_size cfg payload_size null_send in
    if max_msg_size cfg <? msg_size then Some (None, emit EvPrintTooLarge st)
    else
      _ ← subgroup_to_shard_and_rank cfg !! subgroup_num;
      shard_members ← subgroup_to_membership cfg !! subgroup_num;
      '(shard_senders, shard_sender_index) ←
         subgroup_to_senders_and_sender_rank cfg !! subgroup_num;
      let num_shard_senders := get_num_senders shard_senders in
      guard (0 <= shard_sender_index);;
      mode ← subgroup_to_mode cfg !! subgroup_num;
      window_open ←
        (if decide (mode ≠ RAW) then
           delivered_gate cfg subgroup_num
             (window_bound cfg (future_message_indices st subgroup_num)
                num_shard_senders shard_sender_index) shard_members st
         else
           num_received_gate cfg subgroup_num shard_sender_index
             (future_message_indices st subgroup_num - window_size cfg)
             shard_members st);
      if negb window_open then Some (None, st)
      else if thread_shutdown st then Some (None, st)
      else
        let idx := future_message_indices st subgroup_num in
        if transfer_medium then
          match last (free_message_buffers st subgroup_num) with
          | None => Some (None, st)
          | Some back =>
              me ← members cfg !! member_index cfg;
              mb ← back;
              let mb := Build_MessageBuffer (buffer mb)
                          (fill_header cfg idx pause cooked) in
              let msg := RDMCMessage.Build me idx msg_size (Some mb) in
              let st := set_free_message_buffers
                          (<[subgroup_num :=
                               removelast (free_message_buffers st subgroup_num)]>
                             (free_message_buffers st)) st in
              let st := set_next_sends
                          (<[subgroup_num := Some msg]> (next_sends st)) st in
              let st := set_future_message_indices
                          (<[subgroup_num := idx + (pause + 1)]>
                             (future_message_indices st)) st in
              let st := set_last_transfer_medium
                          (<[subgroup_num := transfer_medium]>
                             (last_transfer_medium st)) st in
              Some (Some (ptr_bulk (buffer mb)), st)
          end
        else
          match sst_buffer with
          | None => Some (None, st)
          | Some p =>
              let slot := slots (sst st) p.1 p.2 in
              let slot := Build_Slot (next_seq slot) (slot_size slot)
                            (fill_header cfg idx pause cooked) in
              let st := set_sst (set_slots (set2 (slots (sst st)) p.1 p.2 slot)
                                   (sst st)) st in
              let st := set_future_message_indices
                          (<[subgroup_num := idx + (pause + 1)]>
                             (future_message_indices st)) st in
              let st := set_last_transfer_medium
                          (<[subgroup_num := transfer_medium]>
                             (last_transfer_medium st)) st in
              Some (Some (ptr_slot p), st)
          end.

(** ** std::map primitives used on the message queues *)

(** [begin()]: the entry with the least key. *)
Definition map_begin {A} (m : gmap Z A) : option (Z * A) :=
  foldr (λ kv acc,
           match acc with
           | None => Some kv
           | Some kv' => if kv.1 <? kv'.1 then Some kv else Some kv'
           end) None (map_to_list m).

(** [emplace(k, v)]: inserts only when the key is absent. *)
Definition map_emplace {A} (k : Z) (v : A) (m : gmap Z A) : gmap Z A :=
  match m !! k with
  | Some _ => m
  | None => <[k := v]> m
  end.

(** ** initialize_sst_row *)

Definition initialize_row (cfg : GroupConfig) (i : nat) (t : DerechoSST)
  : DerechoSST :=
  let t := foldl (λ t j, set_num_received (set2 (num_received t) i j (-1)) t)
                 t (seq 0 (num_received_size cfg)) in
  foldl (λ t j,
           let t := set_seq_num (set2 (seq_num t) i j (-1)) t in
           let t := set_stable_num (set2 (stable_num t) i j (-1)) t in
           let t := set_delivered_num (set2 (delivered_num t) i j (-1)) t in
           set_persisted_num (set2 (persisted_num t) i j (-1)) t)
        t (seq 0 (seq_num_size cfg)).

Definition initialize_sst_row (cfg : GroupConfig) (st : MulticastGroup)
  : MulticastGroup :=
  let t := foldl (λ t i, initialize_row cfg i t) (sst st)
                 (seq 0 (num_members cfg)) in
  emit EvSyncWithMembers (emit EvPutRow (set_sst t st)).

(** ** deliver_message *)

(** The loop of [deliver_message] that turns a sender id into its rank
    among the shard's senders: it stops at the first shard member equal to
    the id and counts the sender flags passed on the way. *)
Fixpoint sender_rank_of (sender : node_id_t) (shard_members : list node_id_t)
    (shard_senders : list Z) : Z :=
  match shard_members with
  | [] => 0
  | m :: rest =>
      if decide (m = sender) then 0
      else (if decide (default 0 (head shard_senders) ≠ 0) then 1 else 0)
           + sender_rank_of sender rest (tail shard_senders)
  end.

Definition deliver_upcall (subgroup_num : subgroup_id_t) (sender : node_id_t)
    (idx size : Z) (h : header) (st : MulticastGroup) : MulticastGroup :=
  if cooked_send h then
    emit (EvRpc subgroup_num sender (wrap64 (size - header_size h))) st
  else
    emit (EvGlobalStability subgroup_num sender idx
            (wrap64 (size - header_size h))) st.

Definition persist_sequence_number (cfg : GroupConfig)
    (subgroup_num : subgroup_id_t) (sender : node_id_t) (idx : Z) : option Z :=
  shard_members ← subgroup_to_membership cfg !! subgroup_num;
  '(shard_senders, _) ← subgroup_to_senders_and_sender_rank cfg !! subgroup_num;
  let num_shard_senders := get_num_senders shard_senders in
  let sender_rank := sender_rank_of sender shard_members shard_senders in
  Some (idx * num_shard_senders + sender_rank).

Definition deliver_message (cfg : GroupConfig) (msg : RDMCMessage.t)
    (subgroup_num : subgroup_id_t) (st : MulticastGroup)
  : option MulticastGroup :=
  if 0 <? RDMCMessage.size msg then
    mb ← RDMCMessage.message_buffer msg;
    let h := buffer_header mb in
    let st := deliver_upcall subgroup_num (RDMCMessage.sender_id msg)
                (RDMCMessage.index msg) (RDMCMessage.size msg) h st in
    if file_writer cfg then
      sequence_number ← persist_sequence_number cfg subgroup_num
                          (RDMCMessage.sender_id msg) (RDMCMessage.index msg);
      let st := set_non_persistent_messages
                  (<[subgroup_num :=
                       map_emplace sequence_number msg
                         (non_persistent_messages st subgroup_num)]>
                     (non_persistent_messages st)) st in
      Some (emit (EvWriteMessage (RDMCMessage.size msg)
                    (wrap32 (vid (sst st) (member_index cfg)))
                    (RDMCMessage.sender_id msg)
                    (wrap64 (RDMCMessage.index msg)) (cooked_send h)) st)
    else
      Some (set_free_message_buffers
              (<[subgroup_num := free_message_buffers st subgroup_num ++ [Some mb]]>
                 (free_message_buffers st)) st)
  else Some st.

Definition deliver_sst_message (cfg : GroupConfig) (msg : SSTMessage.t)
    (subgroup_num : subgroup_id_t) (st : MulticastGroup)
  : option MulticastGroup :=
  if 0 <? SSTMessage.size msg then
    p ← SSTMessage.buf msg;
    let h := slot_buf (slots (sst st) p.1 p.2) in
    let st := deliver_upcall subgroup_num (SSTMessage.sender_id msg)
                (SSTMessage.index msg) (SSTMessage.size msg) h st in
    if file_writer cfg then
      sequence_number ← persist_sequence_number cfg subgroup_num
                          (SSTMessage.sender_id msg) (SSTMessage.index msg);
      let st := set_non_persistent_sst_messages
                  (<[subgroup_num :=
                       map_emplace sequence_number msg
                         (non_persistent_sst_messages st subgroup_num)]>
                     (non_persistent_sst_messages st)) st in
      Some (emit (EvWriteMessage (SSTMessage.size msg)
                    (wrap32 (vid (sst st) (member_index cfg)))
                    (SSTMessage.sender_id msg)
                    (wrap64 (SSTMessage.index msg)) (cooked_send h)) st)
    else Some st
  else Some st.

(** ** deliver_messages_upto *)

(** The first loop: the largest sequence number any sender's bound maps
    to, starting from the current [delivered_num]. *)
Fixpoint upto_max_seq_num (num_shard_senders : Z) (sender : Z)
    (max_indices_for_senders : list Z) (max_seq_num : Z) : Z :=
  match max_indices_for_senders with
  | [] => max_seq_num
  | bound :: rest =>
      upto_max_seq_num num_shard_senders (sender + 1) rest
        (Z.max max_seq_num (bound * num_shard_senders + sender))
  end.

(** One iteration of the second loop. *)
Definition deliver_upto_step (cfg : GroupConfig) (subgroup_num : subgroup_id_t)
    (seq_num : Z) (st : MulticastGroup) : option MulticastGroup :=
  match locally_stable_rdmc_messages st subgroup_num !! seq_num with
  | Some msg =>
      st ← deliver_message cfg msg subgroup_num st;
      Some (set_locally_stable_rdmc_messages
              (<[subgroup_num :=
                   delete seq_num (locally_stable_rdmc_messages st subgroup_num)]>
                 (locally_stable_rdmc_messages st)) st)
  | None =>
      match locally_stable_sst_messages st subgroup_num !! seq_num with
      | Some msg =>
          st ← deliver_sst_message cfg msg subgroup_num st;
          Some (set_locally_stable_sst_messages
                  (<[subgroup_num :=
                       delete seq_num (locally_stable_sst_messages st subgroup_num)]>
                     (locally_stable_sst_messages st)) st)
      | None => Some st
      end
  end.

Fixpoint deliver_upto_loop (cfg : GroupConfig) (subgroup_num : subgroup_id_t)
    (seq_nums : list Z) (st : MulticastGroup) : option MulticastGroup :=
  match seq_nums with
  | [] => Some st
  | s :: rest =>
      st ← deliver_upto_step cfg subgroup_num s st;
      deliver_upto_loop cfg subgroup_num rest st
  end.

Definition deliver_messages_upto (cfg : GroupConfig)
    (max_indices_for_senders : list Z) (subgroup_num : subgroup_id_t)
    (num_shard_senders : Z) (st : MulticastGroup) : option MulticastGroup :=
  guard (Z.of_nat (length max_indices_for_senders) = num_shard_senders);;
  let curr_seq_num := delivered_num (sst st) (member_index cfg) subgroup_num in
  let max_seq_num :=
    upto_max_seq_num num_shard_senders 0 max_indices_for_senders curr_seq_num in
  deliver_upto_loop cfg subgroup_num
    (seqZ curr_seq_num (max_seq_num - curr_seq_num + 1)) st.

(** ** The file writer's completion callback *)

Definition make_file_written_callback (cfg : GroupConfig)
    (m : persistence_message) (st : MulticastGroup) : option MulticastGroup :=
  let st := emit (EvLocalPersistence (pm_subgroup_num m) (pm_sender m)
                    (pm_index m) (pm_length m)) st in
  let sender_rank := index_of (members cfg) (pm_sender m) in
  let sequence_number :=
    to_int64 (pm_index m * Z.of_nat (num_members cfg) + Z.of_nat sender_rank) in
  m_msg ← non_persistent_messages st (pm_subgroup_num m) !! sequence_number;
  let st := set_free_message_buffers
              (<[pm_subgroup_num m :=
                   free_message_buffers st (pm_subgroup_num m)
                   ++ [RDMCMessage.message_buffer m_msg]]>
                 (free_message_buffers st)) st in
  let st := set_non_persistent_messages
              (<[pm_subgroup_num m :=
                   delete sequence_number
                     (non_persistent_messages st (pm_subgroup_num m))]>
                 (non_persistent_messages st)) st in
  let st := set_sst (set_persisted_num
                       (set2 (persisted_num (sst st)) (member_index cfg)
                          (pm_subgroup_num m) sequence_number) (sst st)) st in
  shard_sst_indices ← get_shard_sst_indices cfg (pm_subgroup_num m);
  Some (emit (EvPut (Some shard_sst_indices) col_persisted_num
                (pm_subgroup_num m) 1) st).

(** ** The receive handlers built by create_rdmc_sst_groups *)

(** What the closure of a sender's handlers captures. *)
Record sender_context := Build_sender_context {
  sc_node_id : node_id_t;
  sc_sender_rank : Z;
  sc_num_shard_senders : Z;
  sc_shard_sst_indices : list nat;
  sc_num_received_offset : nat
}.

Definition sender_context_of (cfg : GroupConfig) (subgroup_num : subgroup_id_t)
    (shard_rank : nat) : option sender_context :=
  shard_members ← subgroup_to_membership cfg !! subgroup_num;
  '(shard_senders, _) ← subgroup_to_senders_and_sender_rank cfg !! subgroup_num;
  shard_sst_indices ← get_shard_sst_indices cfg subgroup_num;
  offset ← subgroup_to_num_received_offset cfg !! subgroup_num;
  flag ← shard_senders !! shard_rank;
  guard (flag ≠ 0);;
  node_id ← shard_members !! shard_rank;
  Some (Build_sender_context node_id
          (get_num_senders (take shard_rank shard_senders))
          (get_num_senders shard_senders) shard_sst_indices offset).

(** [std::min_element]: position and value of the first least element. *)
Fixpoint min_element (l : list Z) : option (nat * Z) :=
  match l with
  | [] => None
  | x :: rest =>
      match min_element rest with
      | None => Some (0%nat, x)
      | Some (i, y) => if y <? x then Some (S i, y) else Some (0%nat, x)
      end
  end.

Definition num_received_range (st : MulticastGroup) (row offset : nat)
    (num_shard_senders : Z) : list Z :=
  map (λ j, num_received (sst st) row (offset + j)%nat)
      (seq 0 (Z.to_nat num_shard_senders)).

(** The sequence number a row may claim given its receive counters. *)
Definition recomputed_seq_num (st : MulticastGroup) (row offset : nat)
    (num_shard_senders : Z) : option Z :=
  '(min_index, min_val) ← min_element (num_received_range st row offset
                                          num_shard_senders);
  Some ((min_val + 1) * num_shard_senders + Z.of_nat min_index - 1).

(** The placeholder loop: one empty message per skipped turn. *)
Fixpoint add_rdmc_placeholders (turns : nat) (node_id : node_id_t)
    (num_shard_senders : Z) (index sequence_number : Z)
    (q : gmap Z RDMCMessage.t) : Z * gmap Z RDMCMessage.t :=
  match turns with
  | O => (index, q)
  | S n =>
      let index := index + 1 in
      let sequence_number := sequence_number + num_shard_senders in
      add_rdmc_placeholders n node_id num_shard_senders index sequence_number
        (<[sequence_number := RDMCMessage.Build node_id index 0 None]> q)
  end.

Fixpoint add_sst_placeholders (turns : nat) (node_id : node_id_t)
    (num_shard_senders : Z) (index sequence_number : Z)
    (q : gmap Z SSTMessage.t) : Z * gmap Z SSTMessage.t :=
  match turns with
  | O => (index, q)
  | S n =>
      let index := index + 1 in
      let sequence_number := sequence_number + num_shard_senders in
      add_sst_placeholders n node_id num_shard_senders index sequence_number
        (<[sequence_number := SSTMessage.Build node_id index 0 None]> q)
  end.

(** RAW mode: one stability upcall for a newly sequenced message. *)
Definition raw_deliver_one (subgroup_num : subgroup_id_t)
    (num_shard_senders sender_rank : Z) (i : Z) (st : MulticastGroup)
  : option MulticastGroup :=
  let seq_num := wrap32 (i * num_shard_senders + sender_rank) in
  let from_rdmc :=
    '(k, msg) ← map_begin (locally_stable_rdmc_messages st subgroup_num);
    guard (k = seq_num);;
    st ← (if 0 <? RDMCMessage.size msg then
            mb ← RDMCMessage.message_buffer msg;
            let st := emit (EvGlobalStability subgroup_num
                              (RDMCMessage.sender_id msg) (RDMCMessage.index msg)
                              (wrap64 (RDMCMessage.size msg
                                       - header_size (buffer_header mb)))) st in
            Some (set_free_message_buffers
                    (<[subgroup_num :=
                         free_message_buffers st subgroup_num ++ [Some mb]]>
                       (free_message_buffers st)) st)
          else Some st);
    Some (set_locally_stable_rdmc_messages
            (<[subgroup_num :=
                 delete k (locally_stable_rdmc_messages st subgroup_num)]>
               (locally_stable_rdmc_messages st)) st) in
  match map_begin (locally_stable_sst_messages st subgroup_num) with
  | Some (k, msg) =>
      if decide (k = seq_num) then
        st ← (if 0 <? SSTMessage.size msg then
                p ← SSTMessage.buf msg;
                let h := slot_buf (slots (sst st) p.1 p.2) in
                Some (emit (EvGlobalStability subgroup_num
                              (SSTMessage.sender_id msg) (SSTMessage.index msg)
                              (wrap64 (SSTMessage.size msg - header_size h))) st)
              else Some st);
        Some (set_locally_stable_sst_messages
                (<[subgroup_num :=
                     delete k (locally_stable_sst_messages st subgroup_num)]>
                   (locally_stable_sst_messages st)) st)
      else from_rdmc
  | None => from_rdmc
  end.

Fixpoint raw_deliver_loop (subgroup_num : subgroup_id_t)
    (num_shard_senders sender_rank : Z) (indices : list Z) (st : MulticastGroup)
  : option MulticastGroup :=
  match indices with
  | [] => Some st
  | i :: rest =>
      st ← raw_deliver_one subgroup_num num_shard_senders sender_rank i st;
      raw_deliver_loop subgroup_num num_shard_senders sender_rank rest st
  end.

Definition raw_deliver_new (cfg : GroupConfig) (subgroup_num : subgroup_id_t)
    (num_shard_senders sender_rank : Z) (entry : nat) (new_num_received : Z)
    (st : MulticastGroup) : option MulticastGroup :=
  mode ← subgroup_to_mode cfg !! subgroup_num;
  if decide (mode = RAW) then
    let first := wrap32 (num_received (sst st) (member_index cfg) entry + 1) in
    raw_deliver_loop subgroup_num num_shard_senders sender_rank
      (seqZ first (new_num_received - first + 1)) st
  else Some st.

(** The receive-destination callback of a remote sender's RDMC group. *)
Definition rdmc_incoming_message (cfg : GroupConfig)
    (subgroup_num : subgroup_id_t) (shard_rank : nat) (length : Z)
    (st : MulticastGroup) : option MulticastGroup :=
  ctx ← sender_context_of cfg subgroup_num shard_rank;
  back ← last (free_message_buffers st subgroup_num);
  let idx := num_received (sst st) (member_index cfg)
               (sc_num_received_offset ctx + Z.to_nat (sc_sender_rank ctx))%nat
             + 1 in
  let msg := RDMCMessage.Build (sc_node_id ctx) idx length back in
  let st := set_free_message_buffers
              (<[subgroup_num :=
                   removelast (free_message_buffers st subgroup_num)]>
                 (free_message_buffers st)) st in
  let sequence_number := idx * sc_num_shard_senders ctx + sc_sender_rank ctx in
  let st := set_current_receives
              (<[(subgroup_num, sequence_number) := msg]> (current_receives st))
              st in
  _ ← back;
  Some st.

(** The tail shared by the bulk handler: publish an advanced counter. *)
Definition publish_num_received (cfg : GroupConfig)
    (subgroup_num : subgroup_id_t) (ctx : sender_context)
    (new_num_received : Z) (st : MulticastGroup) : option MulticastGroup :=
  let me := member_index cfg in
  let entry := (sc_num_received_offset ctx + Z.to_nat (sc_sender_rank ctx))%nat in
  if num_received (sst st) me entry <? new_num_received then
    let st := set_sst (set_num_received
                         (set2 (num_received (sst st)) me entry new_num_received)
                         (sst st)) st in
    new_seq_num ← recomputed_seq_num st me (sc_num_received_offset ctx)
                    (sc_num_shard_senders ctx);
    let st :=
      if seq_num (sst st) me subgroup_num <? new_seq_num then
        emit (EvPut (Some (sc_shard_sst_indices ctx)) col_seq_num subgroup_num 1)
          (set_sst (set_seq_num
                      (set2 (seq_num (sst st)) me subgroup_num new_seq_num)
                      (sst st)) st)
      else st in
    Some (emit (EvPut (Some (sc_shard_sst_indices ctx)) col_num_received entry 1)
            st)
  else Some st.

Definition rdmc_receive_handler (cfg : GroupConfig)
    (subgroup_num : subgroup_id_t) (shard_rank : nat) (h : header)
    (st : MulticastGroup) : option MulticastGroup :=
  ctx ← sender_context_of cfg subgroup_num shard_rank;
  let index := h_index h in
  let beg_index := index in
  let sequence_number := index * sc_num_shard_senders ctx + sc_sender_rank ctx in
  me ← members cfg !! member_index cfg;
  st ← (if decide (sc_node_id ctx = me) then
          msg ← current_sends st subgroup_num;
          let st := set_locally_stable_rdmc_messages
                      (<[subgroup_num :=
                           <[sequence_number := msg]>
                             (locally_stable_rdmc_messages st subgroup_num)]>
                         (locally_stable_rdmc_messages st)) st in
          Some (set_current_sends (<[subgroup_num := None]> (current_sends st)) st)
        else
          msg ← current_receives st !! (subgroup_num, sequence_number);
          let st := set_locally_stable_rdmc_messages
                      (<[subgroup_num :=
                           map_emplace sequence_number msg
                             (locally_stable_rdmc_messages st subgroup_num)]>
                         (locally_stable_rdmc_messages st)) st in
          Some (set_current_receives
                  (delete (subgroup_num, sequence_number) (current_receives st))
                  st));
  let '(index, q) :=
    add_rdmc_placeholders (Z.to_nat (pause_sending_turns h)) (sc_node_id ctx)
      (sc_num_shard_senders ctx) index sequence_number
      (locally_stable_rdmc_messages st subgroup_num) in
  let st := set_locally_stable_rdmc_messages
              (<[subgroup_num := q]> (locally_stable_rdmc_messages st)) st in
  let entry := (sc_num_received_offset ctx + Z.to_nat (sc_sender_rank ctx))%nat in
  let new_num_received :=
    resolve_num_received beg_index index
      (num_received (sst st) (member_index cfg) entry) in
  st ← raw_deliver_new cfg subgroup_num (sc_num_shard_senders ctx)
         (sc_sender_rank ctx) entry new_num_received st;
  publish_num_received cfg subgroup_num ctx new_num_received st.

(** ** The predicates and triggers of register_predicates *)

(** [shard_ranks_by_sender_rank]: the shard ranks of the senders, in order. *)
Definition shard_ranks_by_sender_rank (num_shard_members : nat)
    (shard_senders : list Z) : list nat :=
  filter (λ j, default 0 (shard_senders !! j) ≠ 0) (seq 0 num_shard_members).

(** The SST row of the shard's [j]-th sender. *)
Definition sender_row (cfg : GroupConfig) (subgroup_num : subgroup_id_t)
    (j : nat) : option nat :=
  shard_members ← subgroup_to_membership cfg !! subgroup_num;
  '(shard_senders, _) ← subgroup_to_senders_and_sender_rank cfg !! subgroup_num;
  shard_rank ← shard_ranks_by_sender_rank (length shard_members) shard_senders !! j;
  node ← shard_members !! shard_rank;
  node_id_to_sst_index cfg !! node.

(** The slot the receiver inspects next for sender [j]: its row, its
    column in the slot table and the message count it would complete. *)
Definition next_slot (cfg : GroupConfig) (subgroup_num : subgroup_id_t)
    (j : nat) (st : MulticastGroup) : option (slot_ptr * Z) :=
  offset ← subgroup_to_num_received_offset cfg !! subgroup_num;
  row ← sender_row cfg subgroup_num j;
  let num_received :=
    num_received_sst (sst st) (member_index cfg) (offset + j)%nat + 1 in
  let slot := wrap32 (Z.rem num_received (window_size cfg)) in
  let col := Z.to_nat (wrap32 (Z.of_nat subgroup_num * window_size cfg + slot)) in
  Some ((row, col), num_received).

Definition slot_ready (cfg : GroupConfig) (st : MulticastGroup)
    (p : slot_ptr) (num_received : Z) : bool :=
  next_seq (slots (sst st) p.1 p.2) =? Z.quot num_received (window_size cfg) + 1.

Fixpoint receiver_pred_loop (cfg : GroupConfig) (subgroup_num : subgroup_id_t)
    (senders : list nat) (st : MulticastGroup) : option bool :=
  match senders with
  | [] => Some false
  | j :: rest =>
      '(p, num_received) ← next_slot cfg subgroup_num j st;
      if slot_ready cfg st p num_received then Some true
      else receiver_pred_loop cfg subgroup_num rest st
  end.

Definition shard_num_senders (cfg : GroupConfig) (subgroup_num : subgroup_id_t)
  : option Z :=
  '(shard_senders, _) ← subgroup_to_senders_and_sender_rank cfg !! subgroup_num;
  Some (get_num_senders shard_senders).

Definition receiver_pred (cfg : GroupConfig) (subgroup_num : subgroup_id_t)
    (st : MulticastGroup) : option bool :=
  num_shard_senders ← shard_num_senders cfg subgroup_num;
  receiver_pred_loop cfg subgroup_num (seq 0 (Z.to_nat num_shard_senders)) st.

Definition sst_receive_handler (cfg : GroupConfig)
    (subgroup_num : subgroup_id_t) (sender_rank : nat) (data : slot_ptr)
    (size : Z) (st : MulticastGroup) : option MulticastGroup :=
  shard_members ← subgroup_to_membership cfg !! subgroup_num;
  '(shard_senders, _) ← subgroup_to_senders_and_sender_rank cfg !! subgroup_num;
  num_received_offset ← subgroup_to_num_received_offset cfg !! subgroup_num;
  let num_shard_senders := get_num_senders shard_senders in
  let h := slot_buf (slots (sst st) data.1 data.2) in
  let index := h_index h in
  let beg_index := index in
  let sequence_number := index * num_shard_senders + Z.of_nat sender_rank in
  shard_rank ← shard_ranks_by_sender_rank (length shard_members) shard_senders
                 !! sender_rank;
  node_id ← shard_members !! shard_rank;
  let q := <[sequence_number :=
               SSTMessage.Build node_id index size (Some data)]>
             (locally_stable_sst_messages st subgroup_num) in
  let '(index, q) :=
    add_sst_placeholders (Z.to_nat (pause_sending_turns h)) node_id
      num_shard_senders index sequence_number q in
  let st := set_locally_stable_sst_messages
              (<[subgroup_num := q]> (locally_stable_sst_messages st)) st in
  let entry := (num_received_offset + sender_rank)%nat in
  let new_num_received :=
    resolve_num_received beg_index index
      (num_received (sst st) (member_index cfg) entry) in
  st ← raw_deliver_new cfg subgroup_num num_shard_senders
         (Z.of_nat sender_rank) entry new_num_received st;
  Some (set_sst (set_num_received
                   (set2 (num_received (sst st)) (member_index cfg) entry
                      new_num_received) (sst st)) st).

(** The body of the inner loop of [receiver_trig], for sender [j]. *)
Definition receiver_trig_body (cfg : GroupConfig)
    (subgroup_num : subgroup_id_t) (j : nat) (st : MulticastGroup)
  : option MulticastGroup :=
  offset ← subgroup_to_num_received_offset cfg !! subgroup_num;
  '(p, num_received) ← next_slot cfg subgroup_num j st;
  if slot_ready cfg st p num_received then
    st ← sst_receive_handler cfg subgroup_num j p
           (slot_size (slots (sst st) p.1 p.2)) st;
    Some (set_sst (set_num_received_sst
                     (set2 (num_received_sst (sst st)) (member_index cfg)
                        (offset + j)%nat num_received) (sst st)) st)
  else Some st.

Fixpoint receiver_trig_loop (cfg : GroupConfig) (subgroup_num : subgroup_id_t)
    (senders : list nat) (st : MulticastGroup) : option MulticastGroup :=
  match senders with
  | [] => Some st
  | j :: rest =>
      st ← receiver_trig_body cfg subgroup_num j st;
      receiver_trig_loop cfg subgroup_num rest st
  end.

(** What [receiver_trig] does after its loops: publish the counters and
    recompute the subgroup's sequence number. *)
Definition receiver_trig_publish (cfg : GroupConfig)
    (subgroup_num : subgroup_id_t) (st : MulticastGroup)
  : option MulticastGroup :=
  offset ← subgroup_to_num_received_offset cfg !! subgroup_num;
  num_shard_senders ← shard_num_senders cfg subgroup_num;
  let me := member_index cfg in
  let count := Z.to_nat num_shard_senders in
  let st := emit (EvPut None col_num_received_sst offset count) st in
  new_seq_num ← recomputed_seq_num st me offset num_shard_senders;
  let st :=
    if seq_num (sst st) me subgroup_num <? new_seq_num then
      emit (EvPut None col_seq_num subgroup_num 1)
        (set_sst (set_seq_num
                    (set2 (seq_num (sst st)) me subgroup_num new_seq_num)
                    (sst st)) st)
    else st in
  Some (emit (EvPut None col_num_received offset count) st).

Definition num_times (cfg : GroupConfig) : Z :=
  let n := Z.quot (window_size cfg) 2 in
  if n =? 0 then 1 else n.

Definition receiver_trig (cfg : GroupConfig) (subgroup_num : subgroup_id_t)
    (st : MulticastGroup) : option MulticastGroup :=
  num_shard_senders ← shard_num_senders cfg subgroup_num;
  st ← receiver_trig_loop cfg subgroup_num
         (mjoin (replicate (Z.to_nat (num_times cfg))
                   (seq 0 (Z.to_nat num_shard_senders)))) st;
  receiver_trig_publish cfg subgroup_num st.

(** The minimum of one column over the rows of the shard, as both the
    stability and the delivery trigger compute it. *)
Fixpoint min_loop (idx : gmap node_id_t nat) (col : nat -> Z)
    (shard_members : list node_id_t) (acc : Z) : option Z :=
  match shard_members with
  | [] => Some acc
  | m :: rest =>
      r ← idx !! m;
      min_loop idx col rest (if col r <? acc then col r else acc)
  end.

Definition min_over_shard (cfg : GroupConfig) (col : nat -> Z)
    (shard_members : list node_id_t) : option Z :=
  first ← head shard_members;
  r ← node_id_to_sst_index cfg !! first;
  min_loop (node_id_to_sst_index cfg) col shard_members (col r).

Definition stability_trig (cfg : GroupConfig) (subgroup_num : subgroup_id_t)
    (st : MulticastGroup) : option MulticastGroup :=
  shard_members ← subgroup_to_membership cfg !! subgroup_num;
  shard_sst_indices ← get_shard_sst_indices cfg subgroup_num;
  min_seq_num ← min_over_shard cfg (λ r, seq_num (sst st) r subgroup_num)
                  shard_members;
  let me := member_index cfg in
  if stable_num (sst st) me subgroup_num <? min_seq_num then
    let st := set_sst (set_stable_num
                         (set2 (stable_num (sst st)) me subgroup_num min_seq_num)
                         (sst st)) st in
    Some (emit (EvPut (Some shard_sst_indices) col_stable_num subgroup_num 1) st)
  else Some st.

(** One pass through the body of the delivery trigger's [while(true)]:
    [None] when the loop breaks. *)
Definition delivery_choice (subgroup_num : subgroup_id_t) (min_stable_num : Z)
    (st : MulticastGroup) : option (Z * (RDMCMessage.t + SSTMessage.t)) :=
  let rdmc := map_begin (locally_stable_rdmc_messages st subgroup_num) in
  let sst_ := map_begin (locally_stable_sst_messages st subgroup_num) in
  let int64_max := 2 ^ 63 - 1 in
  let least_rdmc := from_option fst int64_max rdmc in
  let least_sst := from_option fst int64_max sst_ in
  match rdmc, sst_ with
  | None, None => None
  | _, _ =>
      if (least_rdmc <? least_sst) && (least_rdmc <=? min_stable_num) then
        match rdmc with
        | Some (k, msg) => Some (k, inl msg)
        | None => None
        end
      else if (least_sst <? least_rdmc) && (least_sst <=? min_stable_num) then
        match sst_ with
        | Some (k, msg) => Some (k, inr msg)
        | None => None
        end
      else None
  end.

Definition delivery_step (cfg : GroupConfig) (subgroup_num : subgroup_id_t)
    (k : Z) (msg : RDMCMessage.t + SSTMessage.t) (st : MulticastGroup)
  : option MulticastGroup :=
  let me := member_index cfg in
  match msg with
  | inl msg =>
      st ← deliver_message cfg msg subgroup_num st;
      let st := set_sst (set_delivered_num
                           (set2 (delivered_num (sst st)) me subgroup_num k)
                           (sst st)) st in
      Some (set_locally_stable_rdmc_messages
              (<[subgroup_num :=
                   delete k (locally_stable_rdmc_messages st subgroup_num)]>
                 (locally_stable_rdmc_messages st)) st)
  | inr msg =>
      st ← deliver_sst_message cfg msg subgroup_num st;
      let st := set_sst (set_delivered_num
                           (set2 (delivered_num (sst st)) me subgroup_num k)
                           (sst st)) st in
      Some (set_locally_stable_sst_messages
              (<[subgroup_num :=
                   delete k (locally_stable_sst_messages st subgroup_num)]>
                 (locally_stable_sst_messages st)) st)
  end.

(** The loop itself; every pass removes one queued message, so the number
    of queued messages bounds the number of passes. *)
Fixpoint delivery_loop (fuel : nat) (cfg : GroupConfig)
    (subgroup_num : subgroup_id_t) (min_stable_num : Z) (update_sst : bool)
    (st : MulticastGroup) : option (bool * MulticastGroup) :=
  match delivery_choice subgroup_num min_stable_num st with
  | None => Some (update_sst, st)
  | Some (k, msg) =>
      match fuel with
      | O => None
      | S fuel =>
          st ← delivery_step cfg subgroup_num k msg st;
          delivery_loop fuel cfg subgroup_num min_stable_num true st
      end
  end.

Definition delivery_trig (cfg : GroupConfig) (subgroup_num : subgroup_id_t)
    (st : MulticastGroup) : option MulticastGroup :=
  shard_members ← subgroup_to_membership cfg !! subgroup_num;
  min_stable_num ← min_over_shard cfg (λ r, stable_num (sst st) r subgroup_num)
                     shard_members;
  let fuel := (size (locally_stable_rdmc_messages st subgroup_num)
               + size (locally_stable_sst_messages st subgroup_num))%nat in
  '(update_sst, st) ← delivery_loop fuel cfg subgroup_num min_stable_num false st;
  if (update_sst : bool) then
    shard_sst_indices ← get_shard_sst_indices cfg subgroup_num;
    Some (emit (EvPut (Some shard_sst_indices) col_delivered_num subgroup_num 1)
            st)
  else Some st.

Definition sender_pred (cfg : GroupConfig) (subgroup_num : subgroup_id_t)
    (st : MulticastGroup) : option bool :=
  shard_members ← subgroup_to_membership cfg !! subgroup_num;
  '(shard_senders, shard_sender_index) ←
     subgroup_to_senders_and_sender_rank cfg !! subgroup_num;
  let num_shard_senders := get_num_senders shard_senders in
  let seq_num := next_message_to_deliver st subgroup_num * num_shard_senders
                 + shard_sender_index in
  delivered_persisted_gate cfg subgroup_num seq_num shard_members st.

Definition sender_trig (subgroup_num : subgroup_id_t) (st : MulticastGroup)
  : MulticastGroup :=
  let st := emit EvNotifyAll st in
  set_next_message_to_deliver
    (<[subgroup_num := next_message_to_deliver st subgroup_num + 1]>
       (next_message_to_deliver st)) st.

Definition raw_sender_pred (cfg : GroupConfig) (subgroup_num : subgroup_id_t)
    (st : MulticastGroup) : option bool :=
  shard_members ← subgroup_to_membership cfg !! subgroup_num;
  '(_, shard_sender_index) ←
     subgroup_to_senders_and_sender_rank cfg !! subgroup_num;
  num_received_gate cfg subgroup_num shard_sender_index
    (future_message_indices st subgroup_num - 1 - window_size cfg)
    shard_members st.

Definition raw_sender_trig (st : MulticastGroup) : MulticastGroup :=
  emit EvNotifyAll st.

(** [predicates.insert]: Modelled from the spec: the SST class is absent;
    inserting a predicate yields an opaque handle not in use. *)
Definition insert_predicate (p : Pred) (t : DerechoSST)
  : pred_handle * DerechoSST :=
  let h := fresh (dom (predicates t)) in
  (h, set_predicates (<[h := p]> (predicates t)) t).

(** [handles.emplace_back(sst->predicates.insert(pred, trig, RECURRENT))]
    for each of the four handle lists. *)
Inductive handle_list :=
| sender_handles | receiver_handles | stability_handles | delivery_handles.

Definition register_predicate (l : handle_list) (p : Pred)
    (st : MulticastGroup) : MulticastGroup :=
  let '(h, t) := insert_predicate p (sst st) in
  let st := set_sst t st in
  match l with
  | sender_handles =>
      set_sender_pred_handles (sender_pred_handles st ++ [h]) st
  | receiver_handles =>
      set_receiver_pred_handles (receiver_pred_handles st ++ [h]) st
  | stability_handles =>
      set_stability_pred_handles (stability_pred_handles st ++ [h]) st
  | delivery_handles =>
      set_delivery_pred_handles (delivery_pred_handles st ++ [h]) st
  end.

Definition register_one (cfg : GroupConfig) (subgroup_num : subgroup_id_t)
    (st : MulticastGroup) : option MulticastGroup :=
  _ ← subgroup_to_membership cfg !! subgroup_num;
  _ ← subgroup_to_num_received_offset cfg !! subgroup_num;
  '(_, shard_sender_index) ←
     subgroup_to_senders_and_sender_rank cfg !! subgroup_num;
  let st := register_predicate receiver_handles (ReceiverPred subgroup_num) st in
  mode ← subgroup_to_mode cfg !! subgroup_num;
  if decide (mode ≠ RAW) then
    _ ← get_shard_sst_indices cfg subgroup_num;
    let st := register_predicate stability_handles
                (StabilityPred subgroup_num) st in
    let st := register_predicate delivery_handles
                (DeliveryPred subgroup_num) st in
    if 0 <=? shard_sender_index then
      Some (register_predicate sender_handles (SenderPred subgroup_num) st)
    else Some st
  else
    if 0 <=? shard_sender_index then
      Some (register_predicate sender_handles (RawSenderPred subgroup_num) st)
    else Some st.

Fixpoint register_loop (cfg : GroupConfig) (subgroups : list subgroup_id_t)
    (st : MulticastGroup) : option MulticastGroup :=
  match subgroups with
  | [] => Some st
  | g :: rest => st ← register_one cfg g st; register_loop cfg rest st
  end.

(** The subgroups this node belongs to, in the order [std::map] iterates. *)
Definition my_subgroups (cfg : GroupConfig) : list subgroup_id_t :=
  filter (λ g, is_Some (subgroup_to_shard_and_rank cfg !! g))
    (seq 0 (S (foldr max 0%nat
                 (map_to_list (subgroup_to_shard_and_rank cfg)).*1))).

Definition register_predicates (cfg : GroupConfig) (st : MulticastGroup)
  : option MulticastGroup :=
  register_loop cfg (my_subgroups cfg) st.

(** ** compute_max_msg_size *)

Definition compute_max_msg_size (sizeof_hdr : Z) (max_payload_size : Z)
    (block_size : Z) : option Z :=
  let max_msg_size := wrap64 (max_payload_size + sizeof_hdr) in
  guard (block_size ≠ 0);;
  if decide (max_msg_size mod block_size ≠ 0) then
    Some (wrap64 ((max_msg_size / block_size + 1) * block_size))
  else Some max_msg_size.

(** ** send_loop *)

Definition should_send_to_subgroup (cfg : GroupConfig)
    (subgroup_num : subgroup_id_t) (st : MulticastGroup) : option bool :=
  if negb (rdmc_sst_groups_created st) then Some false
  else
    match pending_sends st subgroup_num with
    | [] => Some false
    | msg :: _ =>
        _ ← subgroup_to_shard_and_rank cfg !! subgroup_num;
        '(shard_senders, shard_sender_index) ←
           subgroup_to_senders_and_sender_rank cfg !! subgroup_num;
        let num_shard_senders := get_num_senders shard_senders in
        guard (0 <= shard_sender_index);;
        offset ← subgroup_to_num_received_offset cfg !! subgroup_num;
        if num_received (sst st) (member_index cfg)
             (offset + Z.to_nat shard_sender_index)%nat
           <? RDMCMessage.index msg - 1
        then Some false
        else
          shard_members ← subgroup_to_membership cfg !! subgroup_num;
          guard (1 <= length shard_members)%nat;;
          mode ← subgroup_to_mode cfg !! subgroup_num;
          if decide (mode ≠ RAW) then
            delivered_persisted_gate cfg subgroup_num
              (window_bound cfg (RDMCMessage.index msg) num_shard_senders
                 shard_sender_index) shard_members st
          else
            num_received_gate cfg subgroup_num shard_sender_index
              (future_message_indices st subgroup_num - 1 - window_size cfg)
              shard_members st
    end.

(** [should_send]: the round-robin scan; yields the subgroup chosen. *)
Fixpoint should_send_scan (cfg : GroupConfig) (candidates : list nat)
    (st : MulticastGroup) : option (option subgroup_id_t) :=
  match candidates with
  | [] => Some None
  | i :: rest =>
      let subgroup_num :=
        ((subgroup_to_send st + i) mod total_num_subgroups cfg)%nat in
      ok ← should_send_to_subgroup cfg subgroup_num st;
      if (ok : bool) then Some (Some subgroup_num)
      else should_send_scan cfg rest st
  end.

Definition should_send (cfg : GroupConfig) (st : MulticastGroup)
  : option (option subgroup_id_t) :=
  should_send_scan cfg (seq 1 (total_num_subgroups cfg)) st.

(** One turn of the sender thread's loop once its wait returns;
    [rdmc_send_ok] is what [rdmc::send] answers.  The second component
    tells whether the thread keeps running. *)
Definition send_loop_turn (cfg : GroupConfig) (rdmc_send_ok : bool)
    (st : MulticastGroup) : option (bool * MulticastGroup) :=
  if thread_shutdown st then Some (false, st)
  else
    chosen ← should_send cfg st;
    match chosen with
    | None => Some (true, st)
    | Some g =>
        let st := set_subgroup_to_send g st in
        msg ← head (pending_sends st g);
        let st := set_current_sends (<[g := Some msg]> (current_sends st)) st in
        let st := emit (EvRdmcSend g (RDMCMessage.size msg)) st in
        if rdmc_send_ok then
          Some (true, set_pending_sends
                        (<[g := tail (pending_sends st g)]> (pending_sends st))
                        st)
        else
          let moved_from := RDMCMessage.Build (RDMCMessage.sender_id msg)
                              (RDMCMessage.index msg) (RDMCMessage.size msg)
                              None in
          Some (false, set_pending_sends
                         (<[g := moved_from :: tail (pending_sends st g)]>
                            (pending_sends st)) st)
    end.

(** ** create_state_file *)

Inductive outcome :=
| Exit (code : Z)
| Uncaught.

(** [main] of create_state_file.  [parse_view] and [persist_object] are
    defined outside the sources at hand; each either returns or throws,
    and what they do is a parameter. *)
Definition create_state_file_main {View : Type}
    (parse_view : list Byte.byte -> option View)
    (persist_object : View -> list Byte.byte -> option unit)
    (argc : Z) (argv : list (list Byte.byte)) (stdin : list Byte.byte)
  : option outcome :=
  if argc <? 2 then Some (Exit 1)
  else
    view_file_name ← argv !! 1%nat;
    match parse_view stdin with
    | None => Some Uncaught
    | Some view =>
        match persist_object view view_file_name with
        | None => Some Uncaught
        | Some _ => Some (Exit 0)
        end
    end.

(** ** The constructor *)

(** RDMC is external: what [rdmc::create_group] answers and how many
    groups exist when [create_rdmc_sst_groups] returns are inputs. *)
Definition create_rdmc_sst_groups (rdmc_ok : bool) (groups : nat)
    (st : MulticastGroup) : bool * MulticastGroup :=
  (rdmc_ok, set_rdmc_group_num_offset (rdmc_group_num_offset st + groups)%nat st).

(** [while(pool.size() < n) pool.emplace_back(max_msg_size)]; the fresh
    buffers get the addresses from [addr] on. *)
Definition grow_pool (n : nat) (addr : nat) (pool : list (option MessageBuffer))
  : list (option MessageBuffer) :=
  pool ++ map (λ a, Some (Build_MessageBuffer a (Build_header 0 0 0 false)))
              (seq addr (n - length pool)).

Fixpoint allocate_pools (cfg : GroupConfig) (subgroups : list subgroup_id_t)
    (addr : nat) (pools : subgroup_id_t -> list (option MessageBuffer))
  : option (subgroup_id_t -> list (option MessageBuffer)) :=
  match subgroups with
  | [] => Some pools
  | g :: rest =>
      shard_members ← subgroup_to_membership cfg !! g;
      let n := (Z.to_nat (window_size cfg) * length shard_members)%nat in
      allocate_pools cfg rest (addr + n)%nat
        (<[g := grow_pool n addr (pools g)]> pools)
  end.

(** The state the member initialisers leave: empty queues, zero indices. *)
Definition member_initializers (table : DerechoSST)
    (pools : subgroup_id_t -> list (option MessageBuffer)) : MulticastGroup :=
  Build_MulticastGroup table pools (λ _, ∅) (λ _, ∅) (λ _, ∅)
    (λ _, ∅) ∅ (λ _, None) (λ _, None) (λ _, []) (λ _, 0) (λ _, 0)
    (λ _, false) false false 0 [] [] [] [] 0%nat [].

Definition MulticastGroup_new (cfg : GroupConfig) (table : DerechoSST)
    (already_failed : list bool) (rdmc_ok : bool) (groups : nat)
  : option MulticastGroup :=
  guard (1 <= window_size cfg);;
  pools ← allocate_pools cfg (my_subgroups cfg) 0 (λ _, []);
  let st := initialize_sst_row cfg (member_initializers table pools) in
  let no_member_failed :=
    forallb negb (take (num_members cfg) already_failed) in
  let st :=
    if (length already_failed =? 0)%nat || no_member_failed then
      let '(created, st) := create_rdmc_sst_groups rdmc_ok groups st in
      set_rdmc_sst_groups_created created st
    else st in
  register_predicates cfg st.

(** ** The predicate loop and the group's environment *)

Definition run_pred (cfg : GroupConfig) (p : Pred) (st : MulticastGroup)
  : option bool :=
  match p with
  | ReceiverPred g => receiver_pred cfg g st
  | StabilityPred _ => Some true
  | DeliveryPred _ => Some true
  | SenderPred g => sender_pred cfg g st
  | RawSenderPred g => raw_sender_pred cfg g st
  | ForeignPred => Some false
  end.

Definition run_trig (cfg : GroupConfig) (p : Pred) (st : MulticastGroup)
  : option MulticastGroup :=
  match p with
  | ReceiverPred g => receiver_trig cfg g st
  | StabilityPred g => stability_trig cfg g st
  | DeliveryPred g => delivery_trig cfg g st
  | SenderPred g => Some (sender_trig g st)
  | RawSenderPred _ => Some (raw_sender_trig st)
  | ForeignPred => Some st
  end.

(** The transport hands a sender's messages over in index order: every
    slot the receiver trigger consumes carries an index beyond the
    receive counter of its sender. *)
Fixpoint slots_in_order (cfg : GroupConfig) (subgroup_num : subgroup_id_t)
    (senders : list nat) (st : MulticastGroup) : Prop :=
  match senders with
  | [] => True
  | j :: rest =>
      match next_slot cfg subgroup_num j st,
            subgroup_to_num_received_offset cfg !! subgroup_num with
      | Some (p, n), Some offset =>
          if slot_ready cfg st p n then
            num_received (sst st) (member_index cfg) (offset + j)%nat
              < h_index (slot_buf (slots (sst st) p.1 p.2))
            ∧ match receiver_trig_body cfg subgroup_num j st with
              | Some st' => slots_in_order cfg subgroup_num rest st'
              | None => True
              end
          else slots_in_order cfg subgroup_num rest st
      | _, _ => True
      end
  end.

Definition trigger_in_order (cfg : GroupConfig) (p : Pred)
    (st : MulticastGroup) : Prop :=
  match p with
  | ReceiverPred g =>
      match shard_num_senders cfg g with
      | Some n =>
          slots_in_order cfg g
            (mjoin (replicate (Z.to_nat (num_times cfg)) (seq 0 (Z.to_nat n))))
            st
      | None => True
      end
  | _ => True
  end.

(** The message a bulk completion is about: the sender's own current
    send, or the pending receive stored under the completed sequence
    number. *)
Definition completed_message (cfg : GroupConfig) (subgroup_num : subgroup_id_t)
    (shard_rank : nat) (h : header) (st : MulticastGroup)
  : option RDMCMessage.t :=
  ctx ← sender_context_of cfg subgroup_num shard_rank;
  me ← members cfg !! member_index cfg;
  if decide (sc_node_id ctx = me) then current_sends st subgroup_num
  else current_receives st
         !! (subgroup_num,
             h_index h * sc_num_shard_senders ctx + sc_sender_rank ctx).

(** RDMC's side of a completion: [data] is the buffer of the completed
    message, and completions of one sender come in index order. *)
Definition completion_in_order (cfg : GroupConfig)
    (subgroup_num : subgroup_id_t) (shard_rank : nat) (h : header)
    (st : MulticastGroup) : Prop :=
  ∃ ctx msg mb,
    sender_context_of cfg subgroup_num shard_rank = Some ctx
    ∧ completed_message cfg subgroup_num shard_rank h st = Some msg
    ∧ RDMCMessage.message_buffer msg = Some mb
    ∧ buffer_header mb = h
    ∧ num_received (sst st) (member_index cfg)
        (sc_num_received_offset ctx + Z.to_nat (sc_sender_rank ctx))%nat
      < h_index h.

(** Remote members write their own rows only. *)
Definition remote_update (me : nat) (t t' : DerechoSST) : Prop :=
  (∀ g, seq_num t' me g = seq_num t me g)
  ∧ (∀ g, stable_num t' me g = stable_num t me g)
  ∧ (∀ g, delivered_num t' me g = delivered_num t me g)
  ∧ (∀ g, persisted_num t' me g = persisted_num t me g)
  ∧ (∀ e, num_received t' me e = num_received t me e)
  ∧ (∀ e, num_received_sst t' me e = num_received_sst t me e)
  ∧ predicates t' = predicates t.

(** An incoming bulk transfer fills the buffer of its pending receive. *)
Definition fill_receive (key : subgroup_id_t * Z) (h : header)
    (st : MulticastGroup) : option MulticastGroup :=
  msg ← current_receives st !! key;
  mb ← RDMCMessage.message_buffer msg;
  let msg := RDMCMessage.Build (RDMCMessage.sender_id msg)
               (RDMCMessage.index msg) (RDMCMessage.size msg)
               (Some (Build_MessageBuffer (buffer mb) h)) in
  Some (set_current_receives (<[key := msg]> (current_receives st)) st).

(** Everything that can happen to a group between its construction and
    its replacement at a view change. *)
Inductive step (cfg : GroupConfig) : MulticastGroup -> MulticastGroup -> Prop :=
| step_get_sendbuffer_ptr g payload medium pause cooked null slot st r st' :
    get_sendbuffer_ptr cfg g payload medium pause cooked null slot st
      = Some (r, st') ->
    step cfg st st'
| step_send g st b st' :
    send g st = Some (b, st') -> step cfg st st'
| step_send_loop ok st b st' :
    send_loop_turn cfg ok st = Some (b, st') -> step cfg st st'
| step_rdmc_incoming g shard_rank len st st' :
    rdmc_incoming_message cfg g shard_rank len st = Some st' ->
    step cfg st st'
| step_fill_receive key h st st' :
    fill_receive key h st = Some st' -> step cfg st st'
| step_rdmc_receive g shard_rank h st st' :
    completion_in_order cfg g shard_rank h st ->
    rdmc_receive_handler cfg g shard_rank h st = Some st' ->
    step cfg st st'
| step_predicate h p st st' :
    predicates (sst st) !! h = Some p ->
    run_pred cfg p st = Some true ->
    trigger_in_order cfg p st ->
    run_trig cfg p st = Some st' ->
    step cfg st st'
| step_file_written m st st' :
    make_file_written_callback cfg m st = Some st' -> step cfg st st'
| step_remote_update t' st :
    remote_update (member_index cfg) (sst st) t' ->
    step cfg st (set_sst t' st)
| step_wedge st :
    step cfg st (wedge cfg st).

Definition reachable (cfg : GroupConfig) (st : MulticastGroup) : Prop :=
  ∃ table already_failed rdmc_ok groups st0,
    (∀ h p, predicates table !! h = Some p -> p = ForeignPred)
    ∧ MulticastGroup_new cfg table already_failed rdmc_ok groups = Some st0
    ∧ rtc (step cfg) st0 st.

(** ** Well-formed configurations *)


(** ** Concrete groups used to exercise the model *)

(** An SST with nothing registered and zeroed columns. *)
Definition blank_sst : DerechoSST :=
  Build_DerechoSST (λ _ _, 0) (λ _ _, 0) (λ _ _, 0) (λ _ _, 0) (λ _ _, 0)
    (λ _ _, 0) (λ _ _, Build_Slot 0 0 (Build_header 0 0 0 false)) (λ _, 0) ∅.

(** Two nodes 0 and 1 forming one ordered subgroup in which both send;
    this is node 0, with a window of two messages. *)
Definition pair_config (persist : bool) : GroupConfig :=
  Build_GroupConfig [0; 1]%nat 0%nat 1024 2 1
    {[ 0%nat := (0%nat, 0%nat) ]}
    {[ 0%nat := ([1; 1], 0) ]}
    {[ 0%nat := 0%nat ]}
    {[ 0%nat := [0; 1]%nat ]}
    {[ 0%nat := ORDERED ]}
    persist 24 2 1.

(** Three nodes 0, 1, 2; the only subgroup has the shard {1, 2}, both of
    them senders; this is node 1 and persistence is on. *)
Definition trio_config : GroupConfig :=
  Build_GroupConfig [0; 1; 2]%nat 1%nat 1024 2 1
    {[ 0%nat := (0%nat, 0%nat) ]}
    {[ 0%nat := ([1; 1], 0) ]}
    {[ 0%nat := 0%nat ]}
    {[ 0%nat := [1; 2]%nat ]}
    {[ 0%nat := ORDERED ]}
    true 24 2 1.

Definition pair_start (persist : bool) : option MulticastGroup :=
  MulticastGroup_new (pair_config persist) blank_sst [] true 2.

Definition run_or_blank (r : option MulticastGroup) : MulticastGroup :=
  default (member_initializers blank_sst (λ _, [])) r.

(** This node, at [shard_rank] in the shard of subgroup 0, asks for a
    bulk buffer, sends, and its own completion comes back. *)
Definition own_send (cfg : GroupConfig) (shard_rank : nat) (payload_size : Z)
    (null_send : bool) (idx : Z) (st : MulticastGroup) : option MulticastGroup :=
  '(_, st) ← get_sendbuffer_ptr cfg 0 payload_size true 0 false null_send
               None st;
  '(_, st) ← send 0 st;
  '(_, st) ← send_loop_turn cfg true st;
  rdmc_receive_handler cfg 0 shard_rank (fill_header cfg idx 0 false) st.

(** A bulk message with index [idx] of the sender at [shard_rank] and
    sender rank [sender_rank], one of two senders, arrives. *)
Definition remote_receive (cfg : GroupConfig) (shard_rank : nat)
    (sender_rank : Z) (len idx : Z) (st : MulticastGroup)
  : option MulticastGroup :=
  st ← rdmc_incoming_message cfg 0 shard_rank len st;
  st ← fill_receive (0%nat, idx * 2 + sender_rank)
         (fill_header cfg idx 0 false) st;
  rdmc_receive_handler cfg 0 shard_rank (fill_header cfg idx 0 false) st.

(** The member in SST row [row] publishes that it has received, found
    stable and delivered everything up to [n] in subgroup 0. *)
Definition peer_at (row : nat) (n : Z) (st : MulticastGroup) : MulticastGroup :=
  let t := sst st in
  let t := set_seq_num (set2 (seq_num t) row 0 n) t in
  let t := set_stable_num (set2 (stable_num t) row 0 n) t in
  let t := set_delivered_num (set2 (delivered_num t) row 0 n) t in
  set_sst t st.

(** Node 1 of the trio sends one message of 8 payload bytes, which
    becomes stable and is delivered. *)
Definition trio_delivered : option MulticastGroup :=
  st ← MulticastGroup_new trio_config blank_sst [] true 2;
  st ← own_send trio_config 0 8 false 0 st;
  st ← stability_trig trio_config 0 (peer_at 2 0 st);
  delivery_trig trio_config 0 st.

(** The writer's report for that message. *)
Definition trio_written : persistence_message :=
  Build_persistence_message 0 32 0 1 0 false.

(** Node 0 of the pair, without persistence, has received indices 0 and 1
    of both senders; nothing is stable yet. *)
Definition pair_received : option MulticastGroup :=
  let cfg := pair_config false in
  st ← pair_start false;
  st ← own_send cfg 0 8 false 0 st;
  st ← remote_receive cfg 1 1 32 0 st;
  st ← own_send cfg 0 8 false 1 st;
  remote_receive cfg 1 1 32 1 st.

(** The calls of [get_sendbuffer_ptr] that meet its preconditions: the
    subgroup is one of this node's, the node sends in it, and every shard
    member has a row in the SST. *)
Definition sendable (cfg : GroupConfig) (subgroup_num : subgroup_id_t) : Prop :=
  is_Some (subgroup_to_shard_and_rank cfg !! subgroup_num)
  ∧ is_Some (subgroup_to_mode cfg !! subgroup_num)
  ∧ is_Some (subgroup_to_num_received_offset cfg !! subgroup_num)
  ∧ ∃ shard_members shard_senders shard_sender_index,
      subgroup_to_membership cfg !! subgroup_num = Some shard_members
      ∧ subgroup_to_senders_and_sender_rank cfg !! subgroup_num
        = Some (shard_senders, shard_sender_index)
      ∧ 0 <= shard_sender_index
      ∧ ∀ m, m ∈ shard_members -> is_Some (node_id_to_sst_index cfg !! m).


(** Node 0 of the pair, with persistence: it has sent its messages 0 and
    1, node 1 has published that it delivered sequence number 0, and this
    node has found its message 0 stable and delivered it.  The writer has
    not reported yet. *)
Definition pair_third_send : option MulticastGroup :=
  let cfg := pair_config true in
  st ← pair_start true;
  st ← own_send cfg 0 8 false 0 st;
  st ← own_send cfg 0 8 false 1 st;
  st ← stability_trig cfg 0 (peer_at 1 0 st);
  delivery_trig cfg 0 st.

(** ** Vocabulary of the properties *)

(** The control state: what only [wedge] may change. *)
Definition control (st : MulticastGroup) :=
  (thread_shutdown st, rdmc_sst_groups_created st, predicates (sst st),
   (sender_pred_handles st, receiver_pred_handles st,
    stability_pred_handles st, delivery_pred_handles st)).

Definition group_handles (st : MulticastGroup) : list pred_handle :=
  sender_pred_handles st ++ receiver_pred_handles st
  ++ stability_pred_handles st ++ delivery_pred_handles st.

Definition only_foreign (t : DerechoSST) : Prop :=
  ∀ h p, predicates t !! h = Some p -> p = ForeignPred.

(** A predicate of this group is about one of the node's subgroups. *)
Definition pred_mine (cfg : GroupConfig) (p : Pred) : Prop :=
  match p with
  | ForeignPred => True
  | ReceiverPred g | StabilityPred g | DeliveryPred g | SenderPred g
  | RawSenderPred g => is_Some (subgroup_to_shard_and_rank cfg !! g)
  end.

(** Every predicate of the group that the SST still holds is tracked by
    one of the four handle lists, and a wedged group holds none. *)
Definition registry_ok (cfg : GroupConfig) (st : MulticastGroup) : Prop :=
  (∀ h p, predicates (sst st) !! h = Some p -> p ≠ ForeignPred ->
          h ∈ group_handles st)
  ∧ (thread_shutdown st = true -> only_foreign (sst st))
  ∧ (∀ h p, predicates (sst st) !! h = Some p -> pred_mine cfg p)
  ∧ (thread_shutdown st = true -> group_handles st = []).

(** The exit code the specification gives: 1 on a usage error, 2 on an
    I/O error, 0 otherwise. *)
Definition claimed_exit_code (usage_error io_error : bool) : outcome :=
  if usage_error then Exit 1 else if io_error then Exit 2 else Exit 0.

(** *** The invariant of a running group *)










(** Two tables that agree on this node's own counters. *)
Definition same_rows (me : nat) (t t' : DerechoSST) : Prop :=
  (∀ g, seq_num t' me g = seq_num t me g)
  ∧ (∀ g, stable_num t' me g = stable_num t me g)
  ∧ (∀ g, delivered_num t' me g = delivered_num t me g)
  ∧ (∀ g, persisted_num t' me g = persisted_num t me g)
  ∧ (∀ e, num_received t' me e = num_received t me e).

(** The queues and messages in transit that the invariant reads. *)
Definition queues (st : MulticastGroup) :=
  (locally_stable_rdmc_messages st, locally_stable_sst_messages st,
   non_persistent_messages st, current_receives st,
   (current_sends st, next_sends st, pending_sends st)).


(** All four counters of every member's row at -1. *)
Definition counters_start (cfg : GroupConfig) (t : DerechoSST) : Prop :=
  ∀ r g, (r < num_members cfg)%nat -> (g < seq_num_size cfg)%nat ->
         seq_num t r g = -1 ∧ stable_num t r g = -1
         ∧ delivered_num t r g = -1 ∧ persisted_num t r g = -1.




(** *** Publication of a receive *)






(** *** The send gate *)

(** Every shard member's row has [col] at [bound] or beyond. *)
Definition gate_open (cfg : GroupConfig) (col : nat -> Z) (bound : Z)
    (shard_members : list node_id_t) : Prop :=
  ∀ m, m ∈ shard_members ->
       ∃ r, node_id_to_sst_index cfg !! m = Some r ∧ bound <= col r.

(** ** The constructor that takes over from the previous view's group *)

(** Iteration over a [std::map] goes by increasing key. *)
Definition key_le {A} (a b : Z * A) : Prop := a.1 <= b.1.

Global Instance key_le_dec {A} : RelDecision (@key_le A).
Proof. intros a b. unfold key_le. apply _. Defined.

Definition in_key_order {A} (m : gmap Z A) : list (Z * A) :=
  merge_sort key_le (map_to_list m).

Definition receive_key_le {A} (a b : subgroup_id_t * Z * A) : Prop :=
  (a.1.1 < b.1.1)%nat ∨ (a.1.1 = b.1.1 ∧ a.1.2 <= b.1.2).

Global Instance receive_key_le_dec {A} : RelDecision (@receive_key_le A).
Proof. intros a b. unfold receive_key_le. apply _. Defined.

Definition receives_in_key_order (m : gmap (subgroup_id_t * Z) RDMCMessage.t)
  : list (subgroup_id_t * Z * RDMCMessage.t) :=
  merge_sort receive_key_le (map_to_list m).

Definition push_free_buffer (subgroup_num : subgroup_id_t)
    (mb : option MessageBuffer) (st : MulticastGroup) : MulticastGroup :=
  set_free_message_buffers
    (<[subgroup_num := free_message_buffers st subgroup_num ++ [mb]]>
       (free_message_buffers st)) st.

Definition push_pending_send (subgroup_num : subgroup_id_t)
    (msg : RDMCMessage.t) (st : MulticastGroup) : MulticastGroup :=
  set_pending_sends
    (<[subgroup_num := pending_sends st subgroup_num ++ [msg]]>
       (pending_sends st)) st.

(** [convert_msg]: the message gets this node as its sender and the next
    index of the new group; the header in its buffer is read for the
    turns to skip and left as it is. *)
Definition convert_msg (cfg : GroupConfig) (msg : RDMCMessage.t)
    (subgroup_num : subgroup_id_t) (st : MulticastGroup)
  : option (RDMCMessage.t * MulticastGroup) :=
  me ← members cfg !! member_index cfg;
  let idx := future_message_indices st subgroup_num in
  let st := set_future_message_indices
              (<[subgroup_num := idx + 1]> (future_message_indices st)) st in
  mb ← RDMCMessage.message_buffer msg;
  let st := set_future_message_indices
              (<[subgroup_num := future_message_indices st subgroup_num
                                 + pause_sending_turns (buffer_header mb)]>
                 (future_message_indices st)) st in
  Some (RDMCMessage.Build me idx (RDMCMessage.size msg) (Some mb), st).

(** [convert_sst_msg]; the header is in the slot of the old table that
    the message points to. *)
Definition convert_sst_msg (cfg : GroupConfig) (old_table : DerechoSST)
    (msg : SSTMessage.t) (subgroup_num : subgroup_id_t) (st : MulticastGroup)
  : option (SSTMessage.t * MulticastGroup) :=
  me ← members cfg !! member_index cfg;
  let idx := future_message_indices st subgroup_num in
  let st := set_future_message_indices
              (<[subgroup_num := idx + 1]> (future_message_indices st)) st in
  p ← SSTMessage.buf msg;
  let h := slot_buf (slots old_table p.1 p.2) in
  let st := set_future_message_indices
              (<[subgroup_num := future_message_indices st subgroup_num
                                 + pause_sending_turns h]>
                 (future_message_indices st)) st in
  Some (SSTMessage.Build me idx (SSTMessage.size msg) (Some p), st).

(** The second pool loop: each pool is swapped for the old group's and
    topped up. *)
Fixpoint reclaim_pools (cfg : GroupConfig) (old_window_size : Z)
    (subgroups : list subgroup_id_t) (addr : nat)
    (old_pools pools : subgroup_id_t -> list (option MessageBuffer))
  : option (subgroup_id_t -> list (option MessageBuffer)) :=
  match subgroups with
  | [] => Some pools
  | g :: rest =>
      shard_members ← subgroup_to_membership cfg !! g;
      let n := (Z.to_nat old_window_size * length shard_members)%nat in
      reclaim_pools cfg old_window_size rest (addr + n)%nat old_pools
        (<[g := grow_pool n addr (old_pools g)]> pools)
  end.

(** The buffers of the receives in progress go back to the pools. *)
Definition reclaim_receives
    (receives : gmap (subgroup_id_t * Z) RDMCMessage.t) (st : MulticastGroup)
  : MulticastGroup :=
  foldl (λ st e, push_free_buffer e.1.1 (RDMCMessage.message_buffer e.2) st)
        st (receives_in_key_order receives).

(** Locally stable messages of the old group: this node's own are queued
    for sending again, the others give their buffers back. *)
Fixpoint requeue_stable_messages (cfg : GroupConfig) (g : subgroup_id_t)
    (entries : list (Z * RDMCMessage.t)) (st : MulticastGroup)
  : option MulticastGroup :=
  match entries with
  | [] => Some st
  | (_, msg) :: rest =>
      me ← members cfg !! member_index cfg;
      st ← (if decide (RDMCMessage.sender_id msg = me) then
              guard (g < total_num_subgroups cfg)%nat;;
              '(msg, st) ← convert_msg cfg msg g st;
              Some (push_pending_send g msg st)
            else
              Some (push_free_buffer g (RDMCMessage.message_buffer msg) st));
      requeue_stable_messages cfg g rest st
  end.

(** The old group's map of locally stable messages is walked subgroup by
    subgroup; it holds entries for the old view's subgroup numbers only. *)
Fixpoint requeue_stable (cfg : GroupConfig) (old : MulticastGroup)
    (subgroups : list subgroup_id_t) (st : MulticastGroup)
  : option MulticastGroup :=
  match subgroups with
  | [] => Some st
  | g :: rest =>
      st ← requeue_stable_messages cfg g
             (in_key_order (locally_stable_rdmc_messages old g)) st;
      requeue_stable cfg old rest st
  end.

Fixpoint convert_pending (cfg : GroupConfig) (g : subgroup_id_t)
    (msgs : list RDMCMessage.t) (st : MulticastGroup) : option MulticastGroup :=
  match msgs with
  | [] => Some st
  | msg :: rest =>
      '(msg, st) ← convert_msg cfg msg g st;
      convert_pending cfg g rest (push_pending_send g msg st)
  end.

Fixpoint convert_unpersisted (cfg : GroupConfig) (g : subgroup_id_t)
    (entries : list (Z * RDMCMessage.t)) (st : MulticastGroup)
  : option MulticastGroup :=
  match entries with
  | [] => Some st
  | (k, msg) :: rest =>
      '(msg, st) ← convert_msg cfg msg g st;
      convert_unpersisted cfg g rest
        (set_non_persistent_messages
           (<[g := map_emplace k msg (non_persistent_messages st g)]>
              (non_persistent_messages st)) st)
  end.

Fixpoint convert_unpersisted_sst (cfg : GroupConfig) (old_table : DerechoSST)
    (g : subgroup_id_t) (entries : list (Z * SSTMessage.t))
    (st : MulticastGroup) : option MulticastGroup :=
  match entries with
  | [] => Some st
  | (k, msg) :: rest =>
      '(msg, st) ← convert_sst_msg cfg old_table msg g st;
      convert_unpersisted_sst cfg old_table g rest
        (set_non_persistent_sst_messages
           (<[g := map_emplace k msg (non_persistent_sst_messages st g)]>
              (non_persistent_sst_messages st)) st)
  end.

(** The loop over this node's subgroups that takes over what the old
    group was sending and what it had not yet persisted.  The two maps
    of unpersisted messages of the old group are cleared as a whole at
    the end of the first pass, so [unpersisted] and [unpersisted_sst] are
    what is left of them. *)
Fixpoint take_over_sends (cfg old_cfg : GroupConfig) (old : MulticastGroup)
    (subgroups : list subgroup_id_t)
    (unpersisted : subgroup_id_t -> gmap Z RDMCMessage.t)
    (unpersisted_sst : subgroup_id_t -> gmap Z SSTMessage.t)
    (st : MulticastGroup) : option MulticastGroup :=
  match subgroups with
  | [] => Some st
  | g :: rest =>
      let known := bool_decide (g < total_num_subgroups old_cfg)%nat in
      st ← (match current_sends old g with
            | Some msg =>
                if known then
                  '(msg, st) ← convert_msg cfg msg g st;
                  Some (push_pending_send g msg st)
                else Some st
            | None => Some st
            end);
      st ← (if known then convert_pending cfg g (pending_sends old g) st
            else Some st);
      st ← (match next_sends old g with
            | Some msg =>
                if known then
                  '(msg, st) ← convert_msg cfg msg g st;
                  Some (set_next_sends (<[g := Some msg]> (next_sends st)) st)
                else Some st
            | None => Some st
            end);
      st ← convert_unpersisted cfg g (in_key_order (unpersisted g)) st;
      st ← convert_unpersisted_sst cfg (sst old) g
             (in_key_order (unpersisted_sst g)) st;
      take_over_sends cfg old_cfg old rest (λ _, ∅) (λ _, ∅) st
  end.

(** The constants the new group copies from the old one. *)
Definition successor_of (old_cfg cfg : GroupConfig) : Prop :=
  max_msg_size cfg = max_msg_size old_cfg
  ∧ window_size cfg = window_size old_cfg
  ∧ file_writer cfg = file_writer old_cfg
  ∧ sizeof_header cfg = sizeof_header old_cfg.

(** The second constructor.  [addr] is the address the allocator gives
    next; the log of the process goes on where the old group left it. *)
Definition MulticastGroup_from (cfg : GroupConfig) (table : DerechoSST)
    (old_cfg : GroupConfig) (old_group : MulticastGroup) (addr : nat)
    (already_failed : list bool) (rdmc_ok : bool) (groups : nat)
  : option MulticastGroup :=
  guard (Z.of_nat (rdmc_group_num_offset old_group)
         <= wrap32 (65535 - Z.of_nat (num_members old_cfg)
                    - Z.of_nat (num_members cfg)));;
  let old := wedge old_cfg old_group in
  fresh_pools ← allocate_pools cfg (my_subgroups cfg) addr (λ _, []);
  let taken := foldr (λ g n, (n + length (fresh_pools g))%nat) 0%nat
                     (my_subgroups cfg) in
  pools ← reclaim_pools cfg (window_size old_cfg) (my_subgroups cfg)
             (addr + taken)%nat (free_message_buffers old) (λ _, []);
  let st := Build_MulticastGroup table pools (λ _, ∅) (λ _, ∅) (λ _, ∅)
              (λ _, ∅) ∅ (λ _, None) (λ _, None) (λ _, []) (λ _, 0) (λ _, 0)
              (λ _, false) false false
              (rdmc_group_num_offset old + num_members old_cfg)%nat
              [] [] [] [] 0%nat (log old) in
  let st := reclaim_receives (current_receives old) st in
  st ← requeue_stable cfg old (seq 0 (total_num_subgroups old_cfg)) st;
  st ← take_over_sends cfg old_cfg old (my_subgroups cfg)
         (non_persistent_messages old) (non_persistent_sst_messages old) st;
  let st := initialize_sst_row cfg st in
  let no_member_failed :=
    forallb negb (take (num_members cfg) already_failed) in
  let st :=
    if (length already_failed =? 0)%nat || no_member_failed then
      let '(created, st) := create_rdmc_sst_groups rdmc_ok groups st in
      set_rdmc_sst_groups_created created st
    else st in
  register_predicates cfg st.

(** The groups of all views: the first is built afresh, each later one
    takes over from its predecessor. *)
Inductive in_service : GroupConfig -> MulticastGroup -> Prop :=
| in_service_first cfg table already_failed rdmc_ok groups st0 :
    (∀ h p, predicates table !! h = Some p -> p = ForeignPred) ->
    MulticastGroup_new cfg table already_failed rdmc_ok groups = Some st0 ->
    in_service cfg st0
| in_service_next old_cfg old cfg table addr already_failed rdmc_ok groups st0 :
    in_service old_cfg old ->
    successor_of old_cfg cfg ->
    (∀ h p, predicates table !! h = Some p -> p = ForeignPred) ->
    MulticastGroup_from cfg table old_cfg old addr already_failed rdmc_ok groups
      = Some st0 ->
    in_service cfg st0
| in_service_step cfg st st' :
    in_service cfg st -> step cfg st st' -> in_service cfg st'.

(** What the take-over of the old group's messages leaves alone: the
    table, the control state, and the receive side of the new group. *)
Definition beside_take_over (st : MulticastGroup) :=
  (sst st, control st,
   (locally_stable_rdmc_messages st, locally_stable_sst_messages st,
    current_receives st, current_sends st)).

(** *** A take-over of the pair group *)

(** Node 2 joins the group of the pair but not its subgroup; this is
    node 0 in the next view. *)
Definition pair_joined_config : GroupConfig :=
  Build_GroupConfig [0; 1; 2]%nat 0%nat 1024 2 1
    {[ 0%nat := (0%nat, 0%nat) ]}
    {[ 0%nat := ([1; 1], 0) ]}
    {[ 0%nat := 0%nat ]}
    {[ 0%nat := [0; 1]%nat ]}
    {[ 0%nat := ORDERED ]}
    true 24 2 1.

(** The group of the next view, built from the old group while the
    writer still holds the old group's first message. *)
Definition pair_joined : option MulticastGroup :=
  old ← pair_third_send;
  MulticastGroup_from pair_joined_config blank_sst (pair_config true) old 4
    [] true 3.

(** The writer's report for the first message of node 0. *)
Definition pair_written : persistence_message :=
  Build_persistence_message 0 32 0 0 0 false.

(** The writer reports; then the stability trigger of the new group
    runs. *)
Definition pair_joined_reported : option MulticastGroup :=
  st ← pair_joined;
  make_file_written_callback pair_joined_config pair_written st.

Definition pair_joined_persisted : option MulticastGroup :=
  st ← pair_joined_reported;
  stability_trig pair_joined_config 0 st.

(** ** The member list handed to rdmc::create_group *)

(** The loop of [create_rdmc_sst_groups] that builds the "rotated"
    member vector of the sender at [shard_rank]: entry [k] is
    [shard_members[(shard_rank + k) % num_shard_members]]. *)
Definition rotated_shard_members (shard_members : list node_id_t)
    (shard_rank : nat) : list node_id_t :=
  let num_shard_members := length shard_members in
  map (λ k, default 0%nat
              (shard_members !! ((shard_rank + k) mod num_shard_members)%nat))
      (seq 0 num_shard_members).

(** Node 0 of the pair, with persistence, has asked for a bulk buffer of
    8 payload bytes and called [send]; the sender thread has not run. *)
Definition pair_queued : option MulticastGroup :=
  let cfg := pair_config true in
  st ← pair_start true;
  '(_, st) ← get_sendbuffer_ptr cfg 0 8 true 0 false false None st;
  '(_, st) ← send 0 st;
  Some st.

(** ** Vocabulary of the further properties *)



(** Between [st] and [st'] the message under [k] left its queue. *)
Definition taken (st st' : MulticastGroup) (g : subgroup_id_t) (k : Z)
  : Prop :=
  (is_Some (locally_stable_rdmc_messages st g !! k)
   ∧ locally_stable_rdmc_messages st' g !! k = None)
  ∨ (is_Some (locally_stable_sst_messages st g !! k)
     ∧ locally_stable_sst_messages st' g !! k = None).

(** Between two tables, this node's sequence numbers and receive counters
    did not go back. *)
Definition receive_advance (me : nat) (t t' : DerechoSST) : Prop :=
  (∀ g, seq_num t me g <= seq_num t' me g)
  ∧ (∀ e, num_received t me e <= num_received t' me e).
(** * Properties *)

(** ** Generic facts about the primitives *)

Lemma foldl_preserves {A B} (P : A -> Prop) (f : A -> B -> A) (l : list B) a :
  (∀ a b, P a -> P (f a b)) -> P a -> P (foldl f a l).
Proof.
  intros Hf. revert a. induction l as [|b l IH]; intros a Ha; simpl; auto.
Qed.

(** Tactic: split every hypothesis [... = Some _] built from binds and
    matches into its cases. *)
Ltac crush_opt :=
  repeat match goal with
         | H : (_ ≫= _) = Some _ |- _ =>
             apply bind_Some in H; destruct H as (? & ? & H); simpl in H
         | H : Some _ = Some _ |- _ => apply (inj Some) in H
         | H : (_, _) = (_, _) |- _ =>
             apply pair_equal_spec in H; destruct H
         | H : None = Some _ |- _ => discriminate H
         | H : context [match ?x with _ => _ end] |- _ =>
             match type of H with
             | _ = Some _ => destruct x eqn:?; simpl in H; try discriminate H
             end
         end; subst.

Lemma thread_shutdown_remove_predicates hs st :
  thread_shutdown (remove_predicates hs st) = thread_shutdown st.
Proof.
  unfold remove_predicates.
  apply (foldl_preserves (λ s, thread_shutdown s = thread_shutdown st)); auto.
Qed.

Lemma thread_shutdown_destroy_groups cfg st :
  thread_shutdown (destroy_groups cfg st) = thread_shutdown st.
Proof.
  unfold destroy_groups.
  apply (foldl_preserves (λ s, thread_shutdown s = thread_shutdown st)); auto.
Qed.

Lemma thread_shutdown_wedge cfg st : thread_shutdown (wedge cfg st) = true.
Proof.
  unfold wedge. destruct (thread_shutdown st) eqn:E; [done|].
  simpl. rewrite thread_shutdown_destroy_groups. simpl.
  rewrite thread_shutdown_remove_predicates. simpl.
  rewrite thread_shutdown_remove_predicates. simpl.
  rewrite thread_shutdown_remove_predicates. simpl.
  by rewrite thread_shutdown_remove_predicates.
Qed.

Lemma wedge_when_wedged cfg st : thread_shutdown st = true -> wedge cfg st = st.
Proof. intros H. unfold wedge. by rewrite H. Qed.

Ltac frame_auto H :=
  simpl in H; crush_opt; simpl;
  repeat (match goal with
          | |- context [match ?x with _ => _ end] => destruct x; simpl
          end);
  try reflexivity.

Lemma control_get_sendbuffer_ptr cfg g payload medium pause cooked null slot st r st' :
  get_sendbuffer_ptr cfg g payload medium pause cooked null slot st = Some (r, st') ->
  control st' = control st.
Proof.
  unfold get_sendbuffer_ptr. intros H. frame_auto H.
Qed.

Lemma control_send g st b st' : send g st = Some (b, st') -> control st' = control st.
Proof. unfold send. intros H. frame_auto H. Qed.

Lemma control_send_loop_turn cfg ok st b st' :
  send_loop_turn cfg ok st = Some (b, st') -> control st' = control st.
Proof. unfold send_loop_turn. intros H. frame_auto H. Qed.

Lemma control_rdmc_incoming_message cfg g shard_rank len st st' :
  rdmc_incoming_message cfg g shard_rank len st = Some st' ->
  control st' = control st.
Proof. unfold rdmc_incoming_message. intros H. frame_auto H. Qed.

Lemma control_fill_receive key h st st' :
  fill_receive key h st = Some st' -> control st' = control st.
Proof. unfold fill_receive. intros H. frame_auto H. Qed.

Lemma control_raw_deliver_one g nss sr i st st' :
  raw_deliver_one g nss sr i st = Some st' -> control st' = control st.
Proof. unfold raw_deliver_one. intros H. frame_auto H. Qed.

Lemma control_raw_deliver_loop g nss sr indices st st' :
  raw_deliver_loop g nss sr indices st = Some st' -> control st' = control st.
Proof.
  revert st. induction indices as [|i rest IH]; simpl; intros st H.
  - by injection H as <-.
  - apply bind_Some in H as (st1 & H1 & H).
    rewrite (IH _ H). eauto using control_raw_deliver_one.
Qed.

Lemma control_raw_deliver_new cfg g nss sr entry new st st' :
  raw_deliver_new cfg g nss sr entry new st = Some st' ->
  control st' = control st.
Proof.
  unfold raw_deliver_new. intros H.
  apply bind_Some in H as (mode & _ & H).
  destruct (decide _); [eauto using control_raw_deliver_loop|].
  by injection H as <-.
Qed.

Lemma control_publish_num_received cfg g ctx new st st' :
  publish_num_received cfg g ctx new st = Some st' -> control st' = control st.
Proof. unfold publish_num_received. intros H. frame_auto H. Qed.


Lemma control_rdmc_receive_handler cfg g shard_rank h st st' :
  rdmc_receive_handler cfg g shard_rank h st = Some st' ->
  control st' = control st.
Proof.
  unfold rdmc_receive_handler. intros H. crush_opt;
  match goal with
  | H1 : raw_deliver_new _ _ _ _ _ _ _ = Some _,
    H2 : publish_num_received _ _ _ _ _ = Some _ |- _ =>
      rewrite (control_publish_num_received _ _ _ _ _ _ H2),
              (control_raw_deliver_new _ _ _ _ _ _ _ _ H1)
  end; reflexivity.
Qed.

Lemma control_sst_receive_handler cfg g sr data size st st' :
  sst_receive_handler cfg g sr data size st = Some st' ->
  control st' = control st.
Proof.
  unfold sst_receive_handler. intros H. crush_opt. simpl.
  match goal with
  | H1 : raw_deliver_new _ _ _ _ _ _ _ = Some _ |- _ =>
      apply control_raw_deliver_new in H1; apply H1
  end.
Qed.

Lemma control_receiver_trig_body cfg g j st st' :
  receiver_trig_body cfg g j st = Some st' -> control st' = control st.
Proof.
  unfold receiver_trig_body. intros H. crush_opt; simpl; [|done].
  match goal with
  | H1 : sst_receive_handler _ _ _ _ _ _ = Some _ |- _ =>
      apply control_sst_receive_handler in H1; apply H1
  end.
Qed.

Lemma control_receiver_trig_loop cfg g senders st st' :
  receiver_trig_loop cfg g senders st = Some st' -> control st' = control st.
Proof.
  revert st. induction senders as [|j rest IH]; simpl; intros st H.
  - by injection H as <-.
  - apply bind_Some in H as (st1 & H1 & H).
    rewrite (IH _ H). eauto using control_receiver_trig_body.
Qed.

Lemma control_receiver_trig_publish cfg g st st' :
  receiver_trig_publish cfg g st = Some st' -> control st' = control st.
Proof. unfold receiver_trig_publish. intros H. frame_auto H. Qed.

Lemma control_receiver_trig cfg g st st' :
  receiver_trig cfg g st = Some st' -> control st' = control st.
Proof.
  unfold receiver_trig. intros H. crush_opt.
  match goal with
  | H1 : receiver_trig_loop _ _ _ _ = Some _,
    H2 : receiver_trig_publish _ _ _ = Some _ |- _ =>
      rewrite (control_receiver_trig_publish _ _ _ _ H2);
      apply (control_receiver_trig_loop _ _ _ _ _ H1)
  end.
Qed.

Lemma control_stability_trig cfg g st st' :
  stability_trig cfg g st = Some st' -> control st' = control st.
Proof. unfold stability_trig. intros H. frame_auto H. Qed.

Lemma control_deliver_message cfg msg g st st' :
  deliver_message cfg msg g st = Some st' -> control st' = control st.
Proof. unfold deliver_message, deliver_upcall. intros H. frame_auto H. Qed.

Lemma control_deliver_sst_message cfg msg g st st' :
  deliver_sst_message cfg msg g st = Some st' -> control st' = control st.
Proof. unfold deliver_sst_message, deliver_upcall. intros H. frame_auto H. Qed.

Lemma control_delivery_step cfg g k msg st st' :
  delivery_step cfg g k msg st = Some st' -> control st' = control st.
Proof.
  unfold delivery_step. intros H. crush_opt.
  - match goal with
    | H1 : deliver_message _ _ _ _ = Some _ |- _ =>
        apply control_deliver_message in H1; rewrite <- H1; reflexivity
    end.
  - match goal with
    | H1 : deliver_sst_message _ _ _ _ = Some _ |- _ =>
        apply control_deliver_sst_message in H1; rewrite <- H1; reflexivity
    end.
Qed.

Lemma control_delivery_loop fuel cfg g m u st u' st' :
  delivery_loop fuel cfg g m u st = Some (u', st') -> control st' = control st.
Proof.
  revert u st. induction fuel as [|fuel IH]; simpl; intros u st H.
  - crush_opt. reflexivity.
  - destruct (delivery_choice g m st) as [[k msg]|]; crush_opt; [|done].
    match goal with
    | H1 : delivery_step _ _ _ _ _ = Some _ |- _ =>
        rewrite (IH _ _ H); apply (control_delivery_step _ _ _ _ _ _ H1)
    end.
Qed.

Lemma control_delivery_trig cfg g st st' :
  delivery_trig cfg g st = Some st' -> control st' = control st.
Proof.
  unfold delivery_trig. intros H. crush_opt;
    match goal with
    | H1 : delivery_loop _ _ _ _ _ _ = Some _ |- _ =>
        apply control_delivery_loop in H1; rewrite <- H1; reflexivity
    end.
Qed.

Lemma control_make_file_written_callback cfg m st st' :
  make_file_written_callback cfg m st = Some st' -> control st' = control st.
Proof. unfold make_file_written_callback. intros H. frame_auto H. Qed.

Lemma control_run_trig cfg p st st' :
  run_trig cfg p st = Some st' -> control st' = control st.
Proof.
  destruct p; simpl; intros H;
    eauto using control_receiver_trig, control_stability_trig,
      control_delivery_trig; by injection H as <-.
Qed.

(** ** The wedged state is absorbing *)

Lemma step_control cfg st st' :
  step cfg st st' -> control st' = control st ∨ st' = wedge cfg st.
Proof.
  destruct 1 as [? ? ? ? ? ? ? st r st' H | g st b st' H | ok st b st' H
                 | ? ? ? st st' H | ? ? st st' H | ? ? ? st st' _ H
                 | ? p st st' _ _ _ H | m st st' H | t' st H | st];
    eauto using control_get_sendbuffer_ptr, control_send,
      control_send_loop_turn, control_rdmc_incoming_message,
      control_fill_receive, control_rdmc_receive_handler, control_run_trig,
      control_make_file_written_callback.
  left. unfold control. simpl. destruct H as (_ & _ & _ & _ & _ & _ & ->).
  reflexivity.
Qed.

Lemma step_keeps_wedged cfg st st' :
  step cfg st st' -> thread_shutdown st = true -> control st' = control st.
Proof.
  intros Hs Hw. destruct (step_control _ _ _ Hs) as [H | ->]; [done|].
  by rewrite wedge_when_wedged.
Qed.

Lemma steps_keep_wedged cfg st st' :
  rtc (step cfg) st st' -> thread_shutdown st = true -> control st' = control st.
Proof.
  induction 1 as [|st st1 st' Hs _ IH]; [done|]. intros Hw.
  pose proof (step_keeps_wedged _ _ _ Hs Hw) as H1.
  rewrite <- H1. apply IH.
  unfold control in H1. injection H1 as -> _. exact Hw.
Qed.

Lemma registry_ok_control cfg st st' :
  control st' = control st -> registry_ok cfg st -> registry_ok cfg st'.
Proof.
  unfold control, registry_ok, group_handles, only_foreign.
  intros [= -> _ -> -> -> -> ->]. done.
Qed.

Lemma predicates_remove_predicates hs st h p :
  predicates (sst (remove_predicates hs st)) !! h = Some p ->
  (h ∉ hs) ∧ predicates (sst st) !! h = Some p.
Proof.
  unfold remove_predicates. revert st.
  induction hs as [|h' hs IH]; simpl; intros st H.
  - split; [apply not_elem_of_nil | done].
  - apply IH in H as [Hn H]. simpl in H.
    apply lookup_delete_Some in H as [Hne H].
    split; [|done]. intros [->|Hin]%elem_of_cons; done.
Qed.

Lemma sst_destroy_groups cfg st : sst (destroy_groups cfg st) = sst st.
Proof.
  unfold destroy_groups.
  apply (foldl_preserves (λ s, sst s = sst st)); auto.
Qed.

Lemma sender_handles_remove_predicates hs st :
  sender_pred_handles (remove_predicates hs st) = sender_pred_handles st.
Proof.
  unfold remove_predicates.
  apply (foldl_preserves (λ s, sender_pred_handles s = _)); auto.
Qed.

Lemma receiver_handles_remove_predicates hs st :
  receiver_pred_handles (remove_predicates hs st) = receiver_pred_handles st.
Proof.
  unfold remove_predicates.
  apply (foldl_preserves (λ s, receiver_pred_handles s = _)); auto.
Qed.

Lemma stability_handles_remove_predicates hs st :
  stability_pred_handles (remove_predicates hs st) = stability_pred_handles st.
Proof.
  unfold remove_predicates.
  apply (foldl_preserves (λ s, stability_pred_handles s = _)); auto.
Qed.

Lemma delivery_handles_remove_predicates hs st :
  delivery_pred_handles (remove_predicates hs st) = delivery_pred_handles st.
Proof.
  unfold remove_predicates.
  apply (foldl_preserves (λ s, delivery_pred_handles s = _)); auto.
Qed.

Lemma handles_destroy_groups cfg st :
  sender_pred_handles (destroy_groups cfg st) = sender_pred_handles st
  ∧ receiver_pred_handles (destroy_groups cfg st) = receiver_pred_handles st
  ∧ stability_pred_handles (destroy_groups cfg st) = stability_pred_handles st
  ∧ delivery_pred_handles (destroy_groups cfg st) = delivery_pred_handles st.
Proof.
  unfold destroy_groups.
  apply (foldl_preserves
           (λ s, sender_pred_handles s = sender_pred_handles st
                 ∧ receiver_pred_handles s = receiver_pred_handles st
                 ∧ stability_pred_handles s = stability_pred_handles st
                 ∧ delivery_pred_handles s = delivery_pred_handles st)); auto.
Qed.

Ltac simpl_handles :=
  repeat (simpl in *;
          rewrite ?sender_handles_remove_predicates,
            ?receiver_handles_remove_predicates,
            ?stability_handles_remove_predicates,
            ?delivery_handles_remove_predicates, ?sst_destroy_groups in * ).

Lemma wedge_clears_registry cfg st :
  registry_ok cfg st -> only_foreign (sst (wedge cfg st)).
Proof.
  intros (Hc & Hw & _ & _). unfold wedge.
  destruct (thread_shutdown st) eqn:E; [auto|].
  intros h p. simpl_handles.
  intros (Hd & H)%predicates_remove_predicates. simpl_handles.
  apply predicates_remove_predicates in H as (Hs & H). simpl_handles.
  apply predicates_remove_predicates in H as (Hr & H). simpl_handles.
  apply predicates_remove_predicates in H as (Hse & H). simpl_handles.
  assert (p ≠ ForeignPred -> h ∈ group_handles st) as Hin by eauto.
  unfold group_handles in Hin. rewrite !elem_of_app in Hin.
  destruct p; try done; exfalso; destruct Hin as [?|[?|[?|?]]]; done.
Qed.

Lemma wedge_handles cfg st :
  thread_shutdown st = false -> group_handles (wedge cfg st) = [].
Proof.
  intros E. unfold wedge. rewrite E. unfold group_handles. simpl.
  match goal with
  | |- context [destroy_groups cfg ?s] =>
      destruct (handles_destroy_groups cfg s) as (E1 & E2 & E3 & E4)
  end.
  rewrite E1, E2, E3, E4. by simpl_handles.
Qed.

Lemma registry_ok_wedge cfg st :
  registry_ok cfg st -> registry_ok cfg (wedge cfg st).
Proof.
  intros Hok. split; [|split; [|split]].
  - intros h p H Hp. apply (wedge_clears_registry cfg) in H; done.
  - intros _. by apply wedge_clears_registry.
  - intros h p H. apply (wedge_clears_registry cfg) in H as ->; done.
  - intros _. destruct (thread_shutdown st) eqn:E.
    + rewrite wedge_when_wedged by done. by apply Hok.
    + by apply wedge_handles.
Qed.

Lemma registry_ok_step cfg st st' :
  step cfg st st' -> registry_ok cfg st -> registry_ok cfg st'.
Proof.
  intros Hs Hok. destruct (step_control _ _ _ Hs) as [H | ->].
  - by apply (registry_ok_control cfg st).
  - by apply registry_ok_wedge.
Qed.

Lemma registry_ok_steps cfg st st' :
  rtc (step cfg) st st' -> registry_ok cfg st -> registry_ok cfg st'.
Proof. induction 1; eauto using registry_ok_step. Qed.

(** *** Registration *)

Lemma registry_ok_insert cfg p st st' :
  let h := fresh (dom (predicates (sst st))) in
  predicates (sst st') = <[h := p]> (predicates (sst st)) ->
  thread_shutdown st' = false ->
  (∀ x, x ∈ group_handles st -> x ∈ group_handles st') ->
  h ∈ group_handles st' ->
  pred_mine cfg p ->
  registry_ok cfg st -> registry_ok cfg st'.
Proof.
  intros h Hp Hts Hsub Hh Hmine (Hc & _ & Hm & _). split; [|split; [|split]].
  - intros h' p'. rewrite Hp. intros [[<- <-]|[Hne H]]%lookup_insert_Some;
      eauto.
  - by rewrite Hts.
  - intros h' p'. rewrite Hp. intros [[<- <-]|[Hne H]]%lookup_insert_Some;
      eauto.
  - by rewrite Hts.
Qed.

Lemma thread_shutdown_register_predicate l p st :
  thread_shutdown (register_predicate l p st) = thread_shutdown st.
Proof. by destruct l. Qed.

Lemma registry_ok_register_predicate cfg l p st :
  thread_shutdown st = false ->
  pred_mine cfg p ->
  registry_ok cfg st ->
  registry_ok cfg (register_predicate l p st).
Proof.
  intros Hts Hp Hok.
  apply (registry_ok_insert cfg p st); auto;
    destruct l; auto; unfold group_handles; simpl; set_solver.
Qed.

Lemma registry_ok_register_one cfg g st st' :
  is_Some (subgroup_to_shard_and_rank cfg !! g) ->
  thread_shutdown st = false ->
  register_one cfg g st = Some st' ->
  registry_ok cfg st -> registry_ok cfg st' ∧ thread_shutdown st' = false.
Proof.
  intros Hg Hts H Hok. unfold register_one in H.
  crush_opt; (split;
    [ repeat apply registry_ok_register_predicate
    | ]; rewrite ?thread_shutdown_register_predicate; auto).
Qed.

Lemma registry_ok_register_loop cfg gs st st' :
  (∀ g, g ∈ gs -> is_Some (subgroup_to_shard_and_rank cfg !! g)) ->
  thread_shutdown st = false ->
  register_loop cfg gs st = Some st' ->
  registry_ok cfg st -> registry_ok cfg st'.
Proof.
  revert st. induction gs as [|g gs IH]; simpl; intros st Hgs Hts H Hok.
  - by injection H as <-.
  - apply bind_Some in H as (st1 & H1 & H).
    destruct (registry_ok_register_one cfg g st st1) as [Hok1 Hts1];
      [apply Hgs; left | done | done | done |].
    apply (IH st1); auto. intros g' Hg'. apply Hgs. by right.
Qed.

Lemma my_subgroups_mine cfg g :
  g ∈ my_subgroups cfg -> is_Some (subgroup_to_shard_and_rank cfg !! g).
Proof. unfold my_subgroups. by intros [H _]%list_elem_of_filter. Qed.

Lemma predicates_initialize_row cfg i t :
  predicates (initialize_row cfg i t) = predicates t.
Proof.
  unfold initialize_row.
  apply (foldl_preserves (λ s, predicates s = predicates t)); [auto|].
  apply (foldl_preserves (λ s, predicates s = predicates t)); auto.
Qed.

Lemma predicates_initialize_sst_row cfg st :
  predicates (sst (initialize_sst_row cfg st)) = predicates (sst st).
Proof.
  unfold initialize_sst_row. simpl.
  apply (foldl_preserves (λ s, predicates s = predicates (sst st))); [|done].
  intros t i <-. apply predicates_initialize_row.
Qed.

Lemma registry_ok_only_foreign cfg st :
  only_foreign (sst st) -> thread_shutdown st = false -> registry_ok cfg st.
Proof.
  intros Hf Hts. split; [|split; [|split]].
  - intros h p H Hp. by apply Hf in H.
  - done.
  - intros h p H. by rewrite (Hf _ _ H).
  - by rewrite Hts.
Qed.

Lemma registry_ok_new cfg table already_failed rdmc_ok groups st0 :
  only_foreign table ->
  MulticastGroup_new cfg table already_failed rdmc_ok groups = Some st0 ->
  registry_ok cfg st0.
Proof.
  intros Hf H. unfold MulticastGroup_new, register_predicates in H.
  crush_opt;
    (eapply registry_ok_register_loop;
     [ apply my_subgroups_mine | | eassumption | ]);
    try reflexivity;
    (apply registry_ok_only_foreign; [|reflexivity]); unfold only_foreign;
    simpl;
    rewrite ?predicates_initialize_sst_row;
    (match goal with
     | |- context [predicates (foldl ?f ?a ?l)] =>
         let E := fresh in
         assert (predicates (foldl f a l) = predicates table) as E
           by (apply (foldl_preserves (λ s, predicates s = predicates table));
               [intros t i <-; apply predicates_initialize_row | done]);
         rewrite E
     end); exact Hf.
Qed.

Lemma registry_ok_reachable cfg st : reachable cfg st -> registry_ok cfg st.
Proof.
  intros (table & af & ok & groups & st0 & Hf & Hnew & Hsteps).
  eauto using registry_ok_steps, registry_ok_new.
Qed.

(** ** Wedging *)

Lemma for_all_shard_rows_total idx ok ms :
  (∀ m, m ∈ ms -> is_Some (idx !! m)) ->
  is_Some (for_all_shard_rows idx ok ms).
Proof.
  induction ms as [|m ms IH]; simpl; intros H; [by eexists|].
  destruct (H m) as [r ->]; [by left|]. simpl.
  destruct (ok r); [|by eexists]. apply IH. intros m' Hm'. apply H. by right.
Qed.

Lemma get_sendbuffer_ptr_wedged cfg g payload medium pause cooked null slot st r st' :
  thread_shutdown st = true ->
  get_sendbuffer_ptr cfg g payload medium pause cooked null slot st
    = Some (r, st') ->
  r = None.
Proof.
  intros Hw H. unfold get_sendbuffer_ptr in H. rewrite Hw in H.
  crush_opt; reflexivity.
Qed.

Lemma get_sendbuffer_ptr_wedged_returns cfg g payload medium pause cooked null slot st :
  thread_shutdown st = true ->
  sendable cfg g ->
  ∃ st', get_sendbuffer_ptr cfg g payload medium pause cooked null slot st
         = Some (None, st').
Proof.
  intros Hw ([sr Hsr] & [mode Hmode] & [off Hoff] & ms & ss & ssi
             & Hms & Hss & Hssi & Hidx).
  unfold get_sendbuffer_ptr. rewrite Hw.
  destruct (negb (rdmc_sst_groups_created st)); [by eexists|].
  destruct (max_msg_size cfg <? _); [by eexists|].
  rewrite Hsr, Hms, Hss, Hmode. simpl.
  rewrite option_guard_True by done. simpl.
  destruct (decide (mode ≠ RAW)).
  - unfold delivered_gate.
    destruct (for_all_shard_rows_total (node_id_to_sst_index cfg)
                (λ r, negb (delivered_num (sst st) r g
                            <? window_bound cfg (future_message_indices st g)
                                 (get_num_senders ss) ssi)) ms Hidx)
      as [b ->].
    simpl. destruct b; by eexists.
  - unfold num_received_gate. destruct ms as [|m ms]; [by eexists|].
    rewrite Hoff. simpl.
    destruct (for_all_shard_rows_total (node_id_to_sst_index cfg)
                (λ r, negb (num_received (sst st) r (off + Z.to_nat ssi)%nat
                            <? future_message_indices st g - window_size cfg))
                (m :: ms) Hidx) as [b Hb].
    simpl in Hb. rewrite Hb. simpl. destruct b; by eexists.
Qed.

Lemma send_wedged g st : thread_shutdown st = true -> send g st = Some (false, st).
Proof. intros Hw. unfold send. by rewrite Hw. Qed.

Lemma wedged_after_wedge cfg st0 st :
  rtc (step cfg) (wedge cfg st0) st -> thread_shutdown st = true.
Proof.
  intros Hs. apply steps_keep_wedged in Hs; [|apply thread_shutdown_wedge].
  unfold control in Hs. injection Hs as -> _. apply thread_shutdown_wedge.
Qed.

(** C7 (wedged-group failure returns).  Let [wedge] be called on a group
    in any state reachable from its construction, and let the group then
    run on in any way.  In every state it reaches: [send] returns false
    and changes nothing; [get_sendbuffer_ptr] never hands out a buffer,
    and returns null for every call meeting its preconditions; the SST
    holds none of the group's predicates and the four handle lists are
    empty, so no receiver, stability, delivery or sender trigger can fire. *)
Theorem wedged_group_refuses cfg st0 st :
  reachable cfg st0 ->
  rtc (step cfg) (wedge cfg st0) st ->
  (∀ g, send g st = Some (false, st))
  ∧ (∀ g payload medium pause cooked null slot r st',
       get_sendbuffer_ptr cfg g payload medium pause cooked null slot st
         = Some (r, st') -> r = None)
  ∧ (∀ g payload medium pause cooked null slot,
       sendable cfg g ->
       ∃ st', get_sendbuffer_ptr cfg g payload medium pause cooked null slot st
              = Some (None, st'))
  ∧ only_foreign (sst st)
  ∧ group_handles st = []
  ∧ (∀ h p st', predicates (sst st) !! h = Some p ->
                run_pred cfg p st = Some true ->
                run_trig cfg p st = Some st' -> False).
Proof.
  intros Hr Hs.
  pose proof (wedged_after_wedge _ _ _ Hs) as Hw.
  assert (registry_ok cfg st) as Hok.
  { eapply registry_ok_steps; [exact Hs|].
    apply registry_ok_wedge, registry_ok_reachable, Hr. }
  assert (only_foreign (sst st)) as Hf by (by apply Hok).
  repeat split.
  - intros g. by apply send_wedged.
  - intros. by eapply get_sendbuffer_ptr_wedged.
  - intros. by apply get_sendbuffer_ptr_wedged_returns.
  - exact Hf.
  - by apply Hok.
  - intros h p st' Hp Hpred _. rewrite (Hf _ _ Hp) in Hpred. discriminate.
Qed.

(** C8 (wedge idempotence).  Once [wedge] has been called, calling it
    again, at once or in any state the group reaches afterwards, returns
    the state unchanged: no predicate is removed, no RDMC group destroyed,
    no notification sent (the log is part of the state). *)
Theorem wedge_reentry_is_noop cfg st0 st :
  rtc (step cfg) (wedge cfg st0) st -> wedge cfg st = st.
Proof.
  intros Hs. apply wedge_when_wedged. by eapply wedged_after_wedge.
Qed.

(** ** get_sendbuffer_ptr: the size of the message it prepares *)

Lemma get_sendbuffer_ptr_bulk_message cfg g payload medium pause cooked null slot st b st' :
  get_sendbuffer_ptr cfg g payload medium pause cooked null slot st
    = Some (Some (ptr_bulk b), st') ->
  ∃ msg mb,
    next_sends st' g = Some msg
    ∧ RDMCMessage.index msg = future_message_indices st g
    ∧ RDMCMessage.size msg = requested_msg_size cfg payload null
    ∧ RDMCMessage.message_buffer msg = Some mb
    ∧ members cfg !! member_index cfg = Some (RDMCMessage.sender_id msg)
    ∧ buffer mb = b
    ∧ buffer_header mb
      = fill_header cfg (future_message_indices st g) pause cooked.
Proof.
  intros H. unfold get_sendbuffer_ptr in H. crush_opt; try discriminate.
  all: match goal with H : ptr_bulk _ = ptr_bulk _ |- _ => injection H as <- end.
  all: simpl; rewrite fn_lookup_insert.
  all: eexists _, _; repeat split; eauto.
Qed.

Lemma get_sendbuffer_ptr_zero_payload_log cfg g medium pause cooked slot st r st' :
  get_sendbuffer_ptr cfg g 0 medium pause cooked false slot st = Some (r, st') ->
  log st' = log st.
Proof.
  intros H. unfold get_sendbuffer_ptr, requested_msg_size in H. simpl in H.
  rewrite Z.ltb_irrefl in H. crush_opt; reflexivity.
Qed.

(** C10 (zero payload size).  A call of [get_sendbuffer_ptr] with
    [payload_size = 0] and [null_send = false] requests a message of
    [max_msg_size] bytes; it is not turned down on account of its size
    (nothing is printed, whatever the call returns), and when it hands out
    a bulk buffer the message it prepares has size [max_msg_size].  With
    [null_send = true] the requested size is the header size, whatever
    the payload size. *)
Theorem zero_payload_requests_max_msg_size cfg g medium pause cooked slot st r st' :
  get_sendbuffer_ptr cfg g 0 medium pause cooked false slot st = Some (r, st') ->
  requested_msg_size cfg 0 false = max_msg_size cfg
  ∧ log st' = log st
  ∧ (∀ b, r = Some (ptr_bulk b) ->
          ∃ msg, next_sends st' g = Some msg
                 ∧ RDMCMessage.size msg = max_msg_size cfg)
  ∧ (∀ payload_size, requested_msg_size cfg payload_size true
                     = sizeof_header cfg).
Proof.
  intros H. repeat split.
  - by eapply get_sendbuffer_ptr_zero_payload_log.
  - intros b ->.
    destruct (get_sendbuffer_ptr_bulk_message _ _ _ _ _ _ _ _ _ _ _ H)
      as (msg & mb & Hn & _ & Hs & _).
    exists msg. split; [done|]. by rewrite Hs.
Qed.

Lemma zero_payload_requests_max_msg_size_witness :
  ∃ st',
    get_sendbuffer_ptr (pair_config true) 0 0 true 0 false false None
      (run_or_blank (pair_start true)) = Some (Some (ptr_bulk 3), st')
    ∧ ∃ msg, next_sends st' 0%nat = Some msg ∧ RDMCMessage.size msg = 1024.
Proof.
  eexists. split; [vm_compute; reflexivity|].
  eapply (zero_payload_requests_max_msg_size (pair_config true) 0%nat true 0
            false None (run_or_blank (pair_start true))).
  - vm_compute. reflexivity.
  - reflexivity.
Defined.

(** ** create_state_file *)

(** C9, as stated, fails when reading the view fails: [main] catches
    nothing, so the process ends on the uncaught exception and not with
    exit code 2. *)
Lemma create_state_file_no_exit_code_2 :
  let parse_view := (λ _, None) : list Byte.byte -> option unit in
  let persist_object := (λ _ _, Some tt) : unit -> list Byte.byte -> option unit in
  create_state_file_main parse_view persist_object 2
    [[Byte.x63]; [Byte.x66]] [] = Some Uncaught
  ∧ create_state_file_main parse_view persist_object 2
      [[Byte.x63]; [Byte.x66]] [] ≠ Some (claimed_exit_code false true).
Proof. split; [reflexivity | discriminate]. Qed.

(** C9 (CLI exit codes), amended.  With [argv] holding [argc] strings,
    [main] returns 1 when [argc < 2]; otherwise it returns 0 whenever
    [parse_view] and [persist_object] both return, and ends on an
    uncaught exception when either throws.  It never returns 2. *)
Theorem create_state_file_exit_codes {View} parse_view persist_object
    argc argv stdin :
  Z.of_nat (length argv) = argc ->
  (argc < 2 ->
   create_state_file_main (View:=View) parse_view persist_object argc argv stdin
     = Some (Exit 1))
  ∧ (2 <= argc ->
     ∃ view_file_name,
       argv !! 1%nat = Some view_file_name
       ∧ create_state_file_main parse_view persist_object argc argv stdin
         = Some (match parse_view stdin with
                 | Some view =>
                     match persist_object view view_file_name with
                     | Some _ => Exit 0
                     | None => Uncaught
                     end
                 | None => Uncaught
                 end))
  ∧ create_state_file_main parse_view persist_object argc argv stdin
    ≠ Some (Exit 2).
Proof.
  intros Hargv. unfold create_state_file_main.
  destruct (Z.ltb_spec argc 2) as [Hlt|Hge].
  - repeat split; [lia | discriminate].
  - destruct (argv !! 1%nat) as [name|] eqn:E.
    + simpl. repeat split; [lia| |].
      * intros _. exists name. split; [done|].
        destruct (parse_view stdin); [|done].
        by destruct (persist_object _ _).
      * destruct (parse_view stdin); [|discriminate].
        destruct (persist_object _ _); discriminate.
    + apply lookup_ge_None in E. lia.
Qed.

Lemma create_state_file_exit_codes_witness :
  create_state_file_main (λ _, Some tt) (λ _ _, Some tt) 2
    [[Byte.x63]; [Byte.x66]] [Byte.x30] ≠ Some (Exit 2).
Proof.
  apply (create_state_file_exit_codes (View:=unit) (λ _, Some tt)
           (λ _ _, Some tt) 2 [[Byte.x63]; [Byte.x66]] [Byte.x30]).
  reflexivity.
Defined.

(** ** Recomputing the sequence number *)

Lemma min_element_is_Some l : l ≠ [] -> is_Some (min_element l).
Proof.
  destruct l as [|x l]; [done|]. intros _. simpl.
  destruct (min_element l) as [[i y]|]; [|by eexists].
  destruct (y <? x); by eexists.
Qed.





(** ** Sender ranks *)

Lemma get_num_senders_nonneg ss : 0 <= get_num_senders ss.
Proof. unfold get_num_senders. lia. Qed.

Lemma get_num_senders_cons s ss :
  get_num_senders (s :: ss)
  = (if decide (s ≠ 0) then 1 else 0) + get_num_senders ss.
Proof.
  unfold get_num_senders. rewrite filter_cons.
  destruct (decide (s ≠ 0)); simpl; lia.
Qed.

(** The rank [deliver_message] derives from a sender's id is the rank its
    receive handler was built with, as long as no member is listed twice. *)
Lemma sender_rank_of_at ms ss r node :
  NoDup ms -> ms !! r = Some node ->
  sender_rank_of node ms ss = get_num_senders (take r ss).
Proof.
  revert ss r. induction ms as [|m ms IH]; intros ss r Hnd Hr; [done|].
  apply NoDup_cons in Hnd as [Hm Hnd]. simpl.
  destruct r as [|r]; simpl in Hr.
  - injection Hr as ->. by rewrite decide_True.
  - rewrite decide_False
      by (intros ->; apply Hm; eapply list_elem_of_lookup_2; eauto).
    rewrite (IH (tail ss) r) by done.
    destruct ss as [|s ss]; simpl.
    + rewrite take_nil. reflexivity.
    + by rewrite get_num_senders_cons.
Qed.

Lemma get_num_senders_take_lt ss r flag :
  ss !! r = Some flag -> flag ≠ 0 ->
  get_num_senders (take r ss) < get_num_senders ss.
Proof.
  revert r. induction ss as [|s ss IH]; intros r Hr Hf; [done|].
  destruct r as [|r]; simpl in *.
  - injection Hr as ->. rewrite get_num_senders_cons, decide_True by done.
    unfold get_num_senders at 1. simpl. pose proof (get_num_senders_nonneg ss).
    lia.
  - rewrite !get_num_senders_cons. specialize (IH _ Hr Hf). lia.
Qed.

Lemma sender_context_of_rank cfg g shard_rank ctx :
  sender_context_of cfg g shard_rank = Some ctx ->
  0 <= sc_sender_rank ctx < sc_num_shard_senders ctx
  ∧ subgroup_to_num_received_offset cfg !! g = Some (sc_num_received_offset ctx)
  ∧ ∃ ss ssi, subgroup_to_senders_and_sender_rank cfg !! g = Some (ss, ssi)
              ∧ sc_num_shard_senders ctx = get_num_senders ss.
Proof.
  unfold sender_context_of. intros H. crush_opt. simpl.
  repeat split; eauto using get_num_senders_nonneg, get_num_senders_take_lt.
Qed.

Lemma persist_sequence_number_context cfg g shard_rank ctx idx :
  (∀ ms, subgroup_to_membership cfg !! g = Some ms -> NoDup ms) ->
  sender_context_of cfg g shard_rank = Some ctx ->
  persist_sequence_number cfg g (sc_node_id ctx) idx
  = Some (idx * sc_num_shard_senders ctx + sc_sender_rank ctx).
Proof.
  intros Hnd H. unfold sender_context_of in H. crush_opt.
  unfold persist_sequence_number. simpl.
  match goal with
  | H : subgroup_to_membership cfg !! g = Some ?x |- _ =>
      pose proof (Hnd _ H)
  end.
  repeat match goal with H : _ !! g = Some _ |- _ => rewrite H; clear H end.
  simpl. f_equal. f_equal. apply sender_rank_of_at; eauto.
Qed.

(** ** Two-dimensional columns *)

Lemma set2_same {A} (col : nat -> nat -> A) i j v : set2 col i j v i j = v.
Proof. unfold set2. by rewrite !fn_lookup_insert. Qed.

Lemma set2_row {A} (col : nat -> nat -> A) i j v j' :
  j ≠ j' -> set2 col i j v i j' = col i j'.
Proof.
  intros H. unfold set2. by rewrite fn_lookup_insert, fn_lookup_insert_ne.
Qed.

Lemma set2_other {A} (col : nat -> nat -> A) i j v i' j' :
  i ≠ i' -> set2 col i j v i' j' = col i' j'.
Proof. intros H. unfold set2. by rewrite fn_lookup_insert_ne. Qed.

Lemma set2_cases {A} (col : nat -> nat -> A) i j v i' j' :
  set2 col i j v i' j' = if decide (i = i' ∧ j = j') then v else col i' j'.
Proof.
  destruct (decide (i = i' ∧ j = j')) as [[-> ->]|Hne].
  - apply set2_same.
  - destruct (decide (i = i')) as [->|]; [|by apply set2_other].
    apply set2_row. naive_solver.
Qed.

(** ** map_begin is the least entry *)

Lemma map_begin_foldr_spec {A} (l : list (Z * A)) k v :
  foldr (λ kv acc,
           match acc with
           | None => Some kv
           | Some kv' => if kv.1 <? kv'.1 then Some kv else Some kv'
           end) None l = Some (k, v) ->
  (k, v) ∈ l ∧ ∀ k' v', (k', v') ∈ l -> k <= k'.
Proof.
  revert k v. induction l as [|[k0 v0] l IH]; simpl; intros k v H; [done|].
  destruct (foldr _ None l) as [[k1 v1]|] eqn:E.
  - destruct (IH _ _ eq_refl) as [Hin Hmin]. simpl in H.
    destruct (Z.ltb_spec k0 k1); injection H as <- <-.
    + split; [by left|]. intros k' v' [[= -> ->]|Hin']%elem_of_cons; [lia|].
      specialize (Hmin _ _ Hin'). lia.
    + split; [by right|]. intros k' v' [[= -> ->]|Hin']%elem_of_cons; [lia|].
      eauto.
  - injection H as <- <-. destruct l as [|kv l].
    + split; [by left|]. by intros k' v' [[= -> ->]|?%elem_of_nil]%elem_of_cons.
    + simpl in E. destruct (foldr _ None l) as [kv'|]; [|done].
      by destruct (kv.1 <? kv'.1).
Qed.

Lemma map_begin_Some {A} (m : gmap Z A) k v :
  map_begin m = Some (k, v) ->
  m !! k = Some v ∧ ∀ k', is_Some (m !! k') -> k <= k'.
Proof.
  unfold map_begin. intros [Hin Hmin]%map_begin_foldr_spec. split.
  - by apply elem_of_map_to_list.
  - intros k' [v' Hv']. apply (Hmin k' v'). by apply elem_of_map_to_list.
Qed.

Lemma map_begin_None {A} (m : gmap Z A) : map_begin m = None -> m = ∅.
Proof.
  unfold map_begin. intros H. apply map_to_list_empty_iff.
  destruct (map_to_list m) as [|kv l]; [done|]. simpl in H.
  destruct (foldr _ None l) as [kv'|]; [|done].
  by destruct (kv.1 <? kv'.1).
Qed.

(** ** The invariant of a running group *)

Lemma same_rows_refl me t : same_rows me t t.
Proof. by repeat split. Qed.





(** *** Steps that leave the counters and the queues alone *)


Lemma same_rows_trans me t1 t2 t3 :
  same_rows me t1 t2 -> same_rows me t2 t3 -> same_rows me t1 t3.
Proof.
  intros (A1 & A2 & A3 & A4 & A5) (B1 & B2 & B3 & B4 & B5).
  repeat split; intros; congruence.
Qed.

Lemma remove_predicates_proj {A} (f : MulticastGroup -> A) hs st :
  (∀ s t, f (set_sst t s) = f s) -> f (remove_predicates hs st) = f st.
Proof.
  intros Hf. unfold remove_predicates.
  apply (foldl_preserves (λ s, f s = f st)); [|done].
  intros s h <-. apply Hf.
Qed.

Lemma destroy_groups_proj {A} (f : MulticastGroup -> A) cfg st :
  (∀ s e, f (emit e s) = f s) -> f (destroy_groups cfg st) = f st.
Proof.
  intros Hf. unfold destroy_groups.
  apply (foldl_preserves (λ s, f s = f st)); [|done].
  intros s h <-. apply Hf.
Qed.

Lemma same_rows_remove_predicates me hs st :
  same_rows me (sst st) (sst (remove_predicates hs st)).
Proof.
  unfold remove_predicates.
  apply (foldl_preserves (λ s, same_rows me (sst st) (sst s)));
    [|apply same_rows_refl].
  intros s h H. exact H.
Qed.

Lemma queues_wedge cfg st : queues (wedge cfg st) = queues st.
Proof.
  unfold wedge. destruct (thread_shutdown st); [done|].
  cbv zeta.
  repeat change (queues (emit ?e ?s)) with (queues s).
  rewrite (destroy_groups_proj queues) by done.
  change (queues (set_delivery_pred_handles [] ?s)) with (queues s).
  rewrite (remove_predicates_proj queues) by done.
  change (queues (set_stability_pred_handles [] ?s)) with (queues s).
  rewrite (remove_predicates_proj queues) by done.
  change (queues (set_receiver_pred_handles [] ?s)) with (queues s).
  rewrite (remove_predicates_proj queues) by done.
  change (queues (set_sender_pred_handles [] ?s)) with (queues s).
  by rewrite (remove_predicates_proj queues) by done.
Qed.

Lemma same_rows_wedge cfg st :
  same_rows (member_index cfg) (sst st) (sst (wedge cfg st)).
Proof.
  unfold wedge. destruct (thread_shutdown st); [apply same_rows_refl|].
  simpl. rewrite sst_destroy_groups. simpl.
  repeat (eapply same_rows_trans; [|apply same_rows_remove_predicates]; simpl).
  apply same_rows_refl.
Qed.



(** *** The sending side *)






(** *** Bulk transfers on their way in *)



(** *** This node's row *)

Lemma node_id_to_sst_index_from_notin i ms acc m :
  m ∉ ms -> node_id_to_sst_index_from i ms acc !! m = acc !! m.
Proof.
  revert i acc. induction ms as [|x ms IH]; simpl; intros i acc Hm; [done|].
  apply not_elem_of_cons in Hm as [Hne Hm].
  rewrite IH by done. by rewrite lookup_insert_ne.
Qed.

Lemma node_id_to_sst_index_from_in i ms acc m :
  NoDup ms -> m ∈ ms ->
  node_id_to_sst_index_from i ms acc !! m = Some (i + index_of ms m)%nat.
Proof.
  revert i acc. induction ms as [|x ms IH]; simpl; intros i acc Hnd Hm.
  - by apply elem_of_nil in Hm.
  - apply NoDup_cons in Hnd as [Hx Hnd].
    destruct (decide (x = m)) as [->|Hne].
    + rewrite node_id_to_sst_index_from_notin by done.
      rewrite lookup_insert_eq. f_equal. lia.
    + apply elem_of_cons in Hm as [->|Hm]; [done|].
      rewrite IH by done. f_equal. lia.
Qed.

Lemma index_of_lookup ms m : m ∈ ms -> ms !! index_of ms m = Some m.
Proof.
  induction ms as [|x ms IH]; simpl; intros Hm.
  - by apply elem_of_nil in Hm.
  - destruct (decide (x = m)) as [->|Hne]; [done|].
    apply elem_of_cons in Hm as [->|Hm]; [done|]. by apply IH.
Qed.




(** *** The minimum over the shard *)

Lemma min_loop_le idx col ms acc v :
  min_loop idx col ms acc = Some v ->
  v <= acc ∧ ∀ m r, m ∈ ms -> idx !! m = Some r -> v <= col r.
Proof.
  revert acc. induction ms as [|x ms IH]; simpl; intros acc H.
  - injection H as <-. split; [lia|]. by intros m r ?%elem_of_nil.
  - apply bind_Some in H as (r0 & Hr0 & H).
    apply IH in H as [Hacc Hall]. split.
    + destruct (Z.ltb_spec (col r0) acc); lia.
    + intros m r [->|Hm]%elem_of_cons Hr; [|eauto].
      rewrite Hr0 in Hr. injection Hr as <-.
      destruct (Z.ltb_spec (col r0) acc); lia.
Qed.

Lemma min_over_shard_le cfg col ms v :
  min_over_shard cfg col ms = Some v ->
  ∀ m r, m ∈ ms -> node_id_to_sst_index cfg !! m = Some r -> v <= col r.
Proof.
  unfold min_over_shard. intros H. crush_opt.
  eapply min_loop_le; eauto.
Qed.

(** The minimum is the value of one of the shard's rows. *)
Lemma min_loop_attained idx col ms acc v :
  min_loop idx col ms acc = Some v ->
  v = acc ∨ ∃ m r, m ∈ ms ∧ idx !! m = Some r ∧ v = col r.
Proof.
  revert acc. induction ms as [|x ms IH]; simpl; intros acc H.
  - injection H as <-. by left.
  - apply bind_Some in H as (r0 & Hr0 & H).
    apply IH in H as [->|(m & r & Hm & Hr & ->)].
    + destruct (col r0 <? acc); [right|by left].
      exists x, r0. repeat split; [by left|done].
    + right. exists m, r. repeat split; [by right|done].
Qed.


(** *** Stability, the sender triggers and the writer's callback *)






(** *** Delivery *)

Lemma delivery_choice_rdmc g m st k msg :
  delivery_choice g m st = Some (k, inl msg) ->
  locally_stable_rdmc_messages st g !! k = Some msg
  ∧ k <= m
  ∧ (∀ k', is_Some (locally_stable_rdmc_messages st g !! k') -> k <= k')
  ∧ (∀ k', is_Some (locally_stable_sst_messages st g !! k') -> k < k').
Proof.
  unfold delivery_choice.
  destruct (map_begin (locally_stable_rdmc_messages st g)) as [[k1 m1]|] eqn:E1;
    destruct (map_begin (locally_stable_sst_messages st g)) as [[k2 m2]|] eqn:E2;
    simpl; try done.
  - destruct (Z.ltb_spec k1 k2); simpl;
      [destruct (Z.leb_spec k1 m); simpl|];
      try (destruct ((k2 <? k1) && (k2 <=? m)); done).
    intros [= <- <-].
    apply map_begin_Some in E1 as [? ?]. apply map_begin_Some in E2 as [? Hmin].
    repeat split; auto. intros k' Hk'. specialize (Hmin _ Hk'). lia.
  - destruct (Z.ltb_spec k1 (2 ^ 63 - 1)); simpl;
      [destruct (Z.leb_spec k1 m); simpl|];
      try (destruct ((2 ^ 63 - 1 <? k1) && (2 ^ 63 - 1 <=? m)); done).
    intros [= <- <-].
    apply map_begin_Some in E1 as [? ?]. apply map_begin_None in E2.
    repeat split; auto. intros k' [? Hk']. by rewrite E2 in Hk'.
  - destruct ((2 ^ 63 - 1 <? k2) && (2 ^ 63 - 1 <=? m)); [done|].
    by destruct ((k2 <? 2 ^ 63 - 1) && (k2 <=? m)).
Qed.

Lemma delivery_choice_sst g m st k msg :
  delivery_choice g m st = Some (k, inr msg) ->
  locally_stable_sst_messages st g !! k = Some msg
  ∧ k <= m
  ∧ (∀ k', is_Some (locally_stable_sst_messages st g !! k') -> k <= k')
  ∧ (∀ k', is_Some (locally_stable_rdmc_messages st g !! k') -> k < k').
Proof.
  unfold delivery_choice.
  destruct (map_begin (locally_stable_rdmc_messages st g)) as [[k1 m1]|] eqn:E1;
    destruct (map_begin (locally_stable_sst_messages st g)) as [[k2 m2]|] eqn:E2;
    simpl; try done.
  - destruct ((k1 <? k2) && (k1 <=? m)); [done|].
    destruct (Z.ltb_spec k2 k1); simpl; [|done].
    destruct (Z.leb_spec k2 m); simpl; [|done].
    intros [= <- <-].
    apply map_begin_Some in E1 as [? Hmin]. apply map_begin_Some in E2 as [? ?].
    repeat split; auto. intros k' Hk'. specialize (Hmin _ Hk'). lia.
  - destruct ((k1 <? 2 ^ 63 - 1) && (k1 <=? m)); [done|].
    by destruct ((2 ^ 63 - 1 <? k1) && (2 ^ 63 - 1 <=? m)).
  - destruct ((2 ^ 63 - 1 <? k2) && (2 ^ 63 - 1 <=? m)); [done|].
    destruct (Z.ltb_spec k2 (2 ^ 63 - 1)); simpl; [|done].
    destruct (Z.leb_spec k2 m); simpl; [|done].
    intros [= <- <-].
    apply map_begin_Some in E2 as [? ?]. apply map_begin_None in E1.
    repeat split; auto. intros k' [? Hk']. by rewrite E1 in Hk'.
Qed.

Lemma deliver_message_effect cfg msg g st st' :
  deliver_message cfg msg g st = Some st' ->
  sst st' = sst st
  ∧ locally_stable_rdmc_messages st' = locally_stable_rdmc_messages st
  ∧ locally_stable_sst_messages st' = locally_stable_sst_messages st
  ∧ current_receives st' = current_receives st
  ∧ current_sends st' = current_sends st
  ∧ next_sends st' = next_sends st
  ∧ pending_sends st' = pending_sends st
  ∧ (non_persistent_messages st' = non_persistent_messages st
     ∨ 0 < RDMCMessage.size msg
       ∧ ∃ k, persist_sequence_number cfg g (RDMCMessage.sender_id msg)
                (RDMCMessage.index msg) = Some k
              ∧ non_persistent_messages st'
                = <[g := map_emplace k msg (non_persistent_messages st g)]>
                    (non_persistent_messages st)).
Proof.
  unfold deliver_message, deliver_upcall. intros H.
  destruct (Z.ltb_spec 0 (RDMCMessage.size msg)); crush_opt;
    try match goal with
        | |- context [cooked_send ?h] => destruct (cooked_send h)
        end;
    repeat split; try reflexivity; try (by left).
  all: right; split; [done|]; eexists; split; [eassumption|reflexivity].
Qed.

Lemma deliver_sst_message_effect cfg msg g st st' :
  deliver_sst_message cfg msg g st = Some st' ->
  sst st' = sst st
  ∧ locally_stable_rdmc_messages st' = locally_stable_rdmc_messages st
  ∧ locally_stable_sst_messages st' = locally_stable_sst_messages st
  ∧ current_receives st' = current_receives st
  ∧ current_sends st' = current_sends st
  ∧ next_sends st' = next_sends st
  ∧ pending_sends st' = pending_sends st
  ∧ non_persistent_messages st' = non_persistent_messages st.
Proof.
  unfold deliver_sst_message, deliver_upcall. intros H.
  crush_opt;
    try match goal with
        | |- context [cooked_send ?h] => destruct (cooked_send h)
        end;
    repeat split; reflexivity.
Qed.






(** The fuel [delivery_trig] gives its loop is never what stops it: each
    pass takes one message out of the queues. *)
Lemma delivery_step_size cfg g m k msg st st' :
  delivery_choice g m st = Some (k, msg) ->
  delivery_step cfg g k msg st = Some st' ->
  (size (locally_stable_rdmc_messages st g)
   + size (locally_stable_sst_messages st g)
   = S (size (locally_stable_rdmc_messages st' g)
        + size (locally_stable_sst_messages st' g)))%nat.
Proof.
  intros Hc H. unfold delivery_step in H. destruct msg as [msg|msg]; crush_opt.
  - apply delivery_choice_rdmc in Hc as (Hk & _).
    match goal with
    | H : deliver_message _ _ _ _ = Some _ |- _ =>
        apply deliver_message_effect in H as (_ & Er & Ess & _)
    end.
    simpl. rewrite Er, Ess, fn_lookup_insert.
    rewrite map_size_delete, Hk. simpl.
    pose proof (map_size_ne_0_lookup_2 _ _ (mk_is_Some _ _ Hk)). lia.
  - apply delivery_choice_sst in Hc as (Hk & _).
    match goal with
    | H : deliver_sst_message _ _ _ _ = Some _ |- _ =>
        apply deliver_sst_message_effect in H as (_ & Er & Ess & _)
    end.
    simpl. rewrite Er, Ess, fn_lookup_insert.
    rewrite map_size_delete, Hk. simpl.
    pose proof (map_size_ne_0_lookup_2 _ _ (mk_is_Some _ _ Hk)). lia.
Qed.

Lemma delivery_loop_fuel fuel cfg g m u st :
  (size (locally_stable_rdmc_messages st g)
   + size (locally_stable_sst_messages st g) <= fuel)%nat ->
  delivery_loop (S fuel) cfg g m u st = delivery_loop fuel cfg g m u st.
Proof.
  revert u st. induction fuel as [|fuel IH]; intros u st Hsz.
  - simpl. destruct (delivery_choice g m st) as [[k msg]|] eqn:Hc; [|done].
    exfalso. destruct msg as [msg|msg].
    + apply delivery_choice_rdmc in Hc as (Hk & _).
      pose proof (map_size_ne_0_lookup_2 _ _ (mk_is_Some _ _ Hk)). lia.
    + apply delivery_choice_sst in Hc as (Hk & _).
      pose proof (map_size_ne_0_lookup_2 _ _ (mk_is_Some _ _ Hk)). lia.
  - change (delivery_loop (S (S fuel)) cfg g m u st)
      with (match delivery_choice g m st with
            | None => Some (u, st)
            | Some (k, msg) =>
                st ← delivery_step cfg g k msg st;
                delivery_loop (S fuel) cfg g m true st
            end).
    change (delivery_loop (S fuel) cfg g m u st)
      with (match delivery_choice g m st with
            | None => Some (u, st)
            | Some (k, msg) =>
                st ← delivery_step cfg g k msg st;
                delivery_loop fuel cfg g m true st
            end).
    destruct (delivery_choice g m st) as [[k msg]|] eqn:Hc; [|done].
    destruct (delivery_step cfg g k msg st) as [st1|] eqn:H1; [|done].
    simpl. apply IH.
    pose proof (delivery_step_size _ _ _ _ _ _ _ Hc H1). lia.
Qed.

(** *** Receiving *)




(** **** The placeholders of skipped turns *)



(** **** RAW mode hands messages over at once *)









(** **** The slot path *)






(** *** Every step keeps the invariant *)



(** **** The freshly constructed group *)

Lemma initialize_row_received i n t :
  let t' := foldl (λ t j, set_num_received (set2 (num_received t) i j (-1)) t)
                  t (seq 0 n) in
  (∀ r e, num_received t' r e
          = if decide (r = i ∧ (e < n)%nat) then -1 else num_received t r e)
  ∧ seq_num t' = seq_num t ∧ stable_num t' = stable_num t
  ∧ delivered_num t' = delivered_num t ∧ persisted_num t' = persisted_num t.
Proof.
  induction n as [|n IH].
  - simpl. split; [|done]. intros r e. case_decide; [lia|done].
  - rewrite seq_S, foldl_app. simpl in *.
    destruct IH as (Hnr & -> & -> & -> & ->). split; [|done].
    intros r e. rewrite set2_cases, Hnr.
    repeat case_decide; try done; lia.
Qed.

Lemma initialize_row_counters i n t :
  let t' := foldl (λ t j,
                     let t := set_seq_num (set2 (seq_num t) i j (-1)) t in
                     let t := set_stable_num (set2 (stable_num t) i j (-1)) t in
                     let t := set_delivered_num
                                (set2 (delivered_num t) i j (-1)) t in
                     set_persisted_num (set2 (persisted_num t) i j (-1)) t)
                  t (seq 0 n) in
  (∀ r g, seq_num t' r g
          = if decide (r = i ∧ (g < n)%nat) then -1 else seq_num t r g)
  ∧ (∀ r g, stable_num t' r g
            = if decide (r = i ∧ (g < n)%nat) then -1 else stable_num t r g)
  ∧ (∀ r g, delivered_num t' r g
            = if decide (r = i ∧ (g < n)%nat) then -1 else delivered_num t r g)
  ∧ (∀ r g, persisted_num t' r g
            = if decide (r = i ∧ (g < n)%nat) then -1 else persisted_num t r g)
  ∧ num_received t' = num_received t.
Proof.
  induction n as [|n IH].
  - simpl. repeat split; intros r e; case_decide; done || lia.
  - rewrite seq_S, foldl_app. simpl in *.
    destruct IH as (H1 & H2 & H3 & H4 & ->).
    repeat split; intros r g; rewrite set2_cases;
      rewrite ?H1, ?H2, ?H3, ?H4; repeat case_decide; try done; lia.
Qed.

Lemma initialize_row_cells cfg i t :
  let t' := initialize_row cfg i t in
  (∀ r g, seq_num t' r g
          = if decide (r = i ∧ (g < seq_num_size cfg)%nat) then -1
            else seq_num t r g)
  ∧ (∀ r g, stable_num t' r g
            = if decide (r = i ∧ (g < seq_num_size cfg)%nat) then -1
              else stable_num t r g)
  ∧ (∀ r g, delivered_num t' r g
            = if decide (r = i ∧ (g < seq_num_size cfg)%nat) then -1
              else delivered_num t r g)
  ∧ (∀ r g, persisted_num t' r g
            = if decide (r = i ∧ (g < seq_num_size cfg)%nat) then -1
              else persisted_num t r g)
  ∧ (∀ r e, num_received t' r e
            = if decide (r = i ∧ (e < num_received_size cfg)%nat) then -1
              else num_received t r e).
Proof.
  unfold initialize_row.
  pose proof (initialize_row_received i (num_received_size cfg) t) as Ha.
  cbv zeta in *. destruct Ha as (Hnr & Hs & Hst & Hd & Hp).
  set (t1 := foldl _ t (seq 0 (num_received_size cfg))) in *.
  pose proof (initialize_row_counters i (seq_num_size cfg) t1) as Hb.
  cbv zeta in Hb. destruct Hb as (H1 & H2 & H3 & H4 & H5).
  repeat split; intros r g.
  - by rewrite H1, Hs.
  - by rewrite H2, Hst.
  - by rewrite H3, Hd.
  - by rewrite H4, Hp.
  - by rewrite H5, Hnr.
Qed.

(** After the rows below [n] are initialised, their cells hold -1. *)
Lemma initialize_rows_cells cfg n t :
  let t' := foldl (λ t i, initialize_row cfg i t) t (seq 0 n) in
  ∀ r, (r < n)%nat ->
       (∀ g, (g < seq_num_size cfg)%nat ->
             seq_num t' r g = -1 ∧ stable_num t' r g = -1
             ∧ delivered_num t' r g = -1 ∧ persisted_num t' r g = -1)
       ∧ (∀ e, (e < num_received_size cfg)%nat -> num_received t' r e = -1).
Proof.
  induction n as [|n IH]; [simpl; lia|].
  rewrite seq_S, foldl_app. simpl in *. intros r Hr.
  set (t1 := foldl _ t (seq 0 n)) in *.
  destruct (initialize_row_cells cfg n t1) as (H1 & H2 & H3 & H4 & H5).
  split.
  - intros g Hg. rewrite H1, H2, H3, H4.
    case_decide as Hc; [done|].
    assert (r < n)%nat as Hlt by lia. by apply (IH r Hlt).
  - intros e He. rewrite H5. case_decide as Hc; [done|].
    assert (r < n)%nat as Hlt by lia. by apply (IH r Hlt).
Qed.

Lemma register_predicate_rows me l p st :
  same_rows me (sst st) (sst (register_predicate l p st))
  ∧ queues (register_predicate l p st) = queues st.
Proof. by destruct l. Qed.

Lemma register_one_rows cfg g st st' :
  register_one cfg g st = Some st' ->
  (seq_num (sst st') = seq_num (sst st)
   ∧ stable_num (sst st') = stable_num (sst st)
   ∧ delivered_num (sst st') = delivered_num (sst st)
   ∧ persisted_num (sst st') = persisted_num (sst st)
   ∧ num_received (sst st') = num_received (sst st))
  ∧ queues st' = queues st.
Proof. unfold register_one. intros H. by crush_opt. Qed.

Lemma register_loop_rows cfg subgroups st st' :
  register_loop cfg subgroups st = Some st' ->
  (seq_num (sst st') = seq_num (sst st)
   ∧ stable_num (sst st') = stable_num (sst st)
   ∧ delivered_num (sst st') = delivered_num (sst st)
   ∧ persisted_num (sst st') = persisted_num (sst st)
   ∧ num_received (sst st') = num_received (sst st))
  ∧ queues st' = queues st.
Proof.
  revert st. induction subgroups as [|g rest IH]; simpl; intros st H.
  - by injection H as <-.
  - apply bind_Some in H as (st1 & H1 & H).
    destruct (IH _ H) as ((-> & -> & -> & -> & ->) & ->).
    by apply register_one_rows in H1.
Qed.

(** What the constructor leaves in the table and in the queues. *)
Lemma MulticastGroup_new_cells cfg table already_failed rdmc_ok groups st0 :
  MulticastGroup_new cfg table already_failed rdmc_ok groups = Some st0 ->
  (∀ r, (r < num_members cfg)%nat ->
        (∀ g, (g < seq_num_size cfg)%nat ->
              seq_num (sst st0) r g = -1 ∧ stable_num (sst st0) r g = -1
              ∧ delivered_num (sst st0) r g = -1
              ∧ persisted_num (sst st0) r g = -1)
        ∧ (∀ e, (e < num_received_size cfg)%nat ->
                num_received (sst st0) r e = -1))
  ∧ queues st0 = (λ _, ∅, λ _, ∅, λ _, ∅, ∅, (λ _, None, λ _, None, λ _, [])).
Proof.
  intros H. unfold MulticastGroup_new, register_predicates in H.
  apply bind_Some in H as (_ & _ & H).
  apply bind_Some in H as (pools & _ & H). cbv zeta in H.
  apply register_loop_rows in H as ((-> & -> & -> & -> & ->) & ->).
  split.
  - intros r Hr.
    destruct (orb _ _); apply (initialize_rows_cells cfg _ table r Hr).
  - by destruct (orb _ _).
Qed.

Lemma counters_start_new cfg table already_failed rdmc_ok groups st0 :
  MulticastGroup_new cfg table already_failed rdmc_ok groups = Some st0 ->
  counters_start cfg (sst st0).
Proof.
  intros H r g Hr Hg.
  by apply (MulticastGroup_new_cells _ _ _ _ _ _ H).
Qed.



(** **** Which operation writes which counter *)





















(** *** The pair group is well formed *)


Lemma reachable_new cfg table already_failed rdmc_ok groups st0 :
  only_foreign table ->
  MulticastGroup_new cfg table already_failed rdmc_ok groups = Some st0 ->
  reachable cfg st0.
Proof. intros Hf H. exists table, already_failed, rdmc_ok, groups, st0. done. Qed.

Lemma only_foreign_blank : only_foreign blank_sst.
Proof. intros h p H. done. Qed.

Lemma reachable_pair_start persist :
  reachable (pair_config persist) (run_or_blank (pair_start persist)).
Proof.
  apply (reachable_new _ blank_sst [] true 2); [apply only_foreign_blank|].
  by destruct persist; vm_compute.
Qed.

(** *** Concrete runs of the pair group *)

Lemma reachable_step cfg st st' :
  reachable cfg st -> step cfg st st' -> reachable cfg st'.
Proof.
  intros (table & af & ok & groups & st0 & Hf & Hnew & Hsteps) Hs.
  exists table, af, ok, groups, st0. repeat split; try done.
  eapply rtc_r; eauto.
Qed.

(** A peer's publication is a remote update. *)
Lemma step_peer_at cfg row n st :
  row ≠ member_index cfg -> step cfg st (peer_at row n st).
Proof.
  intros Hrow. apply (step_remote_update cfg (sst (peer_at row n st))).
  unfold peer_at. repeat split; intros; simpl; by rewrite ?set2_other by done.
Qed.

Ltac by_evaluation := vm_compute; reflexivity.

Ltac completion_by_evaluation :=
  eexists _, _, _; repeat (split; [by_evaluation|]); by_evaluation.

(** The state [s'] is one step of kind [rule] away from the state that
    [H] shows reachable. *)
Ltac then_step H s' rule :=
  apply (λ H, reachable_step _ _ s' H) in H;
  [|eapply rule; first [by_evaluation | completion_by_evaluation | exact I]].

(** The four steps of [own_send]. *)
Ltac own_send_steps H cfg payload null idx :=
  match type of H with
  | reachable _ ?s0 =>
      let s1 := constr:(run_or_blank
                          (snd <$> get_sendbuffer_ptr cfg 0 payload true 0 false
                                     null None s0)) in
      let s2 := constr:(run_or_blank (snd <$> send 0 s1)) in
      let s3 := constr:(run_or_blank (snd <$> send_loop_turn cfg true s2)) in
      let h := constr:(fill_header cfg idx 0 false) in
      let s4 := constr:(run_or_blank (rdmc_receive_handler cfg 0 0 h s3)) in
      then_step H s1
        (step_get_sendbuffer_ptr cfg 0%nat payload true 0 false null None);
      then_step H s2 (step_send cfg 0%nat);
      then_step H s3 (step_send_loop cfg true);
      then_step H s4 (step_rdmc_receive cfg 0%nat 0%nat h)
  end.

(** The peer publishes up to sequence number 0 and the stability trigger
    runs. *)
Ltac peer_and_stability_steps H cfg row :=
  match type of H with
  | reachable _ ?s =>
      apply (λ H, reachable_step _ _ (peer_at row 0 s) H) in H;
        [|apply step_peer_at; by vm_compute];
      then_step H (run_or_blank (stability_trig cfg 0 (peer_at row 0 s)))
        (step_predicate cfg 1%nat (StabilityPred 0))
  end.

Ltac delivery_step H cfg :=
  match type of H with
  | reachable _ ?s =>
      then_step H (run_or_blank (delivery_trig cfg 0 s))
        (step_predicate cfg 2%nat (DeliveryPred 0))
  end.

(** The three steps of [remote_receive]. *)
Ltac remote_receive_steps H cfg idx :=
  match type of H with
  | reachable _ ?s0 =>
      let s1 := constr:(run_or_blank (rdmc_incoming_message cfg 0 1 32 s0)) in
      let h := constr:(fill_header cfg idx 0 false) in
      let s2 := constr:(run_or_blank (fill_receive (0%nat, idx * 2 + 1) h s1)) in
      let s3 := constr:(run_or_blank (rdmc_receive_handler cfg 0 1 h s2)) in
      then_step H s1 (step_rdmc_incoming cfg 0%nat 1%nat 32);
      then_step H s2 (step_fill_receive cfg (0%nat, idx * 2 + 1) h);
      then_step H s3 (step_rdmc_receive cfg 0%nat 1%nat h)
  end.

Ltac conclude_run H :=
  match type of H with
  | reachable _ ?s =>
      match goal with
      | |- reachable _ ?s' => assert (s' = s) as -> by by_evaluation
      end
  end;
  exact H.

Lemma reachable_pair_third_send :
  reachable (pair_config true) (run_or_blank pair_third_send).
Proof.
  pose proof (reachable_pair_start true) as H.
  set (cfg := pair_config true) in *.
  own_send_steps H cfg 8 false 0.
  own_send_steps H cfg 8 false 1.
  peer_and_stability_steps H cfg 1%nat.
  delivery_step H cfg.
  conclude_run H.
Qed.



Lemma reachable_pair_received :
  reachable (pair_config false) (run_or_blank pair_received).
Proof.
  pose proof (reachable_pair_start false) as H.
  set (cfg := pair_config false) in *.
  own_send_steps H cfg 8 false 0.
  remote_receive_steps H cfg 0.
  own_send_steps H cfg 8 false 1.
  remote_receive_steps H cfg 1.
  conclude_run H.
Qed.

Lemma reachable_trio_delivered :
  reachable trio_config (run_or_blank trio_delivered).
Proof.
  assert (reachable trio_config
            (run_or_blank (MulticastGroup_new trio_config blank_sst [] true 2)))
    as H.
  { apply (reachable_new _ blank_sst [] true 2); [apply only_foreign_blank|].
    by_evaluation. }
  set (cfg := trio_config) in *.
  own_send_steps H cfg 8 false 0.
  peer_and_stability_steps H cfg 2%nat.
  delivery_step H cfg.
  conclude_run H.
Qed.

(** ** The counters of a running group *)



Lemma wedged_group_refuses_witness :
  let cfg := pair_config true in
  let st0 := run_or_blank (pair_start true) in
  reachable cfg st0
  ∧ rtc (step cfg) (wedge cfg st0) (wedge cfg st0)
  ∧ send 0 (wedge cfg st0) = Some (false, wedge cfg st0)
  ∧ group_handles (wedge cfg st0) = [].
Proof.
  intros cfg st0.
  pose proof (wedged_group_refuses cfg st0 (wedge cfg st0)
                (reachable_pair_start true) (rtc_refl _ _))
    as (Hsend & _ & _ & _ & Hhandles & _).
  split; [apply reachable_pair_start|]. split; [apply rtc_refl|].
  split; [apply Hsend | apply Hhandles].
Defined.

Lemma wedge_reentry_is_noop_witness :
  let cfg := pair_config true in
  let st0 := run_or_blank (pair_start true) in
  rtc (step cfg) (wedge cfg st0) (wedge cfg st0)
  ∧ wedge cfg (wedge cfg st0) = wedge cfg st0.
Proof.
  intros cfg st0. split; [apply rtc_refl|].
  apply (wedge_reentry_is_noop cfg st0 (wedge cfg st0)), rtc_refl.
Defined.
(** ** Recomputation of the sequence number *)







(** ** The send gate *)

Lemma for_all_shard_rows_true idx ok ms :
  for_all_shard_rows idx ok ms = Some true ->
  ∀ m, m ∈ ms -> ∃ r, idx !! m = Some r ∧ ok r = true.
Proof.
  induction ms as [|x ms IH]; simpl; intros H m Hm.
  - by apply elem_of_nil in Hm.
  - apply bind_Some in H as (r & Hr & H).
    destruct (ok r) eqn:Hok; [|done].
    apply elem_of_cons in Hm as [->|Hm]; [by exists r|by apply IH].
Qed.

Lemma should_send_scan_chosen cfg candidates st g :
  should_send_scan cfg candidates st = Some (Some g) ->
  should_send_to_subgroup cfg g st = Some true.
Proof.
  induction candidates as [|i rest IH]; simpl; intros H; [done|].
  apply bind_Some in H as (ok & Hok & H).
  destruct ok; [|by apply IH]. by injection H as <-.
Qed.

Lemma should_send_to_subgroup_gate cfg g st ms ss ssi :
  subgroup_to_mode cfg !! g = Some ORDERED ->
  subgroup_to_membership cfg !! g = Some ms ->
  subgroup_to_senders_and_sender_rank cfg !! g = Some (ss, ssi) ->
  should_send_to_subgroup cfg g st = Some true ->
  ∃ msg, head (pending_sends st g) = Some msg
         ∧ let bound := window_bound cfg (RDMCMessage.index msg)
                          (get_num_senders ss) ssi in
           gate_open cfg (λ r, delivered_num (sst st) r g) bound ms
           ∧ (file_writer cfg = true ->
              gate_open cfg (λ r, persisted_num (sst st) r g) bound ms).
Proof.
  intros Hmode Hms Hss H. unfold should_send_to_subgroup in H.
  destruct (negb _); [done|].
  destruct (pending_sends st g) as [|msg rest]; [done|].
  exists msg. split; [done|].
  rewrite Hss, Hms, Hmode in H. simpl in H.
  apply bind_Some in H as (_ & _ & H).
  apply bind_Some in H as (_ & _ & H).
  apply bind_Some in H as (off & _ & H).
  destruct (_ <? _); [done|].
  apply bind_Some in H as (_ & _ & H).
  destruct (decide (ORDERED ≠ RAW)) as [_|Hne]; [|by destruct Hne].
  unfold delivered_persisted_gate in H.
  pose proof (for_all_shard_rows_true _ _ _ H) as Hall. cbv zeta.
  split; [|intros Hfw]; intros m Hm; destruct (Hall m Hm) as (r & Hr & Hok);
    exists r; (split; [done|]);
    apply negb_true_iff, orb_false_iff in Hok as [Hd Hp].
  - by apply Z.ltb_ge in Hd.
  - rewrite Hfw in Hp. simpl in Hp. by apply Z.ltb_ge in Hp.
Qed.

Lemma get_sendbuffer_ptr_gate cfg g ms ss ssi payload medium pause cooked null
    slot st p st' :
  subgroup_to_mode cfg !! g = Some ORDERED ->
  subgroup_to_membership cfg !! g = Some ms ->
  subgroup_to_senders_and_sender_rank cfg !! g = Some (ss, ssi) ->
  get_sendbuffer_ptr cfg g payload medium pause cooked null slot st
    = Some (Some p, st') ->
  gate_open cfg (λ r, delivered_num (sst st) r g)
    (window_bound cfg (future_message_indices st g) (get_num_senders ss) ssi)
    ms.
Proof.
  intros Hmode Hms Hss H. unfold get_sendbuffer_ptr in H.
  destruct (negb _); [done|]. destruct (_ <? _); [done|].
  rewrite Hms, Hss, Hmode in H. simpl in H.
  apply bind_Some in H as (_ & _ & H).
  apply bind_Some in H as (_ & _ & H).
  apply bind_Some in H as (open & Hopen & H).
  destruct (decide (ORDERED ≠ RAW)) as [_|Hne]; [|by destruct Hne].
  destruct open; [|done]. unfold delivered_gate in Hopen.
  intros m Hm.
  destruct (for_all_shard_rows_true _ _ _ Hopen m Hm) as (r & Hr & Hok).
  exists r. split; [done|].
  apply negb_true_iff in Hok. by apply Z.ltb_ge in Hok.
Qed.

(** C3, as the specification states it, fails at [get_sendbuffer_ptr]
    in a reachable state: node 0 of the pair group, persistence on and a window of two, has
    sent messages 0 and 1; sequence number 0 is delivered on both rows
    but not yet persisted on either.  The bound for index 2 is 0, so the
    gate on [persisted_num] is closed; still [get_sendbuffer_ptr] hands
    out a buffer for index 2.  The closed gate stops the sender thread
    instead: after [send], its turn issues no bulk send. *)
Lemma get_sendbuffer_ptr_ignores_persisted_num :
  let cfg := pair_config true in
  let st := run_or_blank pair_third_send in
  let bound := window_bound cfg (future_message_indices st 0) 2 0 in
  reachable cfg st
  ∧ is_Some pair_third_send
  ∧ future_message_indices st 0 = 2
  ∧ persisted_num (sst st) 0 0 < bound
  ∧ persisted_num (sst st) 1 0 < bound
  ∧ delivered_persisted_gate cfg 0 bound [0; 1]%nat st = Some false
  ∧ fst <$> get_sendbuffer_ptr cfg 0 8 true 0 false false None st
    = Some (Some (ptr_bulk 1))
  ∧ ('(_, s) ← get_sendbuffer_ptr cfg 0 8 true 0 false false None st;
     '(_, s) ← send 0 s;
     '(_, s') ← send_loop_turn cfg true s;
     Some (drop (length (log s)) (log s'))) = Some [].
Proof.
  cbv zeta. split; [apply reachable_pair_third_send|].
  split; [by vm_compute; eexists|].
  repeat split; by vm_compute.
Qed.

(** C3, amended.  In an ordered subgroup, [get_sendbuffer_ptr] hands out
    a buffer for the next index i only when every shard member m has
    delivered_num[m][subgroup] >= (i - window_size) * num_shard_senders
    + my_sender_rank; it does not read persisted_num.  The sender thread
    issues the bulk send of the message at the head of the pending queue,
    with index i, only when every shard member satisfies that bound on
    delivered_num and, if persistence is enabled, on persisted_num too. *)
Theorem send_gate cfg g ms ss ssi :
  subgroup_to_mode cfg !! g = Some ORDERED ->
  subgroup_to_membership cfg !! g = Some ms ->
  subgroup_to_senders_and_sender_rank cfg !! g = Some (ss, ssi) ->
  (∀ payload medium pause cooked null slot st p st',
     get_sendbuffer_ptr cfg g payload medium pause cooked null slot st
       = Some (Some p, st') ->
     gate_open cfg (λ r, delivered_num (sst st) r g)
       (window_bound cfg (future_message_indices st g) (get_num_senders ss)
          ssi) ms)
  ∧ (∀ ok st b st' len,
       send_loop_turn cfg ok st = Some (b, st') ->
       log st' = log st ++ [EvRdmcSend g len] ->
       ∃ msg, head (pending_sends st g) = Some msg
              ∧ len = RDMCMessage.size msg
              ∧ let bound := window_bound cfg (RDMCMessage.index msg)
                               (get_num_senders ss) ssi in
                gate_open cfg (λ r, delivered_num (sst st) r g) bound ms
                ∧ (file_writer cfg = true ->
                   gate_open cfg (λ r, persisted_num (sst st) r g) bound ms)).
Proof.
  intros Hmode Hms Hss. split.
  - intros. by eapply get_sendbuffer_ptr_gate.
  - intros ok st b st' len H Hlog. unfold send_loop_turn in H.
    assert (log st ≠ log st ++ [EvRdmcSend g len]) as Hne.
    { intros E. apply (f_equal length) in E. rewrite length_app in E.
      simpl in E. lia. }
    destruct (thread_shutdown st); [by injection H as _ <-|].
    apply bind_Some in H as (chosen & Hc & H).
    destruct chosen as [g'|]; [|by injection H as _ <-].
    apply should_send_scan_chosen in Hc.
    apply bind_Some in H as (msg & Hmsg & H). simpl in Hmsg.
    assert (log st' = log st ++ [EvRdmcSend g' (RDMCMessage.size msg)]) as E
      by (by destruct ok; injection H as _ <-).
    rewrite E in Hlog. apply app_inj_tail in Hlog as [_ [= -> <-]].
    destruct (should_send_to_subgroup_gate _ _ _ _ _ _ Hmode Hms Hss Hc)
      as (msg' & Hmsg' & Hg).
    exists msg. split; [done|]. split; [done|].
    by replace msg with msg' by congruence.
Qed.

Lemma send_gate_witness :
  let cfg := pair_config true in
  let st := run_or_blank pair_third_send in
  gate_open cfg (λ r, delivered_num (sst st) r 0)
    (window_bound cfg (future_message_indices st 0) (get_num_senders [1; 1]) 0)
    [0; 1]%nat.
Proof.
  intros cfg st.
  refine (proj1 (send_gate cfg 0%nat [0; 1]%nat [1; 1] 0 _ _ _)
            8 true 0 false false None st (ptr_bulk 1)
            (run_or_blank
               (snd <$> get_sendbuffer_ptr cfg 0 8 true 0 false false None st))
            _);
    vm_compute; reflexivity.
Defined.
(** ** Delivery of empty messages *)







(** ** The writer's completion callback *)

(** What the callback computes, for any report it accepts: the key it
    looks up and publishes is built from the size of the whole group and
    the sender's position in the list of all members. *)
Lemma make_file_written_callback_key cfg m st st' :
  make_file_written_callback cfg m st = Some st' ->
  let key := to_int64 (pm_index m * Z.of_nat (num_members cfg)
                       + Z.of_nat (index_of (members cfg) (pm_sender m))) in
  is_Some (non_persistent_messages st (pm_subgroup_num m) !! key)
  ∧ persisted_num (sst st') (member_index cfg) (pm_subgroup_num m) = key
  ∧ non_persistent_messages st' (pm_subgroup_num m)
    = delete key (non_persistent_messages st (pm_subgroup_num m)).
Proof.
  intros H key. unfold make_file_written_callback in H. crush_opt.
  simpl. unfold set2. rewrite !fn_lookup_insert. eauto.
Qed.

(** C4 (persistence feedback), evaluated where the code departs from it.
    In the trio, node 1 has delivered its own message with index 0;
    [deliver_message] filed it under sequence number 0 (index 0, two
    shard senders, sender rank 0).  When the writer reports that message,
    the callback looks under 0 * 3 + 1 = 1, finds nothing, and its
    assertion fails; the message stays unpersisted. *)
Theorem file_written_callback_misses_shard_message :
  ∃ st msg,
    trio_delivered = Some st
    ∧ reachable trio_config st
    ∧ non_persistent_messages st 0%nat !! 0 = Some msg
    ∧ RDMCMessage.sender_id msg = pm_sender trio_written
    ∧ RDMCMessage.index msg = pm_index trio_written
    ∧ persist_sequence_number trio_config 0 (pm_sender trio_written)
        (pm_index trio_written) = Some 0
    ∧ to_int64 (pm_index trio_written * Z.of_nat (num_members trio_config)
                + Z.of_nat (index_of (members trio_config)
                              (pm_sender trio_written))) = 1
    ∧ make_file_written_callback trio_config trio_written st = None.
Proof.
  exists (run_or_blank trio_delivered). eexists.
  split; [vm_compute; reflexivity|].
  split; [apply reachable_trio_delivered|].
  repeat split; vm_compute; reflexivity.
Qed.

(** ** Forced delivery *)

(** C5 (ragged-edge forced delivery), evaluated where the code departs
    from it.  Node 0 of the pair holds indices 0 and 1 of both senders,
    undelivered.  Asked to deliver sender 0 up to index 0 and sender 1 up
    to index 1, [deliver_messages_upto] delivers all four messages in
    sequence order, index 1 of sender 0 among them, and leaves
    [delivered_num] where it was. *)
Theorem deliver_messages_upto_exceeds_sender_bound :
  ∃ st st',
    pair_received = Some st
    ∧ reachable (pair_config false) st
    ∧ deliver_messages_upto (pair_config false) [0; 1] 0 2 st = Some st'
    ∧ log st' = log st ++ [EvGlobalStability 0 0 0 8; EvGlobalStability 0 1 0 8;
                           EvGlobalStability 0 0 1 8; EvGlobalStability 0 1 1 8]
    ∧ locally_stable_rdmc_messages st' 0%nat = ∅
    ∧ delivered_num (sst st') 0%nat 0%nat = -1.
Proof.
  exists (run_or_blank pair_received). eexists.
  split; [vm_compute; reflexivity|].
  split; [apply reachable_pair_received|].
  split; [vm_compute; reflexivity|].
  repeat split; vm_compute; reflexivity.
Qed.


(** * Further properties of the code *)

(** ** The helpers of the constructors *)

Lemma index_of_le container elem :
  (index_of container elem <= length container)%nat.
Proof.
  induction container as [|x rest IH]; simpl; [done|].
  destruct (decide (x = elem)); lia.
Qed.

Lemma index_of_absent container elem :
  elem ∉ container -> index_of container elem = length container.
Proof.
  induction container as [|x rest IH]; simpl; [done|].
  intros [Hne Hrest]%not_elem_of_cons.
  destruct (decide (x = elem)); [done|]. by rewrite IH.
Qed.

Lemma index_of_before container elem j :
  (j < index_of container elem)%nat -> container !! j ≠ Some elem.
Proof.
  revert j. induction container as [|x rest IH]; simpl; intros j Hj; [lia|].
  destruct (decide (x = elem)) as [->|Hne]; [lia|].
  destruct j as [|j]; simpl; [congruence|]. apply IH. lia.
Qed.

(** X1: [index_of] returns the position of the first occurrence of the
    element, and the size of the container when it does not occur. *)
Theorem index_of_first_occurrence container elem :
  (elem ∈ container ->
   container !! index_of container elem = Some elem
   ∧ (index_of container elem < length container)%nat)
  ∧ (elem ∉ container -> index_of container elem = length container)
  ∧ (∀ j, (j < index_of container elem)%nat -> container !! j ≠ Some elem).
Proof.
  split; [|split].
  - intros Hin. pose proof (index_of_lookup _ _ Hin) as H.
    split; [done|]. by eapply lookup_lt_Some.
  - apply index_of_absent.
  - intros j. apply index_of_before.
Qed.

Lemma node_id_to_sst_index_from_Some i ms acc m r :
  node_id_to_sst_index_from i ms acc !! m = Some r ->
  (m ∉ ms ∧ acc !! m = Some r)
  ∨ ((i <= r)%nat ∧ ms !! (r - i)%nat = Some m
     ∧ ∀ j, (r - i < j)%nat -> ms !! j ≠ Some m).
Proof.
  revert i acc. induction ms as [|x ms IH]; simpl; intros i acc H.
  - left. split; [apply not_elem_of_nil|done].
  - destruct (IH _ _ H) as [[Hnot Hacc]|(Hle & Hr & Hlast)].
    + apply lookup_insert_Some in Hacc as [[-> <-]|[Hne Hacc]].
      * right. rewrite Nat.sub_diag. split; [done|]. split; [done|].
        intros [|j] Hj; [lia|]. simpl. intros Hm.
        apply Hnot. by eapply list_elem_of_lookup_2.
      * left. split; [|done]. by apply not_elem_of_cons.
    + right. split; [lia|].
      replace (r - i)%nat with (S (r - S i)) by lia. simpl. split; [done|].
      intros [|j] Hj; [lia|]. simpl. apply Hlast. lia.
Qed.

Lemma node_id_to_sst_index_last_position cfg m r :
  node_id_to_sst_index cfg !! m = Some r ->
  members cfg !! r = Some m ∧ ∀ j, (r < j)%nat -> members cfg !! j ≠ Some m.
Proof.
  unfold node_id_to_sst_index. intros H.
  destruct (node_id_to_sst_index_from_Some _ _ _ _ _ H)
    as [[_ He]|(_ & Hr & Hlast)]; [done|].
  rewrite Nat.sub_0_r in Hr, Hlast. done.
Qed.

(** X2: the map that the constructors build from the member list sends a
    node id to a position of the list that holds it, the last such
    position; ids that are no members have no entry, and when no id
    occurs twice the map is the inverse of the list. *)
Theorem node_id_to_sst_index_inverts_members cfg m :
  (m ∉ members cfg -> node_id_to_sst_index cfg !! m = None)
  ∧ (∀ r, node_id_to_sst_index cfg !! m = Some r ->
          members cfg !! r = Some m
          ∧ ∀ j, (r < j)%nat -> members cfg !! j ≠ Some m)
  ∧ (NoDup (members cfg) ->
     ∀ r, members cfg !! r = Some m -> node_id_to_sst_index cfg !! m = Some r).
Proof.
  split; [|split].
  - intros Hm. unfold node_id_to_sst_index.
    by rewrite node_id_to_sst_index_from_notin.
  - apply node_id_to_sst_index_last_position.
  - intros Hnd r Hr. unfold node_id_to_sst_index.
    rewrite node_id_to_sst_index_from_in
      by eauto using list_elem_of_lookup_2.
    f_equal. simpl.
    pose proof (index_of_lookup _ _ (list_elem_of_lookup_2 _ _ _ Hr)) as Hi.
    by apply (NoDup_lookup _ _ _ _ Hnd Hi Hr).
Qed.

Lemma mapM_lookup_Some {A B} (f : A -> option B) l k i x :
  mapM f l = Some k -> l !! i = Some x ->
  ∃ y, k !! i = Some y ∧ f x = Some y.
Proof.
  intros H Hx. apply mapM_Some in H.
  destruct (Forall2_lookup_l _ _ _ _ _ H Hx) as (y & Hy & Hf). eauto.
Qed.

Lemma node_id_to_sst_index_from_member i ms acc m :
  m ∈ ms -> is_Some (node_id_to_sst_index_from i ms acc !! m).
Proof.
  revert i acc. induction ms as [|x l IH]; simpl; intros i acc Hin.
  - by apply elem_of_nil in Hin.
  - destruct (decide (m ∈ l)) as [Hl|Hl]; [by apply IH|].
    rewrite node_id_to_sst_index_from_notin by done.
    apply elem_of_cons in Hin as [->|?]; [|done].
    rewrite lookup_insert_eq. by eexists.
Qed.

(** X3: [get_shard_sst_indices] returns, in the order of the shard, the row
    of each shard member, that is a position of the member list holding
    that member; it throws exactly when the subgroup has no membership
    entry or one of the shard's members is no member of the group. *)
Theorem get_shard_sst_indices_rows cfg subgroup_num :
  match get_shard_sst_indices cfg subgroup_num with
  | Some rows =>
      ∃ shard_members,
        subgroup_to_membership cfg !! subgroup_num = Some shard_members
        ∧ length rows = length shard_members
        ∧ ∀ i m, shard_members !! i = Some m ->
                 ∃ r, rows !! i = Some r ∧ members cfg !! r = Some m
  | None =>
      subgroup_to_membership cfg !! subgroup_num = None
      ∨ ∃ shard_members m,
          subgroup_to_membership cfg !! subgroup_num = Some shard_members
          ∧ m ∈ shard_members ∧ m ∉ members cfg
  end.
Proof.
  unfold get_shard_sst_indices.
  destruct (subgroup_to_membership cfg !! subgroup_num) as [ms|]; simpl;
    [|by left].
  destruct (mapM _ ms) as [rows|] eqn:E.
  - exists ms. split; [done|]. split.
    + symmetry. by eapply length_mapM.
    + intros i m Hm. destruct (mapM_lookup_Some _ _ _ _ _ E Hm) as (r & Hr & Hf).
      exists r. split; [done|].
      by apply (node_id_to_sst_index_last_position cfg m).
  - right. exists ms.
    apply mapM_None, Exists_exists in E as (m & Hm & Hnone).
    exists m. split; [done|]. split; [done|].
    intros Hin.
    destruct (node_id_to_sst_index_from_member 0 (members cfg) ∅ m Hin)
      as [r Hr].
    unfold node_id_to_sst_index in Hnone. congruence.
Qed.

(** ** compute_max_msg_size *)

(** X4: as long as no sum wraps around, [compute_max_msg_size] returns the
    least multiple of the block size that holds the payload and the
    header; with a block size of zero it divides by zero. *)
Theorem compute_max_msg_size_rounds_up sizeof_hdr max_payload_size block_size :
  0 <= sizeof_hdr -> 0 <= max_payload_size -> 0 < block_size ->
  max_payload_size + sizeof_hdr + block_size <= 2 ^ 64 ->
  compute_max_msg_size sizeof_hdr max_payload_size 0 = None
  ∧ ∃ r, compute_max_msg_size sizeof_hdr max_payload_size block_size = Some r
         ∧ r mod block_size = 0
         ∧ max_payload_size + sizeof_hdr <= r
           < max_payload_size + sizeof_hdr + block_size.
Proof.
  intros Hh Hp Hb Hfit.
  split; [unfold compute_max_msg_size; by case_guard|].
  unfold compute_max_msg_size, wrap64.
  set (m := max_payload_size + sizeof_hdr).
  rewrite (Z.mod_small m) by lia.
  case_guard; [|lia]. simpl.
  pose proof (Z.mod_pos_bound m block_size Hb) as Hmod.
  pose proof (Z.div_mod m block_size ltac:(lia)) as Hdiv.
  destruct (decide (m mod block_size ≠ 0)) as [Hne|He].
  - assert ((m / block_size + 1) * block_size = m - m mod block_size + block_size)
      as E by lia.
    exists ((m / block_size + 1) * block_size).
    rewrite (Z.mod_small ((m / block_size + 1) * block_size) (2 ^ 64)) by lia.
    split; [done|]. split; [apply Z_mod_mult|]. lia.
  - exists m. split; [done|]. split; lia.
Qed.

Lemma compute_max_msg_size_rounds_up_witness :
  compute_max_msg_size 24 1000 4096 = Some 4096.
Proof.
  destruct (compute_max_msg_size_rounds_up 24 1000 4096)
    as (_ & r & Hr & _); [lia..|].
  rewrite Hr. f_equal. vm_compute in Hr. by injection Hr as <-.
Defined.

(** ** The two numberings of a shard's senders *)

Lemma senders_before_count (shard_senders : list Z) j :
  length (filter (λ k, default 0 (shard_senders !! k) ≠ 0) (seq 0 j))
  = length (filter (λ b, b ≠ 0) (take j shard_senders)).
Proof.
  induction j as [|j IH]; [done|].
  rewrite seq_S, filter_app, length_app, IH. simpl.
  rewrite filter_cons, filter_nil.
  destruct (shard_senders !! j) as [x|] eqn:E; simpl.
  - rewrite (take_S_r _ _ _ E), filter_app, length_app.
    rewrite filter_cons, filter_nil.
    by destruct (decide (x ≠ 0)).
  - apply lookup_ge_None in E. rewrite !take_ge by lia.
    destruct (decide (0 ≠ 0)); [done|]. simpl. lia.
Qed.

(** X5: the bulk handlers of [create_rdmc_sst_groups] count the senders that
    come before a shard member; [register_predicates] tabulates the shard
    ranks of the senders.  The two agree: the rank under which the bulk
    handler of a sending shard member files its messages is the rank at
    which the table lists that member, so both transports give a message
    the same sequence number. *)
Theorem sender_rank_numberings_agree cfg subgroup_num shard_rank ctx
    shard_members shard_senders shard_sender_index :
  subgroup_to_membership cfg !! subgroup_num = Some shard_members ->
  subgroup_to_senders_and_sender_rank cfg !! subgroup_num
    = Some (shard_senders, shard_sender_index) ->
  sender_context_of cfg subgroup_num shard_rank = Some ctx ->
  shard_ranks_by_sender_rank (length shard_members) shard_senders
    !! Z.to_nat (sc_sender_rank ctx) = Some shard_rank
  ∧ shard_members !! shard_rank = Some (sc_node_id ctx).
Proof.
  intros Hms Hss H. unfold sender_context_of in H.
  rewrite Hms, Hss in H. simpl in H.
  apply bind_Some in H as (rows & _ & H).
  apply bind_Some in H as (off & _ & H).
  apply bind_Some in H as (flag & Hflag & H).
  apply bind_Some in H as (Hne & _ & H).
  apply bind_Some in H as (node & Hnode & [= <-]). simpl.
  split; [|done].
  unfold get_num_senders, shard_ranks_by_sender_rank.
  rewrite Nat2Z.id, <- senders_before_count.
  pose proof (lookup_lt_Some _ _ _ Hnode) as Hlt.
  replace (length shard_members)
    with (shard_rank + S (length shard_members - S shard_rank))%nat by lia.
  rewrite seq_app, filter_app. simpl.
  rewrite lookup_app_r by done. rewrite Nat.sub_diag.
  rewrite filter_cons. rewrite Hflag. simpl.
  by destruct (decide (flag ≠ 0)).
Qed.

Lemma sender_rank_numberings_agree_witness :
  shard_ranks_by_sender_rank 2 [1; 1] !! 1%nat = Some 1%nat.
Proof.
  refine (proj1 (sender_rank_numberings_agree (pair_config true) 0%nat 1%nat
                   (Build_sender_context 1 1 2 [0; 1]%nat 0)
                   [0; 1]%nat [1; 1] 0 _ _ _));
    vm_compute; reflexivity.
Defined.

(** ** get_sendbuffer_ptr, send and the sender thread *)

(** X6: a call of [get_sendbuffer_ptr] that returns the null pointer consumes
    nothing: the group is left as it was, except that a request larger
    than [max_msg_size] prints a line.  The size is checked before the
    subgroup is looked up, so an oversized request is turned down for any
    subgroup number once the groups are created. *)
Theorem get_sendbuffer_ptr_refusal_consumes_nothing
    cfg g payload medium pause cooked null slot st :
  (∀ st', get_sendbuffer_ptr cfg g payload medium pause cooked null slot st
            = Some (None, st') ->
          st' = st
          ∨ (rdmc_sst_groups_created st = true
             ∧ max_msg_size cfg < requested_msg_size cfg payload null
             ∧ st' = emit EvPrintTooLarge st))
  ∧ (rdmc_sst_groups_created st = true ->
     max_msg_size cfg < requested_msg_size cfg payload null ->
     get_sendbuffer_ptr cfg g payload medium pause cooked null slot st
       = Some (None, emit EvPrintTooLarge st)).
Proof.
  split.
  - intros st' H. unfold get_sendbuffer_ptr in H.
    destruct (rdmc_sst_groups_created st) eqn:Hc; simpl in H;
      [|left; congruence].
    destruct (max_msg_size cfg <? requested_msg_size cfg payload null) eqn:Hs.
    + right. apply Z.ltb_lt in Hs. split; [done|]. split; [done|]. congruence.
    + left. crush_opt; try discriminate; reflexivity.
  - intros Hc Hs. unfold get_sendbuffer_ptr. rewrite Hc. simpl.
    apply Z.ltb_lt in Hs. by rewrite Hs.
Qed.


(** X8: [send] after a successful bulk [get_sendbuffer_ptr] puts exactly the
    prepared message at the back of the subgroup's queue of pending sends:
    it carries the index the subgroup had reached, the requested size and
    the buffer handed out.  [send] returns true and notifies the sender
    thread; a second [send] for the subgroup without a new buffer fails the
    assertion on [next_sends]. *)
Theorem send_queues_prepared_message
    cfg g payload medium pause cooked null slot st b st1 :
  get_sendbuffer_ptr cfg g payload medium pause cooked null slot st
    = Some (Some (ptr_bulk b), st1) ->
  ∃ msg mb st2,
    send g st1 = Some (true, st2)
    ∧ pending_sends st2 g = pending_sends st g ++ [msg]
    ∧ (∀ g', g' ≠ g -> pending_sends st2 g' = pending_sends st g')
    ∧ RDMCMessage.index msg = future_message_indices st g
    ∧ RDMCMessage.size msg = requested_msg_size cfg payload null
    ∧ RDMCMessage.message_buffer msg = Some mb
    ∧ buffer mb = b
    ∧ log st2 = log st ++ [EvNotifyAll]
    ∧ send g st2 = None.
Proof.
  intros H.
  destruct (get_sendbuffer_ptr_bulk_message _ _ _ _ _ _ _ _ _ _ _ H)
    as (msg & mb & Hn & Hi & Hs & Hb & _ & Hbuf & _).
  exists msg, mb.
  unfold get_sendbuffer_ptr in H. crush_opt; try discriminate.
  all: match goal with H : ptr_bulk _ = ptr_bulk _ |- _ => injection H as <- end.
  all: unfold send; simpl in *.
  all: repeat match goal with E : negb _ = false |- _ =>
                apply negb_false_iff in E end.
  all: repeat match goal with E : rdmc_sst_groups_created _ = true |- _ =>
                rewrite E end.
  all: repeat match goal with E : thread_shutdown _ = false |- _ =>
                rewrite E end.
  all: simpl; rewrite !fn_lookup_insert in *; simpl.
  all: injection Hn as <-.
  all: eexists; split; [reflexivity|]; simpl; rewrite !fn_lookup_insert.
  all: repeat split; try done.
  all: try (intros g' Hg; by rewrite fn_lookup_insert_ne).
  all: match goal with
       | E1 : rdmc_sst_groups_created _ = true,
         E2 : thread_shutdown _ = false |- _ => rewrite E1, E2
       end; simpl; by rewrite ?fn_lookup_insert.
Qed.

Lemma should_send_scan_first cfg st candidates :
  match should_send_scan cfg candidates st with
  | Some (Some g) =>
      ∃ k i, candidates !! k = Some i
        ∧ g = ((subgroup_to_send st + i) mod total_num_subgroups cfg)%nat
        ∧ should_send_to_subgroup cfg g st = Some true
        ∧ ∀ k' i', (k' < k)%nat -> candidates !! k' = Some i' ->
            should_send_to_subgroup cfg
              ((subgroup_to_send st + i') mod total_num_subgroups cfg)%nat st
            = Some false
  | Some None =>
      ∀ i, i ∈ candidates ->
        should_send_to_subgroup cfg
          ((subgroup_to_send st + i) mod total_num_subgroups cfg)%nat st
        = Some false
  | None => True
  end.
Proof.
  induction candidates as [|i rest IH]; simpl.
  - intros i Hi. by apply elem_of_nil in Hi.
  - destruct (should_send_to_subgroup cfg _ st) as [[|]|] eqn:E; simpl; [| |done].
    + exists 0%nat, i. repeat split; try done. intros; lia.
    + destruct (should_send_scan cfg rest st) as [[g|]|]; [| |done].
      * destruct IH as (k & j & Hk & -> & Ht & Hbefore).
        exists (S k), j. repeat split; try done.
        intros [|k'] i' Hlt Hl; simpl in Hl.
        -- by injection Hl as <-.
        -- apply (Hbefore k'); [lia|done].
      * intros j Hj. apply elem_of_cons in Hj as [->|Hj]; [done|by apply IH].
Qed.

(** X9: the sender thread serves the subgroups round robin: [should_send]
    picks the first subgroup, counting cyclically from the one after the
    subgroup served last, whose head message may be sent; every subgroup
    passed over on the way may not send.  When it picks none, no subgroup
    of the group may send. *)
Theorem should_send_round_robin cfg st :
  match should_send cfg st with
  | Some (Some g) =>
      ∃ i, (1 <= i <= total_num_subgroups cfg)%nat
        ∧ g = ((subgroup_to_send st + i) mod total_num_subgroups cfg)%nat
        ∧ should_send_to_subgroup cfg g st = Some true
        ∧ ∀ i', (1 <= i' < i)%nat ->
            should_send_to_subgroup cfg
              ((subgroup_to_send st + i') mod total_num_subgroups cfg)%nat st
            = Some false
  | Some None =>
      ∀ g, (g < total_num_subgroups cfg)%nat ->
        should_send_to_subgroup cfg g st = Some false
  | None => True
  end.
Proof.
  unfold should_send.
  pose proof (should_send_scan_first cfg st (seq 1 (total_num_subgroups cfg)))
    as H.
  destruct (should_send_scan cfg _ st) as [[g|]|]; [| |done].
  - destruct H as (k & i & Hk & -> & Ht & Hbefore).
    apply lookup_seq in Hk as [-> Hk].
    exists (1 + k)%nat. repeat split; try done; try lia.
    intros i' Hi'. apply (Hbefore (i' - 1)%nat); [lia|].
    apply lookup_seq. lia.
  - intros g Hg.
    set (n := total_num_subgroups cfg) in *.
    set (s := subgroup_to_send st) in *.
    (* the offset that reaches [g] from [s] *)
    set (i := (if decide ((g + n - s mod n) mod n = 0)%nat then n
               else (g + n - s mod n) mod n)%nat).
    assert (Hn : (n ≠ 0)%nat) by lia.
    assert (Hs : (s mod n < n)%nat) by (by apply Nat.mod_upper_bound).
    assert (Hd : ((g + n - s mod n) mod n < n)%nat)
      by (by apply Nat.mod_upper_bound).
    assert (Hi : (1 <= i <= n)%nat) by (unfold i; case_decide; lia).
    assert (Hg' : ((s + i) mod n = g)%nat).
    { rewrite <- (Nat.Div0.add_mod_idemp_l s i n).
      assert (((s mod n + i) mod n = (s mod n + (g + n - s mod n)) mod n)%nat)
        as ->.
      { unfold i. case_decide as Hz.
        - rewrite <- (Nat.Div0.add_mod_idemp_r _ (g + n - s mod n)), Hz.
          rewrite Nat.add_0_r.
          rewrite <- (Nat.Div0.add_mod_idemp_r _ n), Nat.Div0.mod_same.
          by rewrite Nat.add_0_r.
        - by rewrite Nat.Div0.add_mod_idemp_r. }
      replace (s mod n + (g + n - s mod n))%nat with (g + 1 * n)%nat by lia.
      rewrite Nat.Div0.mod_add. by apply Nat.mod_small. }
    rewrite <- Hg'. apply H. apply elem_of_seq. lia.
Qed.

(** X10: one turn of the sender thread takes the message at the head of the
    chosen subgroup's queue, hands it to RDMC and records it as the
    subgroup's current send; the rest of that queue keeps its order and the
    queues of the other subgroups are not touched.  When [rdmc::send]
    fails the thread stops, with the message it tried still recorded as the
    current send.  When no subgroup may send, or the thread is shut down,
    the turn changes nothing. *)
Theorem send_loop_turn_takes_queue_head cfg rdmc_send_ok st running st' :
  send_loop_turn cfg rdmc_send_ok st = Some (running, st') ->
  (st' = st
   ∧ (running = false ∧ thread_shutdown st = true
      ∨ running = true ∧ should_send cfg st = Some None))
  ∨ ∃ g msg rest,
      should_send cfg st = Some (Some g)
      ∧ pending_sends st g = msg :: rest
      ∧ current_sends st' g = Some msg
      ∧ subgroup_to_send st' = g
      ∧ log st' = log st ++ [EvRdmcSend g (RDMCMessage.size msg)]
      ∧ running = rdmc_send_ok
      ∧ (∀ g', g' ≠ g -> pending_sends st' g' = pending_sends st g'
                         ∧ current_sends st' g' = current_sends st g')
      ∧ (if rdmc_send_ok then pending_sends st' g = rest
         else ∃ emptied, pending_sends st' g = emptied :: rest
                ∧ RDMCMessage.message_buffer emptied = None)
      ∧ sst st' = sst st.
Proof.
  intros H. unfold send_loop_turn in H.
  destruct (thread_shutdown st) eqn:Hsh.
  { left. injection H as <- <-. auto. }
  destruct (should_send cfg st) as [[g|]|] eqn:Hc; simpl in H;
    [| left; injection H as <- <-; auto | done].
  right. destruct (pending_sends st g) as [|msg rest] eqn:Hq; [done|].
  simpl in H.
  exists g, msg, rest.
  destruct rdmc_send_ok; injection H as <- <-; simpl;
    rewrite !fn_lookup_insert.
  all: repeat split; try done.
  all: try (by rewrite !fn_lookup_insert_ne).
  eexists. split; reflexivity.
Qed.


Lemma send_queues_prepared_message_witness :
  ∃ st1,
    get_sendbuffer_ptr (pair_config true) 0 8 true 0 false false None
      (run_or_blank (pair_start true)) = Some (Some (ptr_bulk 3), st1)
    ∧ ∃ msg mb st2,
        send 0 st1 = Some (true, st2)
        ∧ pending_sends st2 0%nat
          = pending_sends (run_or_blank (pair_start true)) 0%nat ++ [msg]
        ∧ RDMCMessage.index msg
          = future_message_indices (run_or_blank (pair_start true)) 0%nat
        ∧ RDMCMessage.size msg = requested_msg_size (pair_config true) 8 false
        ∧ RDMCMessage.message_buffer msg = Some mb
        ∧ buffer mb = 3%nat
        ∧ send 0 st2 = None.
Proof.
  eexists. split; [vm_compute; reflexivity|].
  pose proof (send_queues_prepared_message (pair_config true) 0%nat 8
                true 0 false false None (run_or_blank (pair_start true)) 3%nat _
                ltac:(vm_compute; reflexivity))
    as (msg & mb & st2 & H1 & H2 & _ & H3 & H4 & H5 & H6 & _ & H7).
  exact (ex_intro _ msg (ex_intro _ mb (ex_intro _ st2
           (conj H1 (conj H2 (conj H3 (conj H4 (conj H5 (conj H6 H7))))))))).
Defined.

Lemma send_loop_turn_takes_queue_head_witness :
  ∃ st',
    send_loop_turn (pair_config true) true (run_or_blank pair_queued)
      = Some (true, st')
    ∧ ((st' = run_or_blank pair_queued
        ∧ (true = false ∧ thread_shutdown (run_or_blank pair_queued) = true
           ∨ true = true
             ∧ should_send (pair_config true) (run_or_blank pair_queued)
               = Some None))
       ∨ ∃ g msg rest,
           should_send (pair_config true) (run_or_blank pair_queued)
             = Some (Some g)
           ∧ pending_sends (run_or_blank pair_queued) g = msg :: rest
           ∧ current_sends st' g = Some msg
           ∧ pending_sends st' g = rest).
Proof.
  eexists. split; [vm_compute; reflexivity|].
  pose proof (send_loop_turn_takes_queue_head (pair_config true) true
                (run_or_blank pair_queued) true _
                ltac:(vm_compute; reflexivity))
    as [H|(g & msg & rest & Hc & Hq & Hcur & _ & _ & _ & _ & Hrest & _)].
  - left. exact H.
  - right. exact (ex_intro _ g (ex_intro _ msg (ex_intro _ rest
                    (conj Hc (conj Hq (conj Hcur Hrest)))))).
Defined.

(** ** Delivery and the file writer's callback *)

Lemma sender_rank_of_all_senders sender ms ss :
  Forall (λ b, b ≠ 0) ss -> (length ms <= length ss)%nat ->
  sender_rank_of sender ms ss = Z.of_nat (index_of ms sender).
Proof.
  revert ss. induction ms as [|m ms IH]; intros ss Hall Hlen; [done|].
  simpl. destruct (decide (m = sender)); [done|].
  destruct ss as [|s ss]; simpl in *; [lia|].
  apply Forall_cons in Hall as [Hs Hall].
  rewrite decide_True by done. rewrite IH by (done || lia). lia.
Qed.

Lemma get_num_senders_all ss :
  Forall (λ b, b ≠ 0) ss -> get_num_senders ss = Z.of_nat (length ss).
Proof.
  intros H. unfold get_num_senders. f_equal. f_equal.
  induction H as [|s ss Hs _ IH]; [done|].
  rewrite filter_cons, decide_True by done. by rewrite IH.
Qed.

Lemma get_shard_sst_indices_whole_group cfg g :
  subgroup_to_membership cfg !! g = Some (members cfg) ->
  is_Some (get_shard_sst_indices cfg g).
Proof.
  intros Hm. unfold get_shard_sst_indices. rewrite Hm. simpl.
  apply mapM_is_Some, Forall_forall. intros m Hin.
  exact (node_id_to_sst_index_from_member 0 (members cfg) ∅ m Hin).
Qed.

(** X11: where the shard of a subgroup is the whole group and every member
    sends, the file writer's report for a delivered bulk message finds the
    message [deliver_message] filed: the callback gives its buffer back to
    the subgroup's pool, takes the entry out of the unpersisted messages
    and sets this node's [persisted_num] to the message's sequence
    number. *)
Theorem file_written_callback_returns_delivered_buffer
    cfg g shard_senders shard_sender_index msg mb st len view cooked :
  file_writer cfg = true ->
  subgroup_to_membership cfg !! g = Some (members cfg) ->
  subgroup_to_senders_and_sender_rank cfg !! g
    = Some (shard_senders, shard_sender_index) ->
  Forall (λ b, b ≠ 0) shard_senders ->
  length shard_senders = length (members cfg) ->
  0 < RDMCMessage.size msg ->
  RDMCMessage.message_buffer msg = Some mb ->
  0 <= RDMCMessage.index msg * Z.of_nat (num_members cfg)
       + Z.of_nat (index_of (members cfg) (RDMCMessage.sender_id msg))
    < 2 ^ 63 ->
  non_persistent_messages st g
    !! (RDMCMessage.index msg * Z.of_nat (num_members cfg)
        + Z.of_nat (index_of (members cfg) (RDMCMessage.sender_id msg)))
    = None ->
  ∃ st1 st2,
    deliver_message cfg msg g st = Some st1
    ∧ make_file_written_callback cfg
        (Build_persistence_message g len view (RDMCMessage.sender_id msg)
           (RDMCMessage.index msg) cooked) st1 = Some st2
    ∧ free_message_buffers st2 g = free_message_buffers st g ++ [Some mb]
    ∧ non_persistent_messages st2 g = non_persistent_messages st g
    ∧ persisted_num (sst st2) (member_index cfg) g
      = RDMCMessage.index msg * Z.of_nat (num_members cfg)
        + Z.of_nat (index_of (members cfg) (RDMCMessage.sender_id msg)).
Proof.
  intros Hfw Hm Hs Hall Hlen Hsize Hmb Hrange Hfresh.
  destruct (get_shard_sst_indices_whole_group cfg g Hm) as [rows Hrows].
  set (key := RDMCMessage.index msg * Z.of_nat (num_members cfg)
              + Z.of_nat (index_of (members cfg) (RDMCMessage.sender_id msg)))
    in *.
  assert (Hkey : persist_sequence_number cfg g (RDMCMessage.sender_id msg)
                   (RDMCMessage.index msg) = Some key).
  { unfold persist_sequence_number. rewrite Hm, Hs. simpl.
    rewrite get_num_senders_all, sender_rank_of_all_senders by (done || lia).
    unfold key, num_members. by rewrite Hlen. }
  assert (Hto : to_int64 key = key).
  { unfold to_int64, wrap64. rewrite Z.mod_small by lia.
    destruct (Z.ltb_spec key (2 ^ 63)); lia. }
  unfold deliver_message, deliver_upcall.
  apply Z.ltb_lt in Hsize. rewrite Hsize, Hmb, Hfw. simpl.
  rewrite Hkey. simpl.
  destruct (cooked_send (buffer_header mb)); simpl.
  all: eexists _, _; (split; [reflexivity|]).
  all: unfold make_file_written_callback; simpl.
  all: fold key; rewrite Hto.
  all: rewrite !fn_lookup_insert; unfold map_emplace; rewrite Hfresh.
  all: rewrite lookup_insert_eq; simpl; rewrite Hrows; simpl.
  all: split; [reflexivity|]; simpl; rewrite !fn_lookup_insert.
  all: rewrite Hmb, delete_insert_id by done.
  all: by rewrite set2_same.
Qed.

Lemma file_written_callback_returns_delivered_buffer_witness :
  ∃ st1 st2,
    deliver_message (pair_config true)
      (RDMCMessage.Build 1 0 32
         (Some (Build_MessageBuffer 3 (Build_header 24 0 0 false))))
      0 (run_or_blank (pair_start true)) = Some st1
    ∧ make_file_written_callback (pair_config true)
        (Build_persistence_message 0 32 0 1 0 false) st1 = Some st2
    ∧ free_message_buffers st2 0%nat
      = free_message_buffers (run_or_blank (pair_start true)) 0%nat
        ++ [Some (Build_MessageBuffer 3 (Build_header 24 0 0 false))]
    ∧ non_persistent_messages st2 0%nat
      = non_persistent_messages (run_or_blank (pair_start true)) 0%nat
    ∧ persisted_num (sst st2) (member_index (pair_config true)) 0%nat
      = 0 * Z.of_nat (num_members (pair_config true))
        + Z.of_nat (index_of (members (pair_config true)) 1).
Proof.
  apply (file_written_callback_returns_delivered_buffer (pair_config true)
           0%nat [1; 1] 0
           (RDMCMessage.Build 1 0 32
              (Some (Build_MessageBuffer 3 (Build_header 24 0 0 false))))
           (Build_MessageBuffer 3 (Build_header 24 0 0 false))
           (run_or_blank (pair_start true)) 32 0 false).
  - reflexivity.
  - reflexivity.
  - reflexivity.
  - repeat constructor; discriminate.
  - reflexivity.
  - simpl; lia.
  - reflexivity.
  - vm_compute. split; [discriminate|reflexivity].
  - vm_compute. reflexivity.
Defined.






(** ** The delivery trigger *)





(** ** The counters of this node's row over the life of a group *)


Lemma receive_advance_eq me t t' :
  (∀ g, seq_num t' me g = seq_num t me g) ->
  (∀ e, num_received t' me e = num_received t me e) ->
  receive_advance me t t'.
Proof. intros H1 H2. split; intros x; rewrite ?H1, ?H2; lia. Qed.


Lemma receive_advance_same_rows me t t' :
  same_rows me t t' -> receive_advance me t t'.
Proof. intros (H1 & _ & _ & _ & H5). by apply receive_advance_eq. Qed.
















(** ** wedge *)

Lemma remove_predicates_lookup hs st h :
  predicates (sst (remove_predicates hs st)) !! h
  = if decide (h ∈ hs) then None else predicates (sst st) !! h.
Proof.
  unfold remove_predicates. revert st.
  induction hs as [|h' hs IH]; intros st; cbn [foldl].
  - destruct (decide (h ∈ [])) as [Hd|_]; [by apply elem_of_nil in Hd|done].
  - rewrite IH.
    destruct (decide (h ∈ hs)) as [Hin|Hnin];
      destruct (decide (h ∈ h' :: hs)) as [Hd|Hd]; simpl.
    + done.
    + exfalso. apply Hd. by right.
    + apply elem_of_cons in Hd as [->|?]; [apply lookup_delete_eq|done].
    + apply lookup_delete_ne. intros ->. apply Hd. left.
Qed.

(** X15: [wedge] on a group not yet wedged takes out of the SST the
    predicates behind the group's four lists of handles and no other
    predicate, and empties the four lists; it leaves this node's counters
    and every queue as they were. *)
Theorem wedge_removes_own_predicates_only cfg st :
  thread_shutdown st = false ->
  (∀ h, predicates (sst (wedge cfg st)) !! h
        = if decide (h ∈ group_handles st) then None
          else predicates (sst st) !! h)
  ∧ group_handles (wedge cfg st) = []
  ∧ thread_shutdown (wedge cfg st) = true
  ∧ same_rows (member_index cfg) (sst st) (sst (wedge cfg st))
  ∧ queues (wedge cfg st) = queues st
  ∧ free_message_buffers (wedge cfg st) = free_message_buffers st.
Proof.
  intros E.
  split; [|split; [by apply wedge_handles|split; [apply thread_shutdown_wedge|
           split; [apply same_rows_wedge|split; [apply queues_wedge|]]]]].
  - intros h. unfold wedge. rewrite E. unfold group_handles.
    simpl_handles. rewrite !remove_predicates_lookup. simpl_handles.
    rewrite !remove_predicates_lookup. simpl_handles.
    rewrite !remove_predicates_lookup. simpl_handles.
    rewrite !remove_predicates_lookup. simpl.
    repeat case_decide; try done;
      repeat match goal with
             | H : _ ∈ _ ++ _ |- _ => apply elem_of_app in H as [H|H]
             | H : ¬ (_ ∈ _ ++ _) |- _ =>
                 apply not_elem_of_app in H as [? ?]
             end; try done.
  - unfold wedge. rewrite E. cbv zeta.
    repeat change (free_message_buffers (emit ?e ?s))
      with (free_message_buffers s).
    rewrite (destroy_groups_proj free_message_buffers) by done.
    change (free_message_buffers (set_delivery_pred_handles [] ?s))
      with (free_message_buffers s).
    rewrite (remove_predicates_proj free_message_buffers) by done.
    change (free_message_buffers (set_stability_pred_handles [] ?s))
      with (free_message_buffers s).
    rewrite (remove_predicates_proj free_message_buffers) by done.
    change (free_message_buffers (set_receiver_pred_handles [] ?s))
      with (free_message_buffers s).
    rewrite (remove_predicates_proj free_message_buffers) by done.
    change (free_message_buffers (set_sender_pred_handles [] ?s))
      with (free_message_buffers s).
    by rewrite (remove_predicates_proj free_message_buffers) by done.
Qed.

Lemma wedge_removes_own_predicates_only_witness :
  (∀ h, predicates (sst (wedge (pair_config true)
                           (run_or_blank (pair_start true)))) !! h
        = if decide (h ∈ group_handles (run_or_blank (pair_start true)))
          then None
          else predicates (sst (run_or_blank (pair_start true))) !! h)
  ∧ group_handles (wedge (pair_config true) (run_or_blank (pair_start true)))
    = [].
Proof.
  destruct (wedge_removes_own_predicates_only (pair_config true)
              (run_or_blank (pair_start true)) ltac:(vm_compute; reflexivity))
    as (Hp & Hh & _).
  exact (conj Hp Hh).
Defined.

(** ** initialize_sst_row *)

Lemma initialize_rows_all_cells cfg n t :
  let t' := foldl (λ t i, initialize_row cfg i t) t (seq 0 n) in
  (∀ r g, seq_num t' r g
          = if decide ((r < n)%nat ∧ (g < seq_num_size cfg)%nat) then -1
            else seq_num t r g)
  ∧ (∀ r g, stable_num t' r g
            = if decide ((r < n)%nat ∧ (g < seq_num_size cfg)%nat) then -1
              else stable_num t r g)
  ∧ (∀ r g, delivered_num t' r g
            = if decide ((r < n)%nat ∧ (g < seq_num_size cfg)%nat) then -1
              else delivered_num t r g)
  ∧ (∀ r g, persisted_num t' r g
            = if decide ((r < n)%nat ∧ (g < seq_num_size cfg)%nat) then -1
              else persisted_num t r g)
  ∧ (∀ r e, num_received t' r e
            = if decide ((r < n)%nat ∧ (e < num_received_size cfg)%nat)
              then -1 else num_received t r e)
  ∧ num_received_sst t' = num_received_sst t
  ∧ slots t' = slots t ∧ vid t' = vid t ∧ predicates t' = predicates t.
Proof.
  induction n as [|n IH].
  - simpl. repeat split; intros r g; case_decide; done || lia.
  - rewrite seq_S, foldl_app. simpl in *.
    set (t1 := foldl _ t (seq 0 n)) in *.
    destruct IH as (I1 & I2 & I3 & I4 & I5 & I6 & I7 & I8 & I9).
    destruct (initialize_row_cells cfg n t1) as (H1 & H2 & H3 & H4 & H5).
    assert (num_received_sst (initialize_row cfg n t1) = num_received_sst t1
            ∧ slots (initialize_row cfg n t1) = slots t1
            ∧ vid (initialize_row cfg n t1) = vid t1
            ∧ predicates (initialize_row cfg n t1) = predicates t1)
      as (H6 & H7 & H8 & H9).
    { unfold initialize_row.
      apply (foldl_preserves
               (λ s, num_received_sst s = num_received_sst t1
                     ∧ slots s = slots t1 ∧ vid s = vid t1
                     ∧ predicates s = predicates t1)); [by intros s j ?|].
      apply (foldl_preserves
               (λ s, num_received_sst s = num_received_sst t1
                     ∧ slots s = slots t1 ∧ vid s = vid t1
                     ∧ predicates s = predicates t1)); [by intros s j ?|done]. }
    rewrite H6, H7, H8, H9.
    repeat split; try done; intros r g;
      rewrite ?H1, ?H2, ?H3, ?H4, ?H5, ?I1, ?I2, ?I3, ?I4, ?I5;
      repeat case_decide; try done; lia.
Qed.

(** X16: [initialize_sst_row] sets to -1 the four counters of every subgroup
    column and every receive counter in the rows of all members, not only
    in this node's row, and changes no other cell of the table: rows
    beyond the members, the slot counters, the slots, the view id and the
    predicates stay.  It then pushes this node's row and synchronises with
    the members, and touches nothing else of the group. *)
Theorem initialize_sst_row_resets_member_rows cfg st :
  (∀ r g, seq_num (sst (initialize_sst_row cfg st)) r g
          = if decide ((r < num_members cfg)%nat ∧ (g < seq_num_size cfg)%nat)
            then -1 else seq_num (sst st) r g)
  ∧ (∀ r g, stable_num (sst (initialize_sst_row cfg st)) r g
          = if decide ((r < num_members cfg)%nat ∧ (g < seq_num_size cfg)%nat)
            then -1 else stable_num (sst st) r g)
  ∧ (∀ r g, delivered_num (sst (initialize_sst_row cfg st)) r g
          = if decide ((r < num_members cfg)%nat ∧ (g < seq_num_size cfg)%nat)
            then -1 else delivered_num (sst st) r g)
  ∧ (∀ r g, persisted_num (sst (initialize_sst_row cfg st)) r g
          = if decide ((r < num_members cfg)%nat ∧ (g < seq_num_size cfg)%nat)
            then -1 else persisted_num (sst st) r g)
  ∧ (∀ r e, num_received (sst (initialize_sst_row cfg st)) r e
          = if decide ((r < num_members cfg)%nat
                       ∧ (e < num_received_size cfg)%nat)
            then -1 else num_received (sst st) r e)
  ∧ num_received_sst (sst (initialize_sst_row cfg st))
    = num_received_sst (sst st)
  ∧ slots (sst (initialize_sst_row cfg st)) = slots (sst st)
  ∧ vid (sst (initialize_sst_row cfg st)) = vid (sst st)
  ∧ predicates (sst (initialize_sst_row cfg st)) = predicates (sst st)
  ∧ queues (initialize_sst_row cfg st) = queues st
  ∧ free_message_buffers (initialize_sst_row cfg st) = free_message_buffers st
  ∧ log (initialize_sst_row cfg st) = log st ++ [EvPutRow; EvSyncWithMembers].
Proof.
  unfold initialize_sst_row.
  destruct (initialize_rows_all_cells cfg (num_members cfg) (sst st))
    as (H1 & H2 & H3 & H4 & H5 & H6 & H7 & H8 & H9).
  simpl. rewrite <- app_assoc. by repeat split.
Qed.

(** ** The placeholders of skipped turns *)

Lemma add_rdmc_placeholders_index turns node_id nss index sequence_number q :
  (add_rdmc_placeholders turns node_id nss index sequence_number q).1
  = index + Z.of_nat turns.
Proof.
  revert index sequence_number q.
  induction turns as [|n IH]; intros index sequence_number q.
  - simpl. lia.
  - cbn [add_rdmc_placeholders]. rewrite IH. lia.
Qed.

Lemma add_rdmc_placeholders_outside turns node_id nss index sequence_number q k :
  (∀ j, (1 <= j <= turns)%nat -> k ≠ sequence_number + Z.of_nat j * nss) ->
  (add_rdmc_placeholders turns node_id nss index sequence_number q).2 !! k
  = q !! k.
Proof.
  revert index sequence_number q.
  induction turns as [|n IH]; intros index sequence_number q Hk; [done|].
  cbn [add_rdmc_placeholders]. rewrite IH.
  - apply lookup_insert_ne. specialize (Hk 1%nat ltac:(lia)). lia.
  - intros j Hj. specialize (Hk (S j) ltac:(lia)). lia.
Qed.

(** X17: the loop of the bulk receive handler that stands in for the turns a
    sender skips: for [turns] skipped turns after the message with index
    [index] and sequence number [sequence_number], it files one empty
    message per turn, with no buffer and size 0, under the sender's next
    [turns] sequence numbers and with the next [turns] indices, replacing
    what was filed there; the other entries of the queue stay, and the
    index it ends on is [index + turns]. *)
Theorem add_rdmc_placeholders_fills_skipped_turns
    turns node_id num_shard_senders index sequence_number q :
  num_shard_senders ≠ 0 ->
  (add_rdmc_placeholders turns node_id num_shard_senders index
     sequence_number q).1 = index + Z.of_nat turns
  ∧ (∀ j, (1 <= j <= turns)%nat ->
       (add_rdmc_placeholders turns node_id num_shard_senders index
          sequence_number q).2
         !! (sequence_number + Z.of_nat j * num_shard_senders)
       = Some (RDMCMessage.Build node_id (index + Z.of_nat j) 0 None))
  ∧ (∀ k, (∀ j, (1 <= j <= turns)%nat ->
             k ≠ sequence_number + Z.of_nat j * num_shard_senders) ->
       (add_rdmc_placeholders turns node_id num_shard_senders index
          sequence_number q).2 !! k = q !! k).
Proof.
  intros Hnss.
  split; [apply add_rdmc_placeholders_index|].
  split; [|intros k Hk; by apply add_rdmc_placeholders_outside].
  revert index sequence_number q.
  induction turns as [|n IH]; intros index sequence_number q j Hj; [lia|].
  cbn [add_rdmc_placeholders].
  destruct (decide (j = 1%nat)) as [->|Hne].
  - rewrite add_rdmc_placeholders_outside.
    + replace (sequence_number + Z.of_nat 1 * num_shard_senders)
        with (sequence_number + num_shard_senders) by lia.
      rewrite lookup_insert_eq. do 2 f_equal.
    + intros j' Hj'. nia.
  - specialize (IH (index + 1) (sequence_number + num_shard_senders)
                  (<[sequence_number + num_shard_senders :=
                       RDMCMessage.Build node_id (index + 1) 0 None]> q)
                  (j - 1)%nat ltac:(lia)).
    replace (sequence_number + Z.of_nat j * num_shard_senders)
      with (sequence_number + num_shard_senders
            + Z.of_nat (j - 1) * num_shard_senders) by nia.
    rewrite IH. do 2 f_equal. lia.
Qed.

Lemma add_rdmc_placeholders_fills_skipped_turns_witness :
  (add_rdmc_placeholders 2 1 2 0 1 ∅).1 = 0 + Z.of_nat 2
  ∧ (∀ j, (1 <= j <= 2)%nat ->
       (add_rdmc_placeholders 2 1 2 0 1 ∅).2 !! (1 + Z.of_nat j * 2)
       = Some (RDMCMessage.Build 1 (0 + Z.of_nat j) 0 None))
  ∧ (∀ k, (∀ j, (1 <= j <= 2)%nat -> k ≠ 1 + Z.of_nat j * 2) ->
       (add_rdmc_placeholders 2 1 2 0 1 ∅).2 !! k
       = (∅ : gmap Z RDMCMessage.t) !! k).
Proof.
  apply (add_rdmc_placeholders_fills_skipped_turns 2 1%nat 2 0 1 ∅). lia.
Defined.

(** ** The member list of a sender's RDMC group *)

(** X18: the member vector [create_rdmc_sst_groups] hands to
    [rdmc::create_group] for the sender at [shard_rank] is the shard
    rotated to start at that sender: the sender comes first, the members
    after it follow in shard order, then those before it.  It has every
    shard member exactly as often as the shard has. *)
Theorem rotated_shard_members_starts_at_sender shard_members shard_rank :
  (shard_rank < length shard_members)%nat ->
  rotated_shard_members shard_members shard_rank
  = drop shard_rank shard_members ++ take shard_rank shard_members
  ∧ head (rotated_shard_members shard_members shard_rank)
    = shard_members !! shard_rank
  ∧ rotated_shard_members shard_members shard_rank ≡ₚ shard_members.
Proof.
  intros Hr.
  assert (Heq : rotated_shard_members shard_members shard_rank
                = drop shard_rank shard_members ++ take shard_rank shard_members).
  { apply list_eq. intros k. unfold rotated_shard_members.
    rewrite list_lookup_fmap.
    destruct (decide (k < length shard_members)%nat) as [Hk|Hk].
    - rewrite lookup_seq_lt by done. simpl.
      destruct (decide (shard_rank + k < length shard_members)%nat) as [Hs|Hs].
      + rewrite Nat.mod_small by done.
        rewrite lookup_app_l by (rewrite length_drop; lia).
        rewrite lookup_drop.
        destruct (lookup_lt_is_Some_2 shard_members (shard_rank + k)%nat Hs)
          as [x ->]. done.
      + rewrite lookup_app_r by (rewrite length_drop; lia).
        rewrite length_drop.
        rewrite lookup_take_lt by lia.
        assert ((shard_rank + k) mod length shard_members
                = k - (length shard_members - shard_rank))%nat as ->
          by (symmetry; apply (Nat.mod_unique _ _ 1%nat); lia).
        destruct (lookup_lt_is_Some_2 shard_members
                    (k - (length shard_members - shard_rank))%nat
                    ltac:(lia)) as [x ->]. done.
    - rewrite lookup_seq_ge by lia. simpl. symmetry.
      apply lookup_ge_None. rewrite length_app, length_drop, length_take. lia. }
  split; [exact Heq|]. split.
  - rewrite Heq.
    destruct (lookup_lt_is_Some_2 shard_members shard_rank Hr) as [x Hx].
    rewrite Hx. rewrite (drop_S _ _ _ Hx). done.
  - rewrite Heq. rewrite Permutation_app_comm. by rewrite take_drop.
Qed.

Lemma rotated_shard_members_starts_at_sender_witness :
  rotated_shard_members [4; 5; 6]%nat 1
  = drop 1 [4; 5; 6]%nat ++ take 1 [4; 5; 6]%nat
  ∧ head (rotated_shard_members [4; 5; 6]%nat 1) = [4; 5; 6]%nat !! 1%nat
  ∧ rotated_shard_members [4; 5; 6]%nat 1 ≡ₚ [4; 5; 6]%nat.
Proof.
  apply (rotated_shard_members_starts_at_sender [4; 5; 6]%nat 1). simpl. lia.
Defined.

(** ** The constructor that takes over from the old group *)

Lemma registry_ok_start cfg (c : bool) rdmc_ok groups st st0 :
  only_foreign (sst st) ->
  thread_shutdown st = false ->
  register_predicates cfg
    (let st := initialize_sst_row cfg st in
     if c then
       let '(created, st) := create_rdmc_sst_groups rdmc_ok groups st in
       set_rdmc_sst_groups_created created st
     else st) = Some st0 ->
  registry_ok cfg st0.
Proof.
  intros Hf Hts H. unfold register_predicates in H. cbv zeta in H.
  eapply registry_ok_register_loop;
    [apply my_subgroups_mine | | exact H |].
  - by destruct c.
  - apply registry_ok_only_foreign; [|by destruct c].
    assert (predicates (sst (initialize_sst_row cfg st)) = predicates (sst st))
      as E by apply predicates_initialize_sst_row.
    intros h p Hp. apply (Hf h p). rewrite <- E. by destruct c.
Qed.

Lemma beside_convert_msg cfg msg g st msg' st' :
  convert_msg cfg msg g st = Some (msg', st') -> beside_take_over st' = beside_take_over st.
Proof. unfold convert_msg. intros H. frame_auto H. Qed.

Lemma beside_convert_sst_msg cfg t msg g st msg' st' :
  convert_sst_msg cfg t msg g st = Some (msg', st') -> beside_take_over st' = beside_take_over st.
Proof. unfold convert_sst_msg. intros H. frame_auto H. Qed.

Lemma beside_reclaim_receives receives st :
  beside_take_over (reclaim_receives receives st) = beside_take_over st.
Proof.
  unfold reclaim_receives.
  apply (foldl_preserves (λ s, beside_take_over s = beside_take_over st)); [|done].
  by intros s e <-.
Qed.

Lemma beside_requeue_stable_messages cfg g entries st st' :
  requeue_stable_messages cfg g entries st = Some st' ->
  beside_take_over st' = beside_take_over st.
Proof.
  revert st. induction entries as [|[k msg] rest IH]; simpl; intros st H.
  - by injection H as <-.
  - apply bind_Some in H as (me & _ & H).
    apply bind_Some in H as (st1 & H1 & H).
    rewrite (IH _ H). destruct (decide _); [|by injection H1 as <-].
    apply bind_Some in H1 as (_ & _ & H1).
    apply bind_Some in H1 as ([m s] & Hc & [= <-]).
    by apply beside_convert_msg in Hc.
Qed.

Lemma beside_requeue_stable cfg old subgroups st st' :
  requeue_stable cfg old subgroups st = Some st' -> beside_take_over st' = beside_take_over st.
Proof.
  revert st. induction subgroups as [|g rest IH]; simpl; intros st H.
  - by injection H as <-.
  - apply bind_Some in H as (st1 & H1 & H).
    rewrite (IH _ H). eauto using beside_requeue_stable_messages.
Qed.

Lemma beside_convert_pending cfg g msgs st st' :
  convert_pending cfg g msgs st = Some st' -> beside_take_over st' = beside_take_over st.
Proof.
  revert st. induction msgs as [|msg rest IH]; simpl; intros st H.
  - by injection H as <-.
  - apply bind_Some in H as ([m s] & Hc & H). simpl in H.
    rewrite (IH _ H). by apply beside_convert_msg in Hc.
Qed.

Lemma beside_convert_unpersisted cfg g entries st st' :
  convert_unpersisted cfg g entries st = Some st' -> beside_take_over st' = beside_take_over st.
Proof.
  revert st. induction entries as [|[k msg] rest IH]; simpl; intros st H.
  - by injection H as <-.
  - apply bind_Some in H as ([m s] & Hc & H). simpl in H.
    rewrite (IH _ H). by apply beside_convert_msg in Hc.
Qed.

Lemma beside_convert_unpersisted_sst cfg t g entries st st' :
  convert_unpersisted_sst cfg t g entries st = Some st' ->
  beside_take_over st' = beside_take_over st.
Proof.
  revert st. induction entries as [|[k msg] rest IH]; simpl; intros st H.
  - by injection H as <-.
  - apply bind_Some in H as ([m s] & Hc & H). simpl in H.
    rewrite (IH _ H). by apply beside_convert_sst_msg in Hc.
Qed.

Lemma beside_take_over_sends cfg old_cfg old subgroups u us st st' :
  take_over_sends cfg old_cfg old subgroups u us st = Some st' ->
  beside_take_over st' = beside_take_over st.
Proof.
  revert u us st. induction subgroups as [|g rest IH]; simpl; intros u us st H.
  - by injection H as <-.
  - apply bind_Some in H as (s1 & H1 & H).
    apply bind_Some in H as (s2 & H2 & H).
    apply bind_Some in H as (s3 & H3 & H).
    apply bind_Some in H as (s4 & H4 & H).
    apply bind_Some in H as (s5 & H5 & H).
    rewrite (IH _ _ _ H).
    rewrite (beside_convert_unpersisted_sst _ _ _ _ _ _ H5).
    rewrite (beside_convert_unpersisted _ _ _ _ _ H4).
    assert (beside_take_over s3 = beside_take_over s2) as ->.
    { destruct (next_sends old g); [|by injection H3 as <-].
      destruct (bool_decide _); [|by injection H3 as <-].
      apply bind_Some in H3 as ([m s] & Hc & [= <-]).
      by apply beside_convert_msg in Hc. }
    assert (beside_take_over s2 = beside_take_over s1) as ->.
    { destruct (bool_decide _); [|by injection H2 as <-].
      eauto using beside_convert_pending. }
    destruct (current_sends old g); [|by injection H1 as <-].
    destruct (bool_decide _); [|by injection H1 as <-].
    apply bind_Some in H1 as ([m s] & Hc & [= <-]).
    by apply beside_convert_msg in Hc.
Qed.

Lemma registry_ok_from cfg table old_cfg old addr already_failed rdmc_ok groups
    st0 :
  only_foreign table ->
  MulticastGroup_from cfg table old_cfg old addr already_failed rdmc_ok groups
    = Some st0 ->
  registry_ok cfg st0.
Proof.
  intros Hf H. unfold MulticastGroup_from in H.
  apply bind_Some in H as (_ & _ & H).
  apply bind_Some in H as (fresh_pools & _ & H). cbv zeta in H.
  apply bind_Some in H as (pools & _ & H).
  apply bind_Some in H as (s1 & H1 & H).
  apply bind_Some in H as (s2 & H2 & H).
  apply beside_take_over_sends in H2. apply beside_requeue_stable in H1.
  rewrite H1, beside_reclaim_receives in H2.
  unfold beside_take_over, control in H2. simpl in H2.
  injection H2 as Ht Hts _ _ _ _ _ _ _.
  eapply (registry_ok_start cfg _ rdmc_ok groups s2); [| exact Hts | exact H].
  rewrite Ht. exact Hf.
Qed.

Lemma registry_ok_in_service cfg st : in_service cfg st -> registry_ok cfg st.
Proof.
  induction 1; eauto using registry_ok_new, registry_ok_from, registry_ok_step.
Qed.

Lemma in_service_steps cfg st st' :
  rtc (step cfg) st st' -> in_service cfg st -> in_service cfg st'.
Proof. induction 1; eauto using in_service_step. Qed.

Lemma reachable_in_service cfg st : reachable cfg st -> in_service cfg st.
Proof.
  intros (table & af & ok & groups & st0 & Hf & Hnew & Hsteps).
  eauto using in_service_steps, in_service_first.
Qed.

Lemma counters_start_from cfg table old_cfg old addr already_failed rdmc_ok
    groups st0 :
  MulticastGroup_from cfg table old_cfg old addr already_failed rdmc_ok groups
    = Some st0 ->
  (∀ r, (r < num_members cfg)%nat ->
        (∀ g, (g < seq_num_size cfg)%nat ->
              seq_num (sst st0) r g = -1 ∧ stable_num (sst st0) r g = -1
              ∧ delivered_num (sst st0) r g = -1
              ∧ persisted_num (sst st0) r g = -1)
        ∧ (∀ e, (e < num_received_size cfg)%nat ->
                num_received (sst st0) r e = -1)).
Proof.
  intros H. unfold MulticastGroup_from, register_predicates in H.
  apply bind_Some in H as (_ & _ & H).
  apply bind_Some in H as (fresh_pools & _ & H). cbv zeta in H.
  apply bind_Some in H as (pools & _ & H).
  apply bind_Some in H as (s1 & _ & H).
  apply bind_Some in H as (s2 & _ & H).
  apply register_loop_rows in H as ((Hs & Hst & Hd & Hp & Hnr) & _).
  intros r Hr. rewrite Hs, Hst, Hd, Hp, Hnr.
  destruct (orb _ _); by apply (initialize_rows_cells cfg _ (sst s2) r Hr).
Qed.

(** X19: a group that takes over starts like a fresh one on the receive side:
    the four counters of every subgroup and every receive counter are -1
    in the rows of all members, nothing is queued as locally stable and no
    receive or send is in progress, whatever the old group held. *)
Theorem take_over_resets_receive_side
    cfg table old_cfg old_group addr already_failed rdmc_ok groups st0 :
  MulticastGroup_from cfg table old_cfg old_group addr already_failed rdmc_ok
    groups = Some st0 ->
  counters_start cfg (sst st0)
  ∧ (∀ r e, (r < num_members cfg)%nat -> (e < num_received_size cfg)%nat ->
            num_received (sst st0) r e = -1)
  ∧ locally_stable_rdmc_messages st0 = (λ _, ∅)
  ∧ locally_stable_sst_messages st0 = (λ _, ∅)
  ∧ current_receives st0 = ∅
  ∧ current_sends st0 = (λ _, None).
Proof.
  intros H.
  pose proof (counters_start_from _ _ _ _ _ _ _ _ _ H) as Hcells.
  split; [intros r g Hr Hg; by apply (Hcells r Hr)|].
  split; [intros r e Hr He; by apply (Hcells r Hr)|].
  unfold MulticastGroup_from, register_predicates in H.
  apply bind_Some in H as (_ & _ & H).
  apply bind_Some in H as (fresh_pools & _ & H). cbv zeta in H.
  apply bind_Some in H as (pools & _ & H).
  apply bind_Some in H as (s1 & H1 & H).
  apply bind_Some in H as (s2 & H2 & H).
  apply register_loop_rows in H as (_ & Hq).
  apply beside_take_over_sends in H2. apply beside_requeue_stable in H1.
  rewrite H1, beside_reclaim_receives in H2.
  pose proof (f_equal (λ x, x.2.1.1.1) H2) as Hr.
  pose proof (f_equal (λ x, x.2.1.1.2) H2) as Hs.
  pose proof (f_equal (λ x, x.2.1.2) H2) as Hcr.
  pose proof (f_equal (λ x, x.2.2) H2) as Hcs.
  simpl in Hr, Hs, Hcr, Hcs.
  assert (queues st0 = queues s2) as Hq'
    by (rewrite Hq; by destruct (orb _ _)).
  pose proof (f_equal (λ x, x.1.1.1.1) Hq') as Kr.
  pose proof (f_equal (λ x, x.1.1.1.2) Hq') as Ks.
  pose proof (f_equal (λ x, x.1.2) Hq') as Kcr.
  pose proof (f_equal (λ x, x.2.1.1) Hq') as Kcs.
  simpl in Kr, Ks, Kcr, Kcs.
  by rewrite Kr, Ks, Kcr, Kcs, Hr, Hs, Hcr, Hcs.
Qed.

Lemma take_over_resets_receive_side_witness :
  counters_start pair_joined_config (sst (run_or_blank pair_joined))
  ∧ locally_stable_rdmc_messages (run_or_blank pair_joined) = (λ _, ∅).
Proof.
  destruct (take_over_resets_receive_side pair_joined_config blank_sst
              (pair_config true) (run_or_blank pair_third_send) 4 [] true 3
              (run_or_blank pair_joined) ltac:(vm_compute; reflexivity))
    as (Hc & _ & Hq & _).
  exact (conj Hc Hq).
Defined.

(** X20: over all views, whether a group was built afresh or took over from
    its predecessor, and whatever steps it has run: once it is wedged the
    SST holds none of its predicates and its four lists of handles are
    empty. *)
Theorem wedge_leaves_no_group_predicate cfg st :
  in_service cfg st ->
  only_foreign (sst (wedge cfg st))
  ∧ group_handles (wedge cfg st) = []
  ∧ thread_shutdown (wedge cfg st) = true.
Proof.
  intros Hs. pose proof (registry_ok_in_service _ _ Hs) as Hok.
  split; [by apply wedge_clears_registry|].
  split; [|apply thread_shutdown_wedge].
  destruct (thread_shutdown st) eqn:E; [|by apply wedge_handles].
  rewrite wedge_when_wedged by done. by apply Hok.
Qed.

Lemma in_service_pair_joined :
  in_service pair_joined_config (run_or_blank pair_joined).
Proof.
  apply (in_service_next (pair_config true) (run_or_blank pair_third_send)
           pair_joined_config blank_sst 4 [] true 3).
  - apply reachable_in_service, reachable_pair_third_send.
  - by repeat split.
  - apply only_foreign_blank.
  - by_evaluation.
Qed.

Lemma wedge_leaves_no_group_predicate_witness :
  only_foreign (sst (wedge pair_joined_config (run_or_blank pair_joined)))
  ∧ group_handles (wedge pair_joined_config (run_or_blank pair_joined)) = []
  ∧ thread_shutdown (wedge pair_joined_config (run_or_blank pair_joined))
    = true.
Proof.
  exact (wedge_leaves_no_group_predicate pair_joined_config
           (run_or_blank pair_joined) in_service_pair_joined).
Defined.

(** *** The messages still with the writer at a take-over *)

Lemma in_key_order_elem {A} (m : gmap Z A) k x :
  (k, x) ∈ in_key_order m ↔ m !! k = Some x.
Proof.
  unfold in_key_order. rewrite merge_sort_Permutation.
  apply elem_of_map_to_list.
Qed.

Lemma unpersisted_convert_msg cfg msg g st msg' st' :
  convert_msg cfg msg g st = Some (msg', st') ->
  non_persistent_messages st' = non_persistent_messages st
  ∧ members cfg !! member_index cfg = Some (RDMCMessage.sender_id msg')
  ∧ RDMCMessage.index msg' = future_message_indices st g
  ∧ RDMCMessage.size msg' = RDMCMessage.size msg
  ∧ RDMCMessage.message_buffer msg' = RDMCMessage.message_buffer msg.
Proof.
  unfold convert_msg. intros H.
  apply bind_Some in H as (me & Hme & H). simpl in H.
  apply bind_Some in H as (mb & Hmb & [= <- <-]). simpl.
  by rewrite Hmb.
Qed.

Lemma unpersisted_convert_sst_msg cfg t msg g st msg' st' :
  convert_sst_msg cfg t msg g st = Some (msg', st') ->
  non_persistent_messages st' = non_persistent_messages st.
Proof. unfold convert_sst_msg. intros H. by crush_opt. Qed.

Lemma unpersisted_reclaim_receives receives st :
  non_persistent_messages (reclaim_receives receives st)
  = non_persistent_messages st.
Proof.
  unfold reclaim_receives.
  apply (foldl_preserves
           (λ s, non_persistent_messages s = non_persistent_messages st));
    [|done].
  by intros s e <-.
Qed.

Lemma unpersisted_requeue_stable_messages cfg g entries st st' :
  requeue_stable_messages cfg g entries st = Some st' ->
  non_persistent_messages st' = non_persistent_messages st.
Proof.
  revert st. induction entries as [|[k msg] rest IH]; simpl; intros st H.
  - by injection H as <-.
  - apply bind_Some in H as (me & _ & H).
    apply bind_Some in H as (st1 & H1 & H).
    rewrite (IH _ H). destruct (decide _); [|by injection H1 as <-].
    apply bind_Some in H1 as (_ & _ & H1).
    apply bind_Some in H1 as ([m s] & Hc & [= <-]).
    by apply unpersisted_convert_msg in Hc as [? _].
Qed.

Lemma unpersisted_requeue_stable cfg old subgroups st st' :
  requeue_stable cfg old subgroups st = Some st' ->
  non_persistent_messages st' = non_persistent_messages st.
Proof.
  revert st. induction subgroups as [|g rest IH]; simpl; intros st H.
  - by injection H as <-.
  - apply bind_Some in H as (st1 & H1 & H).
    rewrite (IH _ H). eauto using unpersisted_requeue_stable_messages.
Qed.

Lemma unpersisted_convert_pending cfg g msgs st st' :
  convert_pending cfg g msgs st = Some st' ->
  non_persistent_messages st' = non_persistent_messages st.
Proof.
  revert st. induction msgs as [|msg rest IH]; simpl; intros st H.
  - by injection H as <-.
  - apply bind_Some in H as ([m s] & Hc & H). simpl in H.
    rewrite (IH _ H). by apply unpersisted_convert_msg in Hc as [? _].
Qed.

Lemma unpersisted_convert_unpersisted_sst cfg t g entries st st' :
  convert_unpersisted_sst cfg t g entries st = Some st' ->
  non_persistent_messages st' = non_persistent_messages st.
Proof.
  revert st. induction entries as [|[k msg] rest IH]; simpl; intros st H.
  - by injection H as <-.
  - apply bind_Some in H as ([m s] & Hc & H). simpl in H.
    rewrite (IH _ H). by apply unpersisted_convert_sst_msg in Hc.
Qed.

(** An old message and the message the new group makes of it. *)
Lemma convert_unpersisted_entries cfg g entries st st' :
  convert_unpersisted cfg g entries st = Some st' ->
  (∀ g' k msg', non_persistent_messages st' g' !! k = Some msg' ->
      non_persistent_messages st g' !! k = Some msg'
      ∨ (g' = g
         ∧ ∃ msg, (k, msg) ∈ entries
             ∧ members cfg !! member_index cfg
               = Some (RDMCMessage.sender_id msg')
             ∧ RDMCMessage.size msg' = RDMCMessage.size msg
             ∧ RDMCMessage.message_buffer msg'
               = RDMCMessage.message_buffer msg))
  ∧ (∀ g' k x, non_persistent_messages st g' !! k = Some x ->
        non_persistent_messages st' g' !! k = Some x)
  ∧ (∀ k msg, (k, msg) ∈ entries ->
        is_Some (non_persistent_messages st' g !! k)).
Proof.
  revert st. induction entries as [|[k0 msg0] rest IH]; simpl; intros st H.
  - injection H as <-. split; [by left|]. split; [done|].
    intros k msg Hin. by apply elem_of_nil in Hin.
  - apply bind_Some in H as ([m s] & Hc & H). simpl in H.
    apply unpersisted_convert_msg in Hc as (Hnp & Hme & _ & Hsz & Hbuf).
    destruct (IH _ H) as (Hsound & Hkeep & Hall). clear IH.
    assert (Hstep : ∀ g' k x,
               non_persistent_messages st g' !! k = Some x ->
               non_persistent_messages
                 (set_non_persistent_messages
                    (<[g := map_emplace k0 m (non_persistent_messages s g)]>
                       (non_persistent_messages s)) s) g' !! k = Some x).
    { intros g' k x Hx. simpl. rewrite Hnp.
      destruct (decide (g' = g)) as [->|Hne];
        [|by rewrite fn_lookup_insert_ne].
      rewrite fn_lookup_insert. unfold map_emplace.
      destruct (non_persistent_messages st g !! k0) eqn:E; [done|].
      rewrite lookup_insert_ne; [done|]. intros ->. congruence. }
    split; [|split].
    + intros g' k msg' Hk.
      destruct (Hsound _ _ _ Hk) as [Hs|(-> & msg & Hin & Hrest)].
      * simpl in Hs. rewrite Hnp in Hs.
        destruct (decide (g' = g)) as [->|Hne];
          [|rewrite fn_lookup_insert_ne in Hs by done; by left].
        rewrite fn_lookup_insert in Hs. unfold map_emplace in Hs.
        destruct (non_persistent_messages st g !! k0) eqn:E; [by left|].
        apply lookup_insert_Some in Hs as [[<- <-]|[_ Hs]]; [|by left].
        right. split; [done|]. exists msg0. split; [left|done].
      * right. split; [done|]. exists msg. split; [by right|done].
    + intros g' k x Hx. by apply Hkeep, Hstep.
    + intros k msg [[= -> ->]|Hin]%elem_of_cons; [|by eapply Hall].
      simpl in Hkeep.
      destruct (map_emplace k0 m (non_persistent_messages s g) !! k0)
        as [x|] eqn:E.
      * exists x. apply Hkeep. simpl. by rewrite fn_lookup_insert.
      * unfold map_emplace in E.
        destruct (non_persistent_messages s g !! k0) eqn:E'; [congruence|].
        by rewrite lookup_insert_eq in E.
Qed.

Lemma take_over_sends_unpersisted cfg old_cfg old subgroups u us st st' :
  take_over_sends cfg old_cfg old subgroups u us st = Some st' ->
  (∀ g k msg', non_persistent_messages st' g !! k = Some msg' ->
      non_persistent_messages st g !! k = Some msg'
      ∨ (head subgroups = Some g
         ∧ ∃ msg, u g !! k = Some msg
             ∧ members cfg !! member_index cfg
               = Some (RDMCMessage.sender_id msg')
             ∧ RDMCMessage.size msg' = RDMCMessage.size msg
             ∧ RDMCMessage.message_buffer msg'
               = RDMCMessage.message_buffer msg))
  ∧ (∀ g k x, non_persistent_messages st g !! k = Some x ->
        non_persistent_messages st' g !! k = Some x)
  ∧ (∀ g k msg, head subgroups = Some g -> u g !! k = Some msg ->
        is_Some (non_persistent_messages st' g !! k)).
Proof.
  revert u us st.
  induction subgroups as [|g1 rest IH]; simpl; intros u us st H.
  - injection H as <-. split; [by left|]. by split.
  - apply bind_Some in H as (s1 & H1 & H).
    apply bind_Some in H as (s2 & H2 & H).
    apply bind_Some in H as (s3 & H3 & H).
    apply bind_Some in H as (s4 & H4 & H).
    apply bind_Some in H as (s5 & H5 & H).
    assert (non_persistent_messages s1 = non_persistent_messages st) as E1.
    { destruct (current_sends old g1); [|by injection H1 as <-].
      destruct (bool_decide _); [|by injection H1 as <-].
      apply bind_Some in H1 as ([m s] & Hc & [= <-]).
      by apply unpersisted_convert_msg in Hc as [? _]. }
    assert (non_persistent_messages s2 = non_persistent_messages s1) as E2.
    { destruct (bool_decide _); [|by injection H2 as <-].
      eauto using unpersisted_convert_pending. }
    assert (non_persistent_messages s3 = non_persistent_messages s2) as E3.
    { destruct (next_sends old g1); [|by injection H3 as <-].
      destruct (bool_decide _); [|by injection H3 as <-].
      apply bind_Some in H3 as ([m s] & Hc & [= <-]).
      by apply unpersisted_convert_msg in Hc as [? _]. }
    apply unpersisted_convert_unpersisted_sst in H5 as E5.
    destruct (convert_unpersisted_entries _ _ _ _ _ H4)
      as (Hsound & Hkeep & Hall).
    rewrite E3, E2, E1 in Hsound, Hkeep. rewrite <- E5 in Hsound, Hkeep, Hall.
    destruct (IH _ _ _ H) as (Isound & Ikeep & _). clear IH.
    split; [|split].
    + intros g k msg' Hk.
      destruct (Isound _ _ _ Hk) as [Hs|(_ & msg & Hempty & _)];
        [|by rewrite lookup_empty in Hempty].
      destruct (Hsound _ _ _ Hs) as [?|(-> & msg & Hin & Hrest)]; [by left|].
      right. split; [done|]. exists msg.
      split; [by apply in_key_order_elem|done].
    + intros g k x Hx. by apply Ikeep, Hkeep.
    + intros g k msg [= ->] Hu.
      destruct (Hall k msg) as [x Hx]; [by apply in_key_order_elem|].
      exists x. by apply Ikeep.
Qed.

(** What the constructor that takes over makes of the old group's
    messages still with the writer. *)
Lemma MulticastGroup_from_unpersisted
    cfg table old_cfg old_group addr already_failed rdmc_ok groups st0 :
  MulticastGroup_from cfg table old_cfg old_group addr already_failed rdmc_ok
    groups = Some st0 ->
  (∀ g k msg', non_persistent_messages st0 g !! k = Some msg' ->
      head (my_subgroups cfg) = Some g
      ∧ ∃ msg, non_persistent_messages old_group g !! k = Some msg
          ∧ members cfg !! member_index cfg
            = Some (RDMCMessage.sender_id msg')
          ∧ RDMCMessage.size msg' = RDMCMessage.size msg
          ∧ RDMCMessage.message_buffer msg'
            = RDMCMessage.message_buffer msg)
  ∧ (∀ g k msg, head (my_subgroups cfg) = Some g ->
        non_persistent_messages old_group g !! k = Some msg ->
        is_Some (non_persistent_messages st0 g !! k)).
Proof.
  intros H. unfold MulticastGroup_from, register_predicates in H.
  apply bind_Some in H as (_ & _ & H).
  apply bind_Some in H as (fresh_pools & _ & H). cbv zeta in H.
  apply bind_Some in H as (pools & _ & H).
  apply bind_Some in H as (s1 & H1 & H).
  apply bind_Some in H as (s2 & H2 & H).
  apply register_loop_rows in H as (_ & Hq).
  assert (queues st0 = queues s2) as Hq'
    by (rewrite Hq; by destruct (orb _ _)).
  pose proof (f_equal (λ x, x.1.1.2) Hq') as Enp. simpl in Enp. rewrite Enp.
  apply unpersisted_requeue_stable in H1.
  rewrite unpersisted_reclaim_receives in H1. simpl in H1.
  destruct (take_over_sends_unpersisted _ _ _ _ _ _ _ _ H2)
    as (Hsound & _ & Hall).
  pose proof (f_equal (λ x, x.1.1.2) (queues_wedge old_cfg old_group)) as Ew.
  simpl in Ew. rewrite Ew in Hsound, Hall.
  split; [|exact Hall].
  intros g k msg' Hk.
  destruct (Hsound _ _ _ Hk) as [Hs|?]; [|done].
  rewrite H1 in Hs. by rewrite lookup_empty in Hs.
Qed.

(** X21: of the old group's messages still with the writer, the constructor
    that takes over keeps those of one subgroup only, the first of this
    node's subgroups: the old maps are cleared inside the loop over the
    subgroups, at the end of its first pass.  The entries it keeps stay
    under the sequence numbers of the old view, with size and buffer as
    they were and this node as the sender; for every other subgroup the
    new group holds no unpersisted message. *)
Theorem take_over_keeps_unpersisted_of_first_subgroup
    cfg table old_cfg old_group addr already_failed rdmc_ok groups st0 :
  MulticastGroup_from cfg table old_cfg old_group addr already_failed rdmc_ok
    groups = Some st0 ->
  (∀ g, head (my_subgroups cfg) ≠ Some g ->
        non_persistent_messages st0 g = ∅)
  ∧ (∀ g k, head (my_subgroups cfg) = Some g ->
        (is_Some (non_persistent_messages st0 g !! k)
         ↔ is_Some (non_persistent_messages old_group g !! k)))
  ∧ (∀ g k msg', non_persistent_messages st0 g !! k = Some msg' ->
        ∃ msg, non_persistent_messages old_group g !! k = Some msg
          ∧ members cfg !! member_index cfg
            = Some (RDMCMessage.sender_id msg')
          ∧ RDMCMessage.size msg' = RDMCMessage.size msg
          ∧ RDMCMessage.message_buffer msg'
            = RDMCMessage.message_buffer msg).
Proof.
  intros H.
  destruct (MulticastGroup_from_unpersisted _ _ _ _ _ _ _ _ _ H)
    as [Hsound Hall].
  split; [|split].
  - intros g Hg. apply map_empty. intros k.
    destruct (non_persistent_messages st0 g !! k) as [x|] eqn:E; [|done].
    by destruct (Hsound _ _ _ E) as [? _].
  - intros g k Hg. split.
    + intros [x Hx]. destruct (Hsound _ _ _ Hx) as (_ & msg & Hm & _).
      by exists msg.
    + intros [msg Hm]. by apply (Hall g k msg).
  - intros g k msg' Hk. by destruct (Hsound _ _ _ Hk) as [_ ?].
Qed.

Lemma take_over_keeps_unpersisted_of_first_subgroup_witness :
  (∀ g, head (my_subgroups pair_joined_config) ≠ Some g ->
        non_persistent_messages (run_or_blank pair_joined) g = ∅)
  ∧ (∀ g k, head (my_subgroups pair_joined_config) = Some g ->
        (is_Some (non_persistent_messages (run_or_blank pair_joined) g !! k)
         ↔ is_Some (non_persistent_messages (run_or_blank pair_third_send) g
                      !! k))).
Proof.
  destruct (take_over_keeps_unpersisted_of_first_subgroup pair_joined_config
              blank_sst (pair_config true) (run_or_blank pair_third_send) 4
              [] true 3 (run_or_blank pair_joined)
              ltac:(vm_compute; reflexivity))
    as (Hothers & Hfirst & _).
  exact (conj Hothers Hfirst).
Defined.

(** X22: after a take-over the writer's report for a message the old group
    delivered can put this node's [persisted_num] above its
    [delivered_num]: the entry carried over is found under its old
    sequence number [k], the callback of the new group sets
    [persisted_num] to [k], and the new group's [delivered_num],
    [stable_num] and [seq_num] are still -1. *)
Theorem report_after_take_over_outruns_delivery
    cfg table old_cfg old_group addr already_failed rdmc_ok groups st0
    g k msg m :
  MulticastGroup_from cfg table old_cfg old_group addr already_failed rdmc_ok
    groups = Some st0 ->
  head (my_subgroups cfg) = Some g ->
  non_persistent_messages old_group g !! k = Some msg ->
  pm_subgroup_num m = g ->
  to_int64 (pm_index m * Z.of_nat (num_members cfg)
            + Z.of_nat (index_of (members cfg) (pm_sender m))) = k ->
  (member_index cfg < num_members cfg)%nat ->
  (g < seq_num_size cfg)%nat ->
  is_Some (get_shard_sst_indices cfg g) ->
  ∃ st1,
    make_file_written_callback cfg m st0 = Some st1
    ∧ persisted_num (sst st1) (member_index cfg) g = k
    ∧ delivered_num (sst st1) (member_index cfg) g = -1
    ∧ stable_num (sst st1) (member_index cfg) g = -1
    ∧ seq_num (sst st1) (member_index cfg) g = -1.
Proof.
  intros H Hg Hmsg Hm Hk Hme Hsz [rows Hrows].
  destruct (MulticastGroup_from_unpersisted _ _ _ _ _ _ _ _ _ H)
    as [_ Hall].
  destruct (Hall g k msg Hg Hmsg) as [msg' Hmsg'].
  destruct (counters_start_from _ _ _ _ _ _ _ _ _ H _ Hme) as [Hcells _].
  destruct (Hcells g Hsz) as (Hs & Hst & Hd & _).
  unfold make_file_written_callback. rewrite Hm, Hk. simpl.
  rewrite Hmsg'. simpl. rewrite Hrows. simpl.
  eexists. split; [reflexivity|]. simpl.
  by rewrite set2_same.
Qed.

Lemma report_after_take_over_outruns_delivery_witness :
  reachable (pair_config true) (run_or_blank pair_third_send)
  ∧ ∃ st1,
      make_file_written_callback pair_joined_config pair_written
        (run_or_blank pair_joined) = Some st1
      ∧ persisted_num (sst st1) (member_index pair_joined_config) 0%nat = 0
      ∧ delivered_num (sst st1) (member_index pair_joined_config) 0%nat = -1
      ∧ stable_num (sst st1) (member_index pair_joined_config) 0%nat = -1
      ∧ seq_num (sst st1) (member_index pair_joined_config) 0%nat = -1.
Proof.
  split; [apply reachable_pair_third_send|].
  eapply (report_after_take_over_outruns_delivery pair_joined_config
            blank_sst (pair_config true) (run_or_blank pair_third_send) 4
            [] true 3 (run_or_blank pair_joined) 0%nat 0 _ pair_written).
  - vm_compute. reflexivity.
  - vm_compute. reflexivity.
  - vm_compute. reflexivity.
  - reflexivity.
  - vm_compute. reflexivity.
  - vm_compute. lia.
  - vm_compute. lia.
  - vm_compute. by eexists.
Defined.

(** ** The RDMC group numbers wedge destroys *)

































(** ** A bulk message from a remote sender *)

(** X24: the receive of a bulk message from another member, end to end.  When
    the transfer starts, [rdmc_incoming_message] takes the buffer at the
    back of the subgroup's pool and records the receive under the
    sender's next sequence number.  When the completion for that index
    comes, the handler moves the message, with that buffer and the length
    announced, into the queue of locally stable messages under the same
    sequence number, drops the record of the receive, and advances the
    sender's receive counter to the message's index plus the turns the
    sender skips. *)
Theorem remote_receive_files_message
    cfg g shard_rank ctx me mode len h st st1 :
  sender_context_of cfg g shard_rank = Some ctx ->
  members cfg !! member_index cfg = Some me ->
  sc_node_id ctx ≠ me ->
  subgroup_to_mode cfg !! g = Some mode ->
  mode ≠ RAW ->
  rdmc_incoming_message cfg g shard_rank len st = Some st1 ->
  h_index h
  = num_received (sst st) (member_index cfg)
      (sc_num_received_offset ctx + Z.to_nat (sc_sender_rank ctx))%nat + 1 ->
  0 <= pause_sending_turns h ->
  locally_stable_rdmc_messages st g
    !! (h_index h * sc_num_shard_senders ctx + sc_sender_rank ctx) = None ->
  ∃ st2 mb,
    rdmc_receive_handler cfg g shard_rank h st1 = Some st2
    ∧ free_message_buffers st g = free_message_buffers st2 g ++ [Some mb]
    ∧ locally_stable_rdmc_messages st2 g
        !! (h_index h * sc_num_shard_senders ctx + sc_sender_rank ctx)
      = Some (RDMCMessage.Build (sc_node_id ctx) (h_index h) len (Some mb))
    ∧ current_receives st2
      = delete (g, h_index h * sc_num_shard_senders ctx + sc_sender_rank ctx)
          (current_receives st)
    ∧ num_received (sst st2) (member_index cfg)
        (sc_num_received_offset ctx + Z.to_nat (sc_sender_rank ctx))%nat
      = h_index h + pause_sending_turns h.
Proof.
  intros Hctx Hme Hne Hmode Hraw H Hidx Hpause Hfresh.
  destruct (sender_context_of_rank _ _ _ _ Hctx) as (Hrank & _).
  set (nss := sc_num_shard_senders ctx) in *.
  set (rank := sc_sender_rank ctx) in *.
  set (entry := (sc_num_received_offset ctx + Z.to_nat rank)%nat) in *.
  set (key := h_index h * nss + rank) in *.
  (* the start of the transfer *)
  unfold rdmc_incoming_message in H. rewrite Hctx in H. simpl in H.
  destruct (last (free_message_buffers st g)) as [back|] eqn:Hlast; [|done].
  simpl in H. destruct back as [mb|]; [|done]. simpl in H.
  fold nss rank entry in H. rewrite <- Hidx in H. fold key in H.
  apply last_Some in Hlast as [pool Hpool].
  set (msg := RDMCMessage.Build (sc_node_id ctx) (h_index h) len (Some mb))
    in *.
  (* the completion *)
  destruct (rdmc_receive_handler cfg g shard_rank h st1) as [st2|] eqn:E.
  - exists st2, mb. split; [done|].
    unfold rdmc_receive_handler in E. rewrite Hctx, Hme in E. simpl in E.
    rewrite decide_False in E by done.
    fold nss rank entry key in E.
    injection H as <-. simpl in E.
    rewrite lookup_insert_eq in E. simpl in E.
    rewrite fn_lookup_insert in E.
    unfold map_emplace in E. rewrite Hfresh in E.
    destruct (add_rdmc_placeholders _ _ _ _ _ _) as [index q] eqn:Hph.
    pose proof (add_rdmc_placeholders_index (Z.to_nat (pause_sending_turns h))
                  (sc_node_id ctx) nss (h_index h) key
                  (<[key := msg]> (locally_stable_rdmc_messages st g))) as Hi.
    pose proof (add_rdmc_placeholders_outside
                  (Z.to_nat (pause_sending_turns h))
                  (sc_node_id ctx) nss (h_index h) key
                  (<[key := msg]> (locally_stable_rdmc_messages st g)) key
                  ltac:(intros j Hj; nia)) as Hq.
    rewrite Hph in Hi, Hq. simpl in Hi, Hq. rewrite lookup_insert_eq in Hq.
    apply bind_Some in E as (s1 & Hraw1 & E).
    unfold raw_deliver_new in Hraw1. rewrite Hmode in Hraw1. simpl in Hraw1.
    rewrite decide_False in Hraw1 by done. injection Hraw1 as <-.
    unfold publish_num_received in E. simpl in E.
    fold entry in E.
    assert (resolve_num_received (h_index h) index
              (num_received (sst st) (member_index cfg) entry)
            = h_index h + pause_sending_turns h) as Hres.
    { unfold resolve_num_received.
      destruct (Z.leb_spec (h_index h)
                  (num_received (sst st) (member_index cfg) entry + 1)); lia. }
    rewrite Hres in E.
    match type of E with
    | context [if ?b then _ else _] =>
        destruct b eqn:Elt;
          [|apply Z.ltb_ge in Elt; unfold entry, rank in *; lia]
    end.
    apply bind_Some in E as (s & _ & E). simpl in E.
    destruct (_ <? s); injection E as <-; simpl;
      rewrite ?fn_lookup_insert, ?set2_same.
    all: rewrite Hpool, removelast_last.
    all: split; [done|]; split; [exact Hq|]; split; [|done].
    all: apply delete_insert_eq.
  - exfalso.
    unfold rdmc_receive_handler in E. rewrite Hctx, Hme in E. simpl in E.
    rewrite decide_False in E by done.
    fold nss rank entry key in E.
    injection H as <-. simpl in E.
    rewrite lookup_insert_eq in E. simpl in E.
    destruct (add_rdmc_placeholders _ _ _ _ _ _) as [index q] eqn:Hph.
    pose proof (add_rdmc_placeholders_index (Z.to_nat (pause_sending_turns h))
                  (sc_node_id ctx) nss (h_index h) key
                  (<[g := map_emplace key msg
                            (locally_stable_rdmc_messages st g)]>
                     (locally_stable_rdmc_messages st) g)) as Hi.
    rewrite Hph in Hi. simpl in Hi.
    unfold raw_deliver_new in E. rewrite Hmode in E. simpl in E.
    rewrite decide_False in E by done. simpl in E.
    unfold publish_num_received in E. simpl in E.
    fold entry in E.
    assert (resolve_num_received (h_index h) index
              (num_received (sst st) (member_index cfg) entry)
            = h_index h + pause_sending_turns h) as Hres.
    { unfold resolve_num_received.
      destruct (Z.leb_spec (h_index h)
                  (num_received (sst st) (member_index cfg) entry + 1)); lia. }
    rewrite Hres in E.
    match type of E with
    | context [if ?b then _ else _] =>
        destruct b eqn:Elt;
          [|apply Z.ltb_ge in Elt; unfold entry, rank in *; lia]
    end.
    apply bind_None in E as [E|(s & _ & E)];
      [|simpl in E; by destruct (_ <? s)].
    unfold recomputed_seq_num in E.
    apply bind_None in E as [E|([i v] & _ & E)]; [|done].
    match type of E with
    | min_element ?l = None =>
        destruct (min_element_is_Some l) as [x Hx]; [|congruence]
    end.
    unfold num_received_range, nss, rank in *.
    destruct (Z.to_nat (sc_num_shard_senders ctx)) as [|n] eqn:En;
      [lia|simpl; discriminate].
Qed.

Lemma remote_receive_files_message_witness :
  ∃ st1 st2 mb,
    rdmc_incoming_message (pair_config false) 0 1 32
      (run_or_blank (pair_start false)) = Some st1
    ∧ rdmc_receive_handler (pair_config false) 0 1
        (fill_header (pair_config false) 0 0 false) st1 = Some st2
    ∧ locally_stable_rdmc_messages st2 0%nat !! 1
      = Some (RDMCMessage.Build 1 0 32 (Some mb))
    ∧ num_received (sst st2) (member_index (pair_config false)) 1%nat = 0.
Proof.
  eexists.
  destruct (remote_receive_files_message (pair_config false) 0%nat 1%nat
              (Build_sender_context 1 1 2 [0; 1]%nat 0) 0%nat ORDERED 32
              (fill_header (pair_config false) 0 0 false)
              (run_or_blank (pair_start false)) _
              ltac:(vm_compute; reflexivity) ltac:(reflexivity)
              ltac:(simpl; lia) ltac:(reflexivity) ltac:(discriminate)
              ltac:(vm_compute; reflexivity) ltac:(vm_compute; reflexivity)
              ltac:(vm_compute; discriminate) ltac:(vm_compute; reflexivity))
    as (st2 & mb & H1 & _ & H2 & _ & H3).
  exists st2, mb.
  split; [vm_compute; reflexivity|].
  exact (conj H1 (conj H2 H3)).
Defined.

(** ** The sequence number of a delivered message *)

(** X25: [deliver_message] files a delivered message for the writer under the
    sequence number it derives from the message's sender id and index by
    its own loop over the shard; in a shard that lists no member twice
    this is the number under which the receive handler of that sender had
    queued the message. *)
Theorem delivery_sequence_number_matches_receive
    cfg g shard_rank ctx shard_members idx :
  subgroup_to_membership cfg !! g = Some shard_members ->
  NoDup shard_members ->
  sender_context_of cfg g shard_rank = Some ctx ->
  persist_sequence_number cfg g (sc_node_id ctx) idx
  = Some (idx * sc_num_shard_senders ctx + sc_sender_rank ctx).
Proof.
  intros Hm Hnd Hctx.
  apply (persist_sequence_number_context cfg g shard_rank ctx idx); [|done].
  intros ms Hms. congruence.
Qed.

Lemma delivery_sequence_number_matches_receive_witness :
  persist_sequence_number trio_config 0 2 5 = Some (5 * 2 + 1).
Proof.
  apply (delivery_sequence_number_matches_receive trio_config 0%nat 1%nat
           (Build_sender_context 2 1 2 [1; 2]%nat 0) [1; 2]%nat 5).
  - reflexivity.
  - apply NoDup_cons. split; [|apply NoDup_singleton].
    intros Hin. apply elem_of_cons in Hin as [[=]|Hin].
    by apply elem_of_nil in Hin.
  - vm_compute. reflexivity.
Defined.

(** *** The indices a take-over hands out *)

Lemma convert_msg_index cfg msg g st msg' st' :
  convert_msg cfg msg g st = Some (msg', st') ->
  ∃ mb, RDMCMessage.message_buffer msg = Some mb
    ∧ RDMCMessage.index msg' = future_message_indices st g
    ∧ future_message_indices st' g
      = future_message_indices st g + 1
        + pause_sending_turns (buffer_header mb)
    ∧ (∀ g', g' ≠ g ->
         future_message_indices st' g' = future_message_indices st g')
    ∧ pending_sends st' = pending_sends st
    ∧ next_sends st' = next_sends st
    ∧ non_persistent_messages st' = non_persistent_messages st.
Proof.
  unfold convert_msg. intros H.
  apply bind_Some in H as (me & Hme & H). simpl in H.
  apply bind_Some in H as (mb & Hmb & [= <- <-]). simpl.
  exists mb. rewrite !fn_lookup_insert.
  split; [done|]. split; [done|]. split; [done|].
  split; [|done]. intros g' Hg. by rewrite !fn_lookup_insert_ne.
Qed.

(** X26: the loop of the constructor that takes over the old group's messages
    still with the writer gives each of them an index of the new group:
    the entries it files carry consecutive indices from the subgroup's
    current one, each followed by the turns its header skips, and the
    subgroup's next index moves past all of them.  None of these messages
    is queued for sending: [pending_sends] and [next_sends] are as before,
    so nothing is queued under the indices they took. *)
Theorem convert_unpersisted_consumes_indices cfg g entries st st' :
  convert_unpersisted cfg g entries st = Some st' ->
  (∀ k msg, (k, msg) ∈ entries -> is_Some (RDMCMessage.message_buffer msg))
  ∧ future_message_indices st' g
    = future_message_indices st g
      + foldr (λ e acc,
                 1 + from_option (λ mb, pause_sending_turns (buffer_header mb))
                       0 (RDMCMessage.message_buffer e.2) + acc)
              0 entries
  ∧ (∀ g', g' ≠ g ->
       future_message_indices st' g' = future_message_indices st g')
  ∧ pending_sends st' = pending_sends st
  ∧ next_sends st' = next_sends st
  ∧ (∀ k msg', non_persistent_messages st' g !! k = Some msg' ->
       non_persistent_messages st g !! k = Some msg'
       ∨ ∃ i e, entries !! i = Some e ∧ e.1 = k
           ∧ RDMCMessage.index msg'
             = future_message_indices st g
               + foldr (λ e acc,
                          1 + from_option
                                (λ mb, pause_sending_turns (buffer_header mb))
                                0 (RDMCMessage.message_buffer e.2) + acc)
                       0 (take i entries)).
Proof.
  revert st. induction entries as [|[k0 msg0] rest IH]; simpl; intros st H.
  - injection H as <-.
    split; [intros k msg Hin; by apply elem_of_nil in Hin|].
    split; [lia|]. split; [done|]. split; [done|]. split; [done|].
    intros k msg' Hk. by left.
  - apply bind_Some in H as ([m s] & Hc & H). simpl in H.
    destruct (convert_msg_index _ _ _ _ _ _ Hc)
      as (mb & Hmb & Hidx & Hfut & Hother & Hps & Hns & Hnp).
    destruct (IH _ H) as (Hbuf & Ifut & Iother & Ips & Ins & Inp). clear IH.
    simpl in Ifut, Iother, Ips, Ins, Inp.
    split; [|split; [|split; [|split; [|split]]]].
    + intros k msg [[= -> ->]|Hin]%elem_of_cons; [by eexists|by eapply Hbuf].
    + rewrite Ifut, Hfut, Hmb. simpl. lia.
    + intros g' Hg. rewrite Iother by done. by apply Hother.
    + by rewrite Ips.
    + by rewrite Ins.
    + intros k msg' Hk.
      destruct (Inp _ _ Hk) as [Hs|(i & e & Hi & He & Hindex)].
      * rewrite fn_lookup_insert, Hnp in Hs. unfold map_emplace in Hs.
        destruct (non_persistent_messages st g !! k0) eqn:E; [by left|].
        apply lookup_insert_Some in Hs as [[<- <-]|[_ Hs]]; [|by left].
        right. exists 0%nat, (k0, msg0). split; [done|]. split; [done|].
        simpl. lia.
      * right. exists (S i), e. split; [done|]. split; [done|].
        rewrite Hindex, Hfut. simpl. rewrite Hmb. simpl. lia.
Qed.

Lemma convert_unpersisted_consumes_indices_witness :
  ∃ st',
    convert_unpersisted pair_joined_config 0
      [(0, RDMCMessage.Build 0 0 32
             (Some (Build_MessageBuffer 3 (Build_header 24 0 0 false))))]
      (run_or_blank (pair_start true)) = Some st'
    ∧ future_message_indices st' 0%nat
      = future_message_indices (run_or_blank (pair_start true)) 0%nat
        + foldr (λ e acc,
                   1 + from_option
                         (λ mb, pause_sending_turns (buffer_header mb))
                         0 (RDMCMessage.message_buffer e.2) + acc)
                0
                [(0, RDMCMessage.Build 0 0 32
                       (Some (Build_MessageBuffer 3
                                (Build_header 24 0 0 false))))]
    ∧ pending_sends st' = pending_sends (run_or_blank (pair_start true)).
Proof.
  eexists. split; [vm_compute; reflexivity|].
  pose proof (convert_unpersisted_consumes_indices pair_joined_config 0%nat
                [(0, RDMCMessage.Build 0 0 32
                       (Some (Build_MessageBuffer 3
                                (Build_header 24 0 0 false))))]
                (run_or_blank (pair_start true)) _
                ltac:(vm_compute; reflexivity))
    as (_ & Hfut & _ & Hps & _).
  exact (conj Hfut Hps).
Defined.

(** ** The stability trigger *)

Lemma min_over_shard_attained cfg col ms v :
  min_over_shard cfg col ms = Some v ->
  ∃ m r, m ∈ ms ∧ node_id_to_sst_index cfg !! m = Some r ∧ col r = v.
Proof.
  unfold min_over_shard. intros H.
  apply bind_Some in H as (first & Hfirst & H).
  apply bind_Some in H as (r0 & Hr0 & H).
  apply min_loop_attained in H as [->|(m & r & Hm & Hr & ->)].
  - exists first, r0. split; [|done].
    destruct ms as [|x ms]; [done|]. injection Hfirst as ->. left.
  - by exists m, r.
Qed.

(** X27: the stability trigger of a subgroup computes the least [seq_num]
    over the rows of the shard's members: a value that one of these rows
    holds and none of them undercuts.  It raises this node's [stable_num]
    to it when that is an increase, and pushes the column to the shard
    exactly then; it never lowers [stable_num]. *)
Theorem stability_trig_raises_to_shard_minimum cfg g st st' :
  stability_trig cfg g st = Some st' ->
  ∃ shard_members shard_sst_indices v,
    subgroup_to_membership cfg !! g = Some shard_members
    ∧ get_shard_sst_indices cfg g = Some shard_sst_indices
    ∧ (∀ m, m ∈ shard_members ->
         ∃ r, node_id_to_sst_index cfg !! m = Some r
              ∧ v <= seq_num (sst st) r g)
    ∧ (∃ m r, m ∈ shard_members ∧ node_id_to_sst_index cfg !! m = Some r
              ∧ seq_num (sst st) r g = v)
    ∧ stable_num (sst st') (member_index cfg) g
      = Z.max (stable_num (sst st) (member_index cfg) g) v
    ∧ log st'
      = log st
        ++ (if stable_num (sst st) (member_index cfg) g <? v
            then [EvPut (Some shard_sst_indices) col_stable_num g 1] else []).
Proof.
  unfold stability_trig. intros H.
  apply bind_Some in H as (ms & Hms & H).
  apply bind_Some in H as (rows & Hrows & H).
  apply bind_Some in H as (v & Hv & H). cbv zeta in H.
  exists ms, rows, v. split; [done|]. split; [done|].
  split; [|split; [by apply (min_over_shard_attained cfg _ ms v)|]].
  - intros m Hm.
    unfold get_shard_sst_indices in Hrows. rewrite Hms in Hrows.
    simpl in Hrows.
    apply list_elem_of_lookup_1 in Hm as Hi. destruct Hi as [i Hi].
    destruct (mapM_lookup_Some _ _ _ _ _ Hrows Hi) as (r & _ & Hr).
    exists r. split; [done|].
    by apply (min_over_shard_le cfg _ ms v Hv m r).
  - destruct (Z.ltb_spec (stable_num (sst st) (member_index cfg) g) v);
      injection H as <-; simpl.
    + rewrite set2_same. split; [lia|done].
    + rewrite app_nil_r. split; [lia|done].
Qed.

Lemma stability_trig_raises_to_shard_minimum_witness :
  ∃ st' v,
    stability_trig (pair_config true) 0
      (peer_at 1 0 (run_or_blank pair_queued)) = Some st'
    ∧ (∃ m r, m ∈ [0; 1]%nat
              ∧ node_id_to_sst_index (pair_config true) !! m = Some r
              ∧ seq_num (sst (peer_at 1 0 (run_or_blank pair_queued))) r 0%nat
                = v)
    ∧ stable_num (sst st') (member_index (pair_config true)) 0%nat
      = Z.max (stable_num (sst (peer_at 1 0 (run_or_blank pair_queued)))
                 (member_index (pair_config true)) 0%nat) v.
Proof.
  eexists.
  destruct (stability_trig_raises_to_shard_minimum (pair_config true) 0%nat
              (peer_at 1 0 (run_or_blank pair_queued)) _
              ltac:(vm_compute; reflexivity))
    as (ms & rows & v & Hms & _ & _ & Hatt & Hst & _).
  exists v. split; [vm_compute; reflexivity|].
  assert (ms = [0; 1]%nat) as -> by (vm_compute in Hms; congruence).
  exact (conj Hatt Hst).
Defined.

(** ** The completion of this node's own bulk send *)

(** X28: when the completion of this node's own send comes back, the handler
    moves the message out of [current_sends] into the queue of locally
    stable messages, under the sequence number made of the index in the
    completed header and this node's sender rank, replacing whatever was
    filed there; it leaves the subgroup with no current send and advances
    this node's own receive counter to that index plus the turns the
    header skips.  Without a current send the assertion fails. *)
Theorem own_completion_files_current_send
    cfg g shard_rank ctx mode h st :
  sender_context_of cfg g shard_rank = Some ctx ->
  members cfg !! member_index cfg = Some (sc_node_id ctx) ->
  subgroup_to_mode cfg !! g = Some mode ->
  mode ≠ RAW ->
  h_index h
  = num_received (sst st) (member_index cfg)
      (sc_num_received_offset ctx + Z.to_nat (sc_sender_rank ctx))%nat + 1 ->
  0 <= pause_sending_turns h ->
  match current_sends st g with
  | None => rdmc_receive_handler cfg g shard_rank h st = None
  | Some msg =>
      ∃ st',
        rdmc_receive_handler cfg g shard_rank h st = Some st'
        ∧ locally_stable_rdmc_messages st' g
            !! (h_index h * sc_num_shard_senders ctx + sc_sender_rank ctx)
          = Some msg
        ∧ current_sends st' g = None
        ∧ num_received (sst st') (member_index cfg)
            (sc_num_received_offset ctx + Z.to_nat (sc_sender_rank ctx))%nat
          = h_index h + pause_sending_turns h
        ∧ free_message_buffers st' = free_message_buffers st
        ∧ pending_sends st' = pending_sends st
  end.
Proof.
  intros Hctx Hme Hmode Hraw Hidx Hpause.
  destruct (sender_context_of_rank _ _ _ _ Hctx) as (Hrank & _).
  unfold rdmc_receive_handler. rewrite Hctx, Hme. simpl.
  rewrite decide_True by done.
  destruct (current_sends st g) as [msg|] eqn:Hcs; [|done]. simpl.
  rewrite fn_lookup_insert.
  set (key := h_index h * sc_num_shard_senders ctx + sc_sender_rank ctx).
  destruct (add_rdmc_placeholders _ _ _ _ _ _) as [index q] eqn:Hph.
  pose proof (add_rdmc_placeholders_index (Z.to_nat (pause_sending_turns h))
                (sc_node_id ctx) (sc_num_shard_senders ctx) (h_index h) key
                (<[key := msg]> (locally_stable_rdmc_messages st g))) as Hi.
  pose proof (add_rdmc_placeholders_outside
                (Z.to_nat (pause_sending_turns h))
                (sc_node_id ctx) (sc_num_shard_senders ctx) (h_index h) key
                (<[key := msg]> (locally_stable_rdmc_messages st g)) key
                ltac:(intros j Hj; unfold key; nia)) as Hq.
  rewrite Hph in Hi, Hq. simpl in Hi, Hq. rewrite lookup_insert_eq in Hq.
  unfold raw_deliver_new. rewrite Hmode. simpl.
  rewrite decide_False by done. simpl.
  unfold publish_num_received. simpl.
  assert (resolve_num_received (h_index h) index
            (num_received (sst st) (member_index cfg)
               (sc_num_received_offset ctx + Z.to_nat (sc_sender_rank ctx)))
          = h_index h + pause_sending_turns h) as ->.
  { unfold resolve_num_received.
    destruct (Z.leb_spec (h_index h)
                (num_received (sst st) (member_index cfg)
                   (sc_num_received_offset ctx
                    + Z.to_nat (sc_sender_rank ctx)) + 1)); lia. }
  destruct (Z.ltb_spec
              (num_received (sst st) (member_index cfg)
                 (sc_num_received_offset ctx + Z.to_nat (sc_sender_rank ctx)))
              (h_index h + pause_sending_turns h)) as [_|?]; [|lia].
  destruct (recomputed_seq_num _ _ _ _) as [s|] eqn:Hs; simpl.
  - destruct (_ <? s); eexists; (split; [reflexivity|]); simpl;
      rewrite ?fn_lookup_insert, ?set2_same; by repeat split.
  - exfalso. unfold recomputed_seq_num in Hs.
    apply bind_None in Hs as [Hs|([i v] & _ & Hs)]; [|done].
    match type of Hs with
    | min_element ?l = None =>
        destruct (min_element_is_Some l) as [x Hx]; [|congruence]
    end.
    unfold num_received_range.
    destruct (Z.to_nat (sc_num_shard_senders ctx)) as [|n] eqn:En;
      [lia|simpl; discriminate].
Qed.

Lemma own_completion_files_current_send_witness :
  ∃ st,
    send_loop_turn (pair_config true) true (run_or_blank pair_queued)
      = Some (true, st)
    ∧ ∃ st' msg,
        current_sends st 0%nat = Some msg
        ∧ rdmc_receive_handler (pair_config true) 0 0
            (fill_header (pair_config true) 0 0 false) st = Some st'
        ∧ locally_stable_rdmc_messages st' 0%nat !! (0 * 2 + 0) = Some msg
        ∧ current_sends st' 0%nat = None.
Proof.
  eexists. split; [vm_compute; reflexivity|].
  match goal with
  | |- ∃ st' msg, current_sends ?s _ = _ ∧ _ =>
      pose proof (own_completion_files_current_send (pair_config true) 0%nat
                    0%nat (Build_sender_context 0 0 2 [0; 1]%nat 0) ORDERED
                    (fill_header (pair_config true) 0 0 false) s
                    ltac:(vm_compute; reflexivity) ltac:(reflexivity)
                    ltac:(reflexivity) ltac:(discriminate)
                    ltac:(vm_compute; reflexivity)
                    ltac:(vm_compute; discriminate)) as H;
      destruct (current_sends s 0%nat) as [msg|] eqn:E
  end.
  - destruct H as (st' & H1 & H2 & H3 & _).
    exists st', msg. split; [reflexivity|].
    exact (conj H1 (conj H2 H3)).
  - vm_compute in E. discriminate E.
Defined.
